(** * Binary_Data_Analyzer: a shallow embedding of the analyzers,
      selection sort and binary search of [Binary_Data_Analyzer.cpp]

    The C++ program keeps its samples in [int] arrays reached through
    pointers, and every analyzer works on a private array that its
    constructor allocates.  The embedding therefore threads an explicit
    program state (the heap of arrays and the process-wide [rand()]
    generator) through a state-and-failure monad: a computation that would
    read or write outside an array has no result.  The data file, the
    reader and [main] run on a machine that adds the file system and the
    console to that state. *)

From Stdlib Require Import ZArith Lia SpecFloat.
From Equations Require Import Equations.
From stdpp Require Import gmap list sorting numbers strings pretty.

Local Open Scope Z_scope.

(** ** The [int] type *)

Definition INT_MIN : Z := -2147483648.
Definition INT_MAX : Z := 2147483647.

(** Two's-complement reduction of a mathematical integer to a 32-bit [int]:
    what the addition of two [int]s leaves in a register.  (C++ leaves
    signed overflow undefined; compiled code wraps, and so does the
    embedding.) *)
Definition int_wrap (z : Z) : Z := (z + 2 ^ 31) `mod` 2 ^ 32 - 2 ^ 31.

Definition is_int (z : Z) : Prop := INT_MIN ≤ z ≤ INT_MAX.

(** Loop counters, array indices and occurrence counts stay between -1 and
    the length of an array, which is itself an [int]: their arithmetic
    cannot overflow and is written in [Z] as it stands.  The one sum of two
    data values, in the median, goes through [int_wrap]. *)

(** ** The [double] type: IEEE 754 binary64 *)

Definition double : Type := spec_float.

Definition double_of_int (z : Z) : double := binary_normalize 53 1024 z 0 false.
Definition double_add (x y : double) : double := SFadd 53 1024 x y.
Definition double_div (x y : double) : double := SFdiv 53 1024 x y.

(** ** Program state *)

(** [heap] maps the base address of every live [int] array to its contents.
    [rand_seq] is the sequence of numbers the process-wide generator hands
    out (fixed by the seed) and [rand_calls] how many were consumed. *)
Record world := World {
  heap : gmap positive (list Z);
  rand_seq : nat → Z;
  rand_calls : nat
}.

Definition set_heap (σ : world) (h : gmap positive (list Z)) : world :=
  World h (rand_seq σ) (rand_calls σ).

(** Computations: a result and a new state, or nothing when the C++ program
    has no defined behaviour (an access outside an array, a negative array
    length). *)
Definition M (A : Type) : Type := world → option (A * world).

#[global] Instance M_ret : MRet M := λ A a σ, Some (a, σ).
#[global] Instance M_bind : MBind M := λ A B k m σ,
  match m σ with
  | Some (a, σ') => k a σ'
  | None => None
  end.

(** [values[i]] as an rvalue. *)
Definition load (p : positive) (i : Z) : M Z := λ σ,
  blk ← heap σ !! p;
  if decide (0 ≤ i) then v ← blk !! Z.to_nat i; Some (v, σ) else None.

(** [values[i] = v]. *)
Definition store (p : positive) (i v : Z) : M unit := λ σ,
  blk ← heap σ !! p;
  if decide (0 ≤ i < Z.of_nat (length blk))
  then Some ((), set_heap σ (<[p := <[Z.to_nat i := v]> blk]> (heap σ)))
  else None.

(** [new int[n]]: a block at an address not in use.  The cells of a new
    array are indeterminate; they are written before they are read. *)
Definition new_int_array (n : Z) : M positive := λ σ,
  if decide (0 ≤ n)
  then let p := fresh (dom (heap σ)) in
       Some (p, set_heap σ (<[p := replicate (Z.to_nat n) 0]> (heap σ)))
  else None.

(** [std::copy(src, src + n, dst)].  An empty range copies nothing and
    needs no array behind [src]. *)
Definition std_copy (src : positive) (n : Z) (dst : positive) : M unit := λ σ,
  if decide (n = 0) then Some ((), σ) else
  s ← heap σ !! src;
  d ← heap σ !! dst;
  if decide (0 ≤ n ≤ Z.of_nat (length s) ∧ n ≤ Z.of_nat (length d))
  then Some ((), set_heap σ (<[dst := take (Z.to_nat n) s ++ drop (Z.to_nat n) d]> (heap σ)))
  else None.

(** [rand()]. *)
Definition rand : M Z := λ σ,
  Some (rand_seq σ (rand_calls σ), World (heap σ) (rand_seq σ) (S (rand_calls σ))).

(** ** Counted loops *)

(** [for (int i = lo; i < hi; ++i) body], for a body that changes neither
    [i] nor [hi]: the body runs [hi - lo] times when [lo < hi] and not at
    all otherwise.  [s] is the tuple of locals the body updates. *)
Fixpoint for_loop {St : Type} (n : nat) (i : Z) (body : Z → St → M St) (s : St) : M St :=
  match n with
  | O => mret s
  | S n' => s' ← body i s; for_loop n' (i + 1) body s'
  end.

Definition for_range {St : Type} (lo hi : Z) (body : Z → St → M St) (s : St) : M St :=
  for_loop (Z.to_nat (hi - lo)) lo body s.

(** ** Sort primitive *)

(** [std::swap(values[i], values[j])]. *)
Definition std_swap (values : positive) (i j : Z) : M unit :=
  a ← load values i;
  b ← load values j;
  _ ← store values i b;
  store values j a.

Definition selection_sort (values : positive) (size : Z) : M unit :=
  for_range 0 (size - 1) (λ i _,
    minIndex ← for_range (i + 1) size (λ j minIndex,
      vj ← load values j;
      vm ← load values minIndex;
      mret (if decide (vj < vm) then j else minIndex)) i;
    std_swap values i minIndex) ().

(** ** Search primitive *)

Equations? binary_search_recursive (values : positive) (key start end_ : Z)
    (σ : world) : option (bool * world) by wf (Z.to_nat (end_ - start + 1)) lt :=
  binary_search_recursive values key start end_ σ with decide (start > end_) := {
    | left _ => Some (false, σ)
    | right _ with load values (start + (end_ - start) `quot` 2) σ := {
      | None => None
      | Some (v, σ') =>
          if decide (v = key) then Some (true, σ')
          else if decide (v > key)
          then binary_search_recursive values key start
                 (start + (end_ - start) `quot` 2 - 1) σ'
          else binary_search_recursive values key
                 (start + (end_ - start) `quot` 2 + 1) end_ σ' } }.
Proof.
  all: assert (0 ≤ (end_ - start) `quot` 2 ≤ end_ - start)
    by (split; [apply Z.quot_pos | apply Z.quot_le_upper_bound]; lia); lia.
Qed.

Definition binary_search (values : positive) (size key : Z) : M bool :=
  binary_search_recursive values key 0 (size - 1).

(** ** [std::unordered_map] *)

(** The contents of a [std::unordered_map<int, V>] are a finite map.  The
    order in which a range-[for] visits its entries is left open by the C++
    standard (it follows the hash buckets); all the program can rely on is
    that every entry is visited once.  [iteration] is that order, a
    parameter of the embedding. *)
Class UnorderedIteration := {
  iteration : gmap Z Z → list (Z * Z);
  iteration_perm : ∀ m, iteration m ≡ₚ map_to_list m
}.

(** [m[k]++] on a [std::unordered_map<int, int>]: [operator[]] inserts a
    zero for an absent key. *)
Definition increment (k : Z) (m : gmap Z Z) : gmap Z Z :=
  <[k := default 0 (m !! k) + 1]> m.

Definition key_le (x y : Z * Z) : Prop := x.1 ≤ y.1.
Definition key_ge (x y : Z * Z) : Prop := y.1 ≤ x.1.

#[global] Instance key_le_dec x y : Decision (key_le x y) := Z_le_dec _ _.
#[global] Instance key_ge_dec x y : Decision (key_ge x y) := Z_le_dec _ _.

(** Two orders a hash table may produce: entries by ascending key, and
    entries by descending key.  A chained table that links every new node
    at the head of its list visits the keys of an ascending insertion
    sequence in descending order. *)
Definition ascending_order (m : gmap Z Z) : list (Z * Z) :=
  merge_sort key_le (map_to_list m).
Definition descending_order (m : gmap Z Z) : list (Z * Z) :=
  merge_sort key_ge (map_to_list m).

Definition ascending_iteration : UnorderedIteration :=
  {| iteration := ascending_order;
     iteration_perm := λ m, merge_sort_Permutation key_le (map_to_list m) |}.
Definition descending_iteration : UnorderedIteration :=
  {| iteration := descending_order;
     iteration_perm := λ m, merge_sort_Permutation key_ge (map_to_list m) |}.

(** ** Analyzers *)

(** What [analyze()] reports.  The C++ method formats these numbers into a
    [std::string]; the embedding keeps the numbers, and [report_text] below
    is the formatting. *)
Inductive Report :=
| NoData
| Measures (min max : Z) (mean median : double) (mode maxFrequency : Z)
| Duplicated (duplicateCount : Z)
| MissingValues (missingCount : Z)
| Found (foundCount : Z).

Definition newline : string := String (Ascii.ascii_of_nat 10) EmptyString.

(** The string built from a report.  An [int] is written in decimal;
    [show_double] is the stream's formatting of a [double], which belongs
    to the C++ library. *)
Definition report_text (show_double : double → string) (r : Report) : string :=
  match r with
  | NoData => "No data to analyze."
  | Measures min max mean median mode maxFrequency =>
      "The minimum value is " +:+ pretty min +:+ newline +:+
      "The maximum value is " +:+ pretty max +:+ newline +:+
      "The mean value is " +:+ show_double mean +:+ newline +:+
      "The median value is " +:+ show_double median +:+ newline +:+
      "The mode value is " +:+ pretty mode +:+ " which occurred "
        +:+ pretty maxFrequency +:+ " times"
  | Duplicated duplicateCount =>
      "There were " +:+ pretty duplicateCount +:+ " duplicated values"
  | MissingValues missingCount =>
      "There were " +:+ pretty missingCount +:+ " missing values"
  | Found foundCount =>
      "There were " +:+ pretty foundCount +:+ " random values found"
  end.

Module Analyzer.
(** The data members of the base class. *)
Record t := Build { values : positive; size : Z }.

Definition cloneValues (values : positive) (size : Z) : M t :=
  p ← new_int_array size;
  _ ← std_copy values size p;
  mret (Build p size).

Definition new (values : positive) (size : Z) : M t := cloneValues values size.
End Analyzer.

Module StatisticsAnalyzer.
Definition new (values : positive) (size : Z) : M Analyzer.t :=
  this ← Analyzer.new values size;
  _ ← selection_sort (Analyzer.values this) (Analyzer.size this);
  mret this.

Definition analyze `{!UnorderedIteration} (this : Analyzer.t) : M Report :=
  let values := Analyzer.values this in
  let size := Analyzer.size this in
  if decide (size = 0) then mret NoData else
  min ← load values 0;
  max ← load values (size - 1);
  '(sum, frequencyMap) ← for_range 0 size (λ i '(sum, frequencyMap),
      v ← load values i;
      mret (double_add sum (double_of_int v), increment v frequencyMap))
    (double_of_int 0, ∅);
  let mean := double_div sum (double_of_int size) in
  median ← (if decide (size `rem` 2 = 0)
            then a ← load values (size `quot` 2 - 1);
                 b ← load values (size `quot` 2);
                 mret (double_div (double_of_int (int_wrap (a + b))) (double_of_int 2))
            else c ← load values (size `quot` 2);
                 mret (double_of_int c));
  mode0 ← load values 0;
  let '(mode, maxFrequency) :=
    foldl (λ '(mode, maxFrequency) '(k, c),
             if decide (c > maxFrequency) then (k, c) else (mode, maxFrequency))
          (mode0, 1) (iteration frequencyMap) in
  mret (Measures min max mean median mode maxFrequency).
End StatisticsAnalyzer.

Module DuplicateAnalyzer.
Definition new (values : positive) (size : Z) : M Analyzer.t :=
  Analyzer.new values size.

Definition analyze `{!UnorderedIteration} (this : Analyzer.t) : M Report :=
  let values := Analyzer.values this in
  let size := Analyzer.size this in
  countMap ← for_range 0 size (λ i countMap,
      v ← load values i;
      mret (increment v countMap)) ∅;
  let duplicateCount :=
    foldl (λ duplicateCount '(_, c),
             if decide (c > 1) then duplicateCount + (c - 1) else duplicateCount)
          0 (iteration countMap) in
  mret (Duplicated duplicateCount).
End DuplicateAnalyzer.

Module MissingAnalyzer.
Definition new (values : positive) (size : Z) : M Analyzer.t :=
  Analyzer.new values size.

Definition analyze (this : Analyzer.t) : M Report :=
  let values := Analyzer.values this in
  let size := Analyzer.size this in
  valueMap ← for_range 0 size (λ i (valueMap : gmap Z bool),
      v ← load values i;
      mret (<[v := true]> valueMap)) ∅;
  missingCount ← for_range 0 1000 (λ i missingCount,
      mret (if decide (valueMap !! i = None) then missingCount + 1 else missingCount)) 0;
  mret (MissingValues missingCount).
End MissingAnalyzer.

Module SearchAnalyzer.
Definition new (values : positive) (size : Z) : M Analyzer.t :=
  this ← Analyzer.new values size;
  _ ← selection_sort (Analyzer.values this) (Analyzer.size this);
  mret this.

Definition analyze (this : Analyzer.t) : M Report :=
  let values := Analyzer.values this in
  let size := Analyzer.size this in
  foundCount ← for_range 0 100 (λ i foundCount,
      r ← rand;
      let searchValue := r `rem` 1000 in
      found ← binary_search values size searchValue;
      mret (if found : bool then foundCount + 1 else foundCount)) 0;
  mret (Found foundCount).
End SearchAnalyzer.

(** The four classes derived from [Analyzer], and the dispatch of the
    virtual [analyze()] on the dynamic type of the object. *)
Inductive variant := Statistics | Duplicate | Missing | Search.

Definition construct (v : variant) (values : positive) (size : Z) : M Analyzer.t :=
  match v with
  | Statistics => StatisticsAnalyzer.new values size
  | Duplicate => DuplicateAnalyzer.new values size
  | Missing => MissingAnalyzer.new values size
  | Search => SearchAnalyzer.new values size
  end.

Definition analyze `{!UnorderedIteration} (v : variant) (this : Analyzer.t) : M Report :=
  match v with
  | Statistics => StatisticsAnalyzer.analyze this
  | Duplicate => DuplicateAnalyzer.analyze this
  | Missing => MissingAnalyzer.analyze this
  | Search => SearchAnalyzer.analyze this
  end.

(** Constructing an analyzer over the caller's array and asking for its
    report, as [main] does for each of the four. *)
Definition run `{!UnorderedIteration} (v : variant) (values : positive) (size : Z) : M Report :=
  this ← construct v values size;
  analyze v this.


(** ** Vocabulary of the specification *)

(** [l] with the elements at positions [i] and [j] exchanged. *)
Definition swapped (l : list Z) (i j : nat) : list Z :=
  <[j := l !!! i]> (<[i := l !!! j]> l).

(** How many times [v] occurs in [l]. *)
Definition occurrences (v : Z) (l : list Z) : Z :=
  Z.of_nat (length (filter (λ x, x = v) l)).

(** The map that [m[values[i]]++] builds over an array. *)
Definition frequencies (l : list Z) : gmap Z Z :=
  foldl (λ m v, increment v m) ∅ l.

(** One step of the search for the mode over the entries of the frequency
    map: an entry replaces the candidate only with a strictly larger count. *)
Definition mode_step (acc e : Z * Z) : Z * Z :=
  if decide (e.2 > acc.2) then e else acc.

(** The sum as the loop accumulates it, in [double] arithmetic. *)
Definition double_sum (l : list Z) : double :=
  foldl (λ sum v, double_add sum (double_of_int v)) (double_of_int 0) l.

(** The 53-digit mantissa and the exponent of a non-zero integer below
    [2 ^ 53] in magnitude. *)
Definition int_mantissa (z : Z) : positive :=
  Z.to_pos (Z.abs z * 2 ^ (52 - Z.log2 (Z.abs z))).
Definition int_exponent (z : Z) : Z := Z.log2 (Z.abs z) - 52.

(** The median expression, on the sorted array. *)
Definition median_of (s : list Z) : double :=
  let size := Z.of_nat (length s) in
  if decide (size `rem` 2 = 0)
  then double_div
         (double_of_int (int_wrap (s !!! Z.to_nat (size `quot` 2 - 1)
                                   + s !!! Z.to_nat (size `quot` 2))))
         (double_of_int 2)
  else double_of_int (s !!! Z.to_nat (size `quot` 2)).

(** One step of the loop over the entries of the count map. *)
Definition duplicate_step (duplicateCount : Z) (e : Z * Z) : Z :=
  if decide (e.2 > 1) then duplicateCount + (e.2 - 1) else duplicateCount.

(** [k - 1] for a count [k > 1], nothing for the others. *)
Definition excess (k : Z) : Z := if decide (k > 1) then k - 1 else 0.

Definition sum_Z (l : list Z) : Z := foldr Z.add 0 l.

(** The measure of the duplicate report: over the distinct values that
    occur [k > 1] times, the sum of [k - 1]. *)
Definition excess_occurrences (l : list Z) : Z :=
  sum_Z ((λ v, occurrences v l - 1)
           <$> filter (λ v, occurrences v l > 1) (remove_dups l)).

(** The map that [valueMap[values[i]] = true] builds over an array. *)
Definition presence (l : list Z) : gmap Z bool :=
  foldl (λ m v, <[v := true]> m) ∅ l.

(** The domain values that do not occur in the data. *)
Definition missing_values (l : list Z) : list Z :=
  filter (λ i, i ∉ l) (seqZ 0 1000).

(** The keys of the hundred lookups: the next hundred numbers of the
    generator, each reduced by [% 1000]. *)
Definition search_keys (σ : world) : list Z :=
  (λ i, rand_seq σ (rand_calls σ + i)%nat `rem` 1000) <$> seq 0 100.

(** A one-array state for the worked examples: the caller's array at
    address 1, and a generator that counts up from zero. *)
Definition sample_world (l : list Z) : world :=
  World {[ 1%positive := l ]} (λ n, Z.of_nat n) 0.

(** ** Files, the console and the rest of the program *)

(** *** The bytes of an [int] *)

(** The program writes and reads [int]s through [reinterpret_cast<char*>]:
    the bytes in a file are the object representation of the [int].  The
    embedding takes [sizeof(int) = 4], the little-endian two's-complement
    layout of the usual targets and a [size_t] wide enough for four times
    any [int]; a byte is a [Z] between 0 and 255. *)
Definition int_bytes (z : Z) : list Z :=
  (λ k, Z.land (Z.shiftr z (8 * k)) 255) <$> [0; 1; 2; 3].

(** The [int] that four bytes of memory hold. *)
Definition bytes_int (bs : list Z) : Z :=
  int_wrap (foldr (λ b acc, b + 256 * acc) 0 bs).

Definition bytes_of_ints (l : list Z) : list Z := l ≫= int_bytes.

(** The [int]s held by a run of bytes; bytes after the last whole group of
    four are beyond the last element. *)
Fixpoint ints_of_bytes (bs : list Z) : list Z :=
  match bs with
  | b0 :: b1 :: b2 :: b3 :: rest => bytes_int [b0; b1; b2; b3] :: ints_of_bytes rest
  | _ => []
  end.

(** Reading [n] bytes of the memory of an array, from its start. *)
Definition load_bytes (p : positive) (n : Z) : M (list Z) := λ σ,
  blk ← heap σ !! p;
  if decide (0 ≤ n ≤ 4 * Z.of_nat (length blk))
  then Some (take (Z.to_nat n) (bytes_of_ints blk), σ)
  else None.

(** Writing bytes over the memory of an array, from its start: the bytes of
    the array that are not reached keep their value. *)
Definition store_bytes (p : positive) (bs : list Z) : M unit := λ σ,
  blk ← heap σ !! p;
  if decide (Z.of_nat (length bs) ≤ 4 * Z.of_nat (length blk))
  then Some ((), set_heap σ
         (<[p := ints_of_bytes (bs ++ drop (length bs) (bytes_of_ints blk))]> (heap σ)))
  else None.

(** [delete[] p]. *)
Definition delete_array (p : positive) : M unit := λ σ,
  _ ← heap σ !! p;
  Some ((), set_heap σ (delete p (heap σ))).

(** *** The machine: memory, file system and standard output *)

(** [files] holds the files as an input stream finds them, each with its
    bytes: a file that does not exist, or that cannot be opened for
    reading, has no entry.  [console] is what has been written to
    [std::cout]. *)
Record machine := Machine {
  mem : world;
  files : gmap string (list Z);
  console : string
}.

Definition IO (A : Type) : Type := machine → option (A * machine).

#[global] Instance IO_ret : MRet IO := λ A a m, Some (a, m).
#[global] Instance IO_bind : MBind IO := λ A B k c m,
  match c m with
  | Some (a, m') => k a m'
  | None => None
  end.

(** A computation on the memory, run within the machine. *)
Definition lift {A : Type} (c : M A) : IO A := λ m,
  match c (mem m) with
  | Some (a, σ) => Some (a, Machine σ (files m) (console m))
  | None => None
  end.

(** [std::cout << s]. *)
Definition print (s : string) : IO unit := λ m,
  Some ((), Machine (mem m) (files m) (console m +:+ s)).

(** Whether a file can be opened for writing ([can_write]), and whether
    what is written to it can afterwards be opened for reading
    ([can_read]), is decided by the file system (permissions, directories
    that do not exist), not by the program.  What is written to a file that
    cannot be read never enters [files].  A file that has been opened takes
    every byte written to it: the embedding has no full device. *)
Class FileSystem := {
  can_write : string → bool;
  can_read : string → bool
}.

(** An output stream: the file it was opened on, and whether the opening
    succeeded. *)
Record ofstream := Ofstream { target : string; is_open : bool }.

(** The file [name] gets the contents [bs], as far as a reader will see. *)
Definition set_file `{!FileSystem} (name : string) (bs : list Z) : IO unit := λ m,
  Some ((), if can_read name
            then Machine (mem m) (<[name := bs]> (files m)) (console m)
            else m).

(** The bytes that the file holds so far. *)
Definition file_contents (name : string) : IO (list Z) := λ m,
  Some (default [] (files m !! name), m).

(** [std::ofstream outFile(name, std::ios::binary)]: when the file can be
    opened it is created or emptied; when it cannot, the stream starts out
    failed and the file system is as it was.  The program does not test the
    stream. *)
Definition ofstream_open `{!FileSystem} (name : string) : IO ofstream :=
  if can_write name
  then _ ← set_file name []; mret (Ofstream name true)
  else mret (Ofstream name false).

(** [outFile.write(buffer, n)], where [buffer] reads the [n] bytes out of
    the memory; the bytes arrive at the end of the file.  A failed stream
    writes nothing and does not look at the buffer, and neither does a
    count that is not positive. *)
Definition ofstream_write `{!FileSystem} (s : ofstream) (n : Z) (buffer : M (list Z))
    : IO unit :=
  if is_open s && bool_decide (0 < n)
  then bs ← lift buffer;
       old ← file_contents (target s);
       set_file (target s) (old ++ bs)
  else mret ().

(** An input stream: the bytes not yet read, and whether the stream is in
    a good state.  A stream on a file that does not exist starts out
    failed. *)
Record ifstream := Ifstream { pending : list Z; good : bool }.

Definition ifstream_open (name : string) : IO ifstream := λ m,
  Some (match files m !! name with
        | Some bs => Ifstream bs true
        | None => Ifstream [] false
        end, m).

(** [inFile.read(buffer, n)]: the bytes stored into the buffer and the
    stream afterwards.  A failed stream stores nothing; a stream with fewer
    than [n] bytes left stores what is left and fails. *)
Definition ifstream_read (s : ifstream) (n : Z) : list Z * ifstream :=
  if good s
  then let bs := take (Z.to_nat n) (pending s) in
       (bs, Ifstream (drop (Z.to_nat n) (pending s))
                     (bool_decide (length bs = Z.to_nat n)))
  else ([], s).

(** What the platform supplies: the formatting of a [double] by the output
    stream, the clock, and the sequence of numbers [rand()] returns after
    [srand(seed)], each between 0 and [RAND_MAX]. *)
Class Platform := {
  show_double : double → string;
  time_now : Z;
  seeded : Z → nat → Z;
  seeded_nonneg : ∀ seed n, 0 ≤ seeded seed n
}.

(** [srand(seed)]. *)
Definition srand `{!Platform} (seed : Z) : M unit := λ σ,
  Some ((), World (heap σ) (seeded seed) 0).

Definition SIZE : Z := 1000.

(** *** Writing and generating the data file *)

(** The count of the second [write] is [length * sizeof(int)]; for a
    negative [length] it is negative and nothing but the four bytes of
    [length] is written. *)
Definition writeBinary `{!FileSystem} (values : positive) (length : Z) (name : string)
    : IO unit :=
  outFile ← ofstream_open name;
  _ ← ofstream_write outFile 4 (mret (int_bytes length));
  ofstream_write outFile (length * 4) (load_bytes values (length * 4)).

(** [std::vector<int> array(length)] is an array of [length] zeros, released
    when the function returns; the range-[for] visits its elements in
    order. *)
Definition createBinaryFile `{!FileSystem} (name : string) (length : Z) : IO unit :=
  array ← lift (new_int_array length);
  _ ← lift (for_range 0 length (λ i _,
        r ← rand;
        store array i (r `rem` 1000)) ());
  _ ← writeBinary array length name;
  lift (delete_array array).

(** *** The reader *)

Module BinaryReader.
Record t := Build { values : positive; size : Z }.

(** [size] is the value the constructor gave the member before the call,
    0.  The first [read] stores bytes over that member, the second over
    the new array. *)
Definition readValues (name : string) (size : Z) : IO t :=
  inFile ← ifstream_open name;
  let '(bs, inFile) := ifstream_read inFile 4 in
  let size := bytes_int (bs ++ drop (length bs) (int_bytes size)) in
  values ← lift (new_int_array size);
  let '(bs, inFile) := ifstream_read inFile (size * 4) in
  _ ← lift (store_bytes values bs);
  mret (Build values size).

Definition new (name : string) : IO t := readValues name 0.

Definition getValues (this : t) : positive := values this.
Definition getSize (this : t) : Z := size this.

Definition destructor (this : t) : IO unit := lift (delete_array (values this)).
End BinaryReader.

(** [~Analyzer()]. *)
Definition Analyzer_destructor (this : Analyzer.t) : IO unit :=
  lift (delete_array (Analyzer.values this)).

(** *** [main] *)

Definition main `{!UnorderedIteration} `{!Platform} `{!FileSystem} : IO Z :=
  _ ← print ("Binary Data Analyzer" +:+ newline +:+ newline);
  _ ← lift (srand (time_now `mod` 2 ^ 32));
  _ ← createBinaryFile "binary.dat" SIZE;
  br ← BinaryReader.new "binary.dat";
  sa ← lift (StatisticsAnalyzer.new (BinaryReader.getValues br) (BinaryReader.getSize br));
  r ← lift (StatisticsAnalyzer.analyze sa);
  _ ← print (report_text show_double r +:+ newline);
  da ← lift (DuplicateAnalyzer.new (BinaryReader.getValues br) (BinaryReader.getSize br));
  r ← lift (DuplicateAnalyzer.analyze da);
  _ ← print (report_text show_double r +:+ newline);
  ma ← lift (MissingAnalyzer.new (BinaryReader.getValues br) (BinaryReader.getSize br));
  r ← lift (MissingAnalyzer.analyze ma);
  _ ← print (report_text show_double r +:+ newline);
  ra ← lift (SearchAnalyzer.new (BinaryReader.getValues br) (BinaryReader.getSize br));
  r ← lift (SearchAnalyzer.analyze ra);
  _ ← print (report_text show_double r +:+ newline);
  _ ← Analyzer_destructor ra;
  _ ← Analyzer_destructor ma;
  _ ← Analyzer_destructor da;
  _ ← Analyzer_destructor sa;
  _ ← BinaryReader.destructor br;
  mret 0.

(** *** Vocabulary of the statements about files and [main] *)

(** A machine for the worked examples: the caller's array at address 1,
    the given files and an empty console. *)
Definition sample_machine (l : list Z) (fs : gmap string (list Z)) : machine :=
  Machine (sample_world l) fs "".

(** The next [n] numbers of the generator, each reduced by [% 1000]. *)
Definition random_values (σ : world) (n : nat) : list Z :=
  (λ i, rand_seq σ (rand_calls σ + i)%nat `rem` 1000) <$> seq 0 n.

(** The values that [main] writes to its file and the keys that it looks
    up afterwards: the first 1000 and the next 100 numbers of the generator
    after seeding, each reduced by [% 1000]. *)
Definition main_seed `{!Platform} : Z := time_now `mod` 2 ^ 32.
Definition main_data `{!Platform} : list Z :=
  (λ i, seeded main_seed i `rem` 1000) <$> seq 0 1000.
Definition main_keys `{!Platform} : list Z :=
  (λ i, seeded main_seed (1000 + i)%nat `rem` 1000) <$> seq 0 100.

(** The statistics report over the elements [l], from their sorted
    rearrangement. *)
Definition statistics_of `{!UnorderedIteration} (l : list Z) : Report :=
  if decide (l = []) then NoData else
  let s := merge_sort Z.le l in
  let best := foldl mode_step (s !!! 0%nat, 1) (iteration (frequencies s)) in
  Measures (s !!! 0%nat) (s !!! (length s - 1)%nat)
    (double_div (double_sum s) (double_of_int (Z.of_nat (length s))))
    (median_of s) best.1 best.2.

(** The four reports over the elements [data], with the search keys
    [keys]. *)
Definition reports_of `{!UnorderedIteration} (data keys : list Z) : list Report :=
  [ statistics_of data;
    Duplicated (excess_occurrences data);
    MissingValues (Z.of_nat (length (missing_values data)));
    Found (Z.of_nat (length (filter (λ k, k ∈ data) keys))) ].

(** The console after the banner and after each report with its newline,
    when the reader's array holds [data]. *)
Definition console_after `{!UnorderedIteration} `{!Platform} (before : string)
    (data : list Z) : string :=
  foldl (λ out r, out +:+ (report_text show_double r +:+ newline))
        (before +:+ ("Binary Data Analyzer" +:+ newline +:+ newline))
        (reports_of data main_keys).

Definition main_reports `{!UnorderedIteration} `{!Platform} : list Report :=
  reports_of main_data main_keys.

Definition main_console `{!UnorderedIteration} `{!Platform} (before : string) : string :=
  console_after before main_data.

(** File systems and a platform for the worked examples: every file can
    be read, and every file or none can be opened for writing; the clock
    stands at 0 and the generator counts up from zero whatever the seed. *)
Definition writable_fs : FileSystem :=
  {| can_write := λ _, true; can_read := λ _, true |}.
Definition read_only_fs : FileSystem :=
  {| can_write := λ _, false; can_read := λ _, true |}.
Definition sample_platform : Platform :=
  {| show_double := λ _, "?";
     time_now := 0;
     seeded := λ _ n, Z.of_nat n;
     seeded_nonneg := λ _ n, Nat2Z.is_nonneg n |}.

(** The contents of an analyzer's own array after construction over the
    elements [l]: sorted for the two classes whose constructor sorts. *)
Definition own_copy (v : variant) (l : list Z) : list Z :=
  match v with
  | Statistics | Search => merge_sort Z.le l
  | Duplicate | Missing => l
  end.

(** * Proofs *)

(** ** The monad and the memory operations *)

Lemma bind_Some {A B} (m : M A) (k : A → M B) σ a σ' :
  m σ = Some (a, σ') → (m ≫= k) σ = k a σ'.
Proof. intros Hm. unfold mbind, M_bind. by rewrite Hm. Qed.

Lemma ret_Some {A} (a : A) σ : (mret a : M A) σ = Some (a, σ).
Proof. reflexivity. Qed.

Lemma set_heap_id σ : set_heap σ (heap σ) = σ.
Proof. by destruct σ. Qed.

Lemma set_heap_set_heap σ h h' : set_heap (set_heap σ h) h' = set_heap σ h'.
Proof. reflexivity. Qed.

Lemma heap_set_heap σ h : heap (set_heap σ h) = h.
Proof. reflexivity. Qed.

Lemma load_Some σ p (l : list Z) i :
  heap σ !! p = Some l → 0 ≤ i < Z.of_nat (length l) →
  load p i σ = Some (l !!! Z.to_nat i, σ).
Proof.
  intros Hp Hi. unfold load. rewrite Hp. simpl.
  rewrite decide_True by lia.
  rewrite (list_lookup_lookup_total_lt l (Z.to_nat i)) by lia. reflexivity.
Qed.

Lemma store_Some σ p (l : list Z) i v :
  heap σ !! p = Some l → 0 ≤ i < Z.of_nat (length l) →
  store p i v σ = Some ((), set_heap σ (<[p := <[Z.to_nat i := v]> l]> (heap σ))).
Proof.
  intros Hp Hi. unfold store. rewrite Hp. simpl.
  by rewrite decide_True by lia.
Qed.

(** ** Counted loops: the invariant rule *)

Lemma for_loop_inv {St} (I : Z → St → world → Prop) (body : Z → St → M St) n lo s σ :
  I lo s σ →
  (∀ i s σ, lo ≤ i < lo + Z.of_nat n → I i s σ →
     ∃ s' σ', body i s σ = Some (s', σ') ∧ I (i + 1) s' σ') →
  ∃ s' σ', for_loop n lo body s σ = Some (s', σ') ∧ I (lo + Z.of_nat n) s' σ'.
Proof.
  revert lo s σ. induction n as [|n IH]; intros lo s σ H0 Hstep.
  - exists s, σ. split; [reflexivity|]. by replace (lo + Z.of_nat 0) with lo by lia.
  - destruct (Hstep lo s σ) as (s1 & σ1 & Hb & H1); [lia|done|].
    destruct (IH (lo + 1) s1 σ1) as (s2 & σ2 & Hl & H2); [done| |].
    { intros i s' σ' Hi. apply Hstep. lia. }
    exists s2, σ2. split.
    + simpl. by rewrite (bind_Some _ _ _ _ _ Hb).
    + by replace (lo + Z.of_nat (S n)) with (lo + 1 + Z.of_nat n) by lia.
Qed.

Lemma for_range_inv {St} (I : Z → St → world → Prop) (body : Z → St → M St) lo hi s σ :
  lo ≤ hi →
  I lo s σ →
  (∀ i s σ, lo ≤ i < hi → I i s σ →
     ∃ s' σ', body i s σ = Some (s', σ') ∧ I (i + 1) s' σ') →
  ∃ s' σ', for_range lo hi body s σ = Some (s', σ') ∧ I hi s' σ'.
Proof.
  intros Hle H0 Hstep. unfold for_range.
  destruct (for_loop_inv I body (Z.to_nat (hi - lo)) lo s σ H0) as (s' & σ' & Hl & HI).
  { intros i s1 σ1 Hi. apply Hstep. lia. }
  exists s', σ'. split; [done|]. by replace hi with (lo + Z.of_nat (Z.to_nat (hi - lo))) at 1 by lia.
Qed.

Lemma for_range_empty {St} (body : Z → St → M St) lo hi s σ :
  hi ≤ lo → for_range lo hi body s σ = Some (s, σ).
Proof.
  intros Hle. unfold for_range. by replace (Z.to_nat (hi - lo)) with O by lia.
Qed.

(** ** Sort primitive *)

Lemma swapped_length l i j : length (swapped l i j) = length l.
Proof. unfold swapped. by rewrite !length_insert. Qed.

Lemma swapped_lookup l i j k :
  (i < length l)%nat → (j < length l)%nat → (k < length l)%nat →
  swapped l i j !!! k =
    if decide (k = j) then l !!! i else if decide (k = i) then l !!! j else l !!! k.
Proof.
  intros Hi Hj Hk. unfold swapped.
  destruct (decide (k = j)) as [->|Hkj].
  - rewrite list_lookup_total_insert_eq; [done|]. by rewrite length_insert.
  - rewrite list_lookup_total_insert_ne by done.
    destruct (decide (k = i)) as [->|Hki].
    + by rewrite list_lookup_total_insert_eq.
    + by rewrite list_lookup_total_insert_ne.
Qed.

Lemma swapped_perm l i j :
  (i < length l)%nat → (j < length l)%nat → swapped l i j ≡ₚ l.
Proof.
  intros Hi Hj. apply Permutation_inj. split; [apply swapped_length|].
  exists (λ k, if decide (k = j) then i else if decide (k = i) then j else k).
  split.
  - intros a b Hab. repeat case_decide; lia.
  - intros k. destruct (decide (k < length l)%nat) as [Hk|Hk].
    + rewrite (list_lookup_lookup_total_lt (swapped l i j) k)
        by (by rewrite swapped_length).
      rewrite swapped_lookup by done.
      repeat case_decide; symmetry; by apply list_lookup_lookup_total_lt.
    + rewrite !decide_False by lia.
      rewrite !lookup_ge_None_2; [done|lia|rewrite swapped_length; lia].
Qed.

Lemma std_swap_Some σ p l i j :
  heap σ !! p = Some l →
  0 ≤ i < Z.of_nat (length l) → 0 ≤ j < Z.of_nat (length l) →
  std_swap p i j σ
  = Some ((), set_heap σ (<[p := swapped l (Z.to_nat i) (Z.to_nat j)]> (heap σ))).
Proof.
  intros Hp Hi Hj. unfold std_swap.
  rewrite (bind_Some _ _ _ _ _ (load_Some σ p l i Hp Hi)).
  rewrite (bind_Some _ _ _ _ _ (load_Some σ p l j Hp Hj)).
  rewrite (bind_Some _ _ _ _ _ (store_Some σ p l i _ Hp Hi)).
  erewrite store_Some; [|by rewrite heap_set_heap, lookup_insert_eq|by rewrite length_insert].
  by rewrite set_heap_set_heap, heap_set_heap, insert_insert_eq.
Qed.

(** Pairwise order on positions is [Sorted]. *)
Lemma Sorted_of_lookup (l : list Z) :
  (∀ a b, (a < b < length l)%nat → l !!! a ≤ l !!! b) → Sorted Z.le l.
Proof.
  induction l as [|x l IH]; intros H; [constructor|].
  constructor.
  - apply IH. intros a b Hab. apply (H (S a) (S b)). simpl. lia.
  - destruct l as [|y l]; constructor. apply (H 0%nat 1%nat). simpl. lia.
Qed.

(** The inner loop leaves the index of a least element of [values[i..size)]. *)
Lemma selection_sort_inner σ p l i :
  heap σ !! p = Some l → 0 ≤ i < Z.of_nat (length l) →
  ∃ m, for_range (i + 1) (Z.of_nat (length l)) (λ j minIndex,
         vj ← load p j;
         vm ← load p minIndex;
         mret (if decide (vj < vm) then j else minIndex)) i σ = Some (m, σ)
       ∧ i ≤ m < Z.of_nat (length l)
       ∧ ∀ k, i ≤ k < Z.of_nat (length l) → l !!! Z.to_nat m ≤ l !!! Z.to_nat k.
Proof.
  intros Hp Hi.
  edestruct (for_range_inv
    (λ j m σ', σ' = σ ∧ i ≤ m < j ∧ ∀ k, i ≤ k < j → l !!! Z.to_nat m ≤ l !!! Z.to_nat k))
    as (m & σ' & Hrun & -> & Hm & Hmin); [| |..].
  4:{ exists m. split; [exact Hrun|]. split; [lia|done]. }
  - lia.
  - split; [done|]. split; [lia|]. intros k Hk. by replace k with i by lia.
  - intros j m σ' Hj (-> & Hm & Hmin).
    rewrite (bind_Some _ _ _ _ _ (load_Some σ p l j Hp ltac:(lia))).
    rewrite (bind_Some _ _ _ _ _ (load_Some σ p l m Hp ltac:(lia))).
    eexists _, _. split; [reflexivity|]. split; [done|].
    case_decide as Hlt.
    + split; [lia|]. intros k Hk.
      destruct (decide (k = j)) as [->|]; [done|].
      specialize (Hmin k ltac:(lia)). lia.
    + split; [lia|]. intros k Hk.
      destruct (decide (k = j)) as [->|]; [lia|]. apply Hmin. lia.
Qed.

Lemma selection_sort_Some σ p l :
  heap σ !! p = Some l →
  ∃ l', selection_sort p (Z.of_nat (length l)) σ
        = Some ((), set_heap σ (<[p := l']> (heap σ)))
      ∧ l' ≡ₚ l ∧ Sorted Z.le l'.
Proof.
  intros Hp. set (n := Z.of_nat (length l)).
  destruct (decide (n - 1 ≤ 0)) as [Hsmall|Hbig].
  { exists l. unfold selection_sort. rewrite for_range_empty by done.
    rewrite insert_id, set_heap_id by done. split; [done|]. split; [done|].
    apply Sorted_of_lookup. intros a b Hab. lia. }
  unfold selection_sort.
  edestruct (for_range_inv
    (λ i (_ : unit) σ', ∃ l', σ' = set_heap σ (<[p := l']> (heap σ)) ∧ l' ≡ₚ l ∧
       ∀ a b, (a < b < length l)%nat → Z.of_nat a < i → l' !!! a ≤ l' !!! b))
    as ([] & σ' & Hrun & l' & -> & Hperm & Hsorted); [| |..].
  4:{ exists l'. split; [exact Hrun|]. split; [done|].
      apply Sorted_of_lookup. intros a b Hab. rewrite (Permutation_length Hperm) in Hab.
      apply Hsorted; lia. }
  - lia.
  - exists l. rewrite insert_id, set_heap_id by done. split; [done|]. split; [done|]. lia.
  - intros i [] σ' Hi (l' & -> & Hperm & Hsorted).
    assert (Hlen : length l' = length l) by by apply Permutation_length.
    assert (Hp' : heap (set_heap σ (<[p:=l']> (heap σ))) !! p = Some l')
      by by rewrite heap_set_heap, lookup_insert_eq.
    destruct (selection_sort_inner _ p l' i Hp') as (m & Hinner & Hm & Hmin); [lia|].
    rewrite Hlen in Hinner, Hm, Hmin. unfold n.
    rewrite (bind_Some _ _ _ _ _ Hinner).
    rewrite (std_swap_Some _ p l' i m Hp') by lia.
    eexists _, _. split; [reflexivity|].
    exists (swapped l' (Z.to_nat i) (Z.to_nat m)).
    rewrite set_heap_set_heap, heap_set_heap, insert_insert_eq. split; [done|].
    split; [rewrite swapped_perm; [done|lia..]|].
    assert (Hmin' : ∀ k, (Z.to_nat i ≤ k < length l)%nat →
              l' !!! Z.to_nat m ≤ l' !!! k).
    { intros k Hk. specialize (Hmin (Z.of_nat k) ltac:(lia)).
      by rewrite Nat2Z.id in Hmin. }
    assert (Hsorted' : ∀ a b, (a < b < length l)%nat → (a < Z.to_nat i)%nat →
              l' !!! a ≤ l' !!! b) by (intros; apply Hsorted; lia).
    intros a b Hab Ha.
    assert (Ha' : (a ≤ Z.to_nat i)%nat) by lia.
    assert (Hm' : (Z.to_nat i ≤ Z.to_nat m < length l)%nat) by lia.
    clear Hmin Hsorted Hinner Ha Hm.
    remember (Z.to_nat i) as i' eqn:Ei. remember (Z.to_nat m) as m' eqn:Em.
    clear Ei Em. rewrite !swapped_lookup by lia.
    repeat case_decide; subst; try lia;
      first [ apply Hsorted'; lia | apply Hmin'; lia
            | replace i' with m' by lia; apply Hmin'; lia ].
Qed.

(** ** Search primitive *)

(** The body of [binary_search_recursive] as one equation. *)
Lemma binary_search_recursive_body values key start end_ σ :
  binary_search_recursive values key start end_ σ =
  if decide (start > end_) then Some (false, σ)
  else match load values (start + (end_ - start) `quot` 2) σ with
       | None => None
       | Some (v, σ') =>
           if decide (v = key) then Some (true, σ')
           else if decide (v > key)
           then binary_search_recursive values key start
                  (start + (end_ - start) `quot` 2 - 1) σ'
           else binary_search_recursive values key
                  (start + (end_ - start) `quot` 2 + 1) end_ σ'
       end.
Proof.
  rewrite binary_search_recursive_equation_1.
  destruct (decide (start > end_)) as [Hgt|Hle].
  - by rewrite binary_search_recursive_clause_1_equation_1.
  - rewrite binary_search_recursive_clause_1_equation_2.
    destruct (load values (start + (end_ - start) `quot` 2) σ) as [[v σ']|].
    + by rewrite binary_search_recursive_clause_1_clause_2_equation_1.
    + by rewrite binary_search_recursive_clause_1_clause_2_equation_2.
Qed.

Lemma Sorted_lookup_le (l : list Z) a b :
  Sorted Z.le l → (a ≤ b < length l)%nat → l !!! a ≤ l !!! b.
Proof.
  intros Hs. apply (Sorted_StronglySorted _) in Hs.
  revert a b. induction Hs as [|x l Hs IH Hall]; intros a b Hab; simpl in *; [lia|].
  destruct a as [|a], b as [|b]; try lia.
  - rewrite list.Forall_forall in Hall. apply Hall.
    change ((x :: l) !!! S b) with (l !!! b).
    apply list_elem_of_lookup_total_2. lia.
  - apply IH. lia.
Qed.

Lemma quot2_bounds d : 0 ≤ d → 0 ≤ d `quot` 2 ≤ d.
Proof.
  intros Hd. split; [apply Z.quot_pos; lia|apply Z.quot_le_upper_bound; lia].
Qed.

(** On a range of an array that is sorted, the recursion finds the key
    exactly when it is at one of the positions [start..end_]. *)
Lemma binary_search_recursive_Some σ p (l : list Z) n key :
  heap σ !! p = Some l → (n ≤ length l)%nat →
  (∀ a b, (a ≤ b < n)%nat → l !!! a ≤ l !!! b) →
  ∀ start end_, 0 ≤ start → end_ < Z.of_nat n →
  ∃ b, binary_search_recursive p key start end_ σ = Some (b, σ)
     ∧ (b = true ↔ ∃ k, start ≤ Z.of_nat k ≤ end_ ∧ l !!! k = key).
Proof.
  intros Hp Hn Hsorted start end_.
  remember (Z.to_nat (end_ - start + 1)) as w eqn:Hw.
  revert start end_ Hw.
  induction (lt_wf w) as [w _ IH]. intros start end_ -> Hstart Hend.
  rewrite binary_search_recursive_body.
  destruct (decide (start > end_)) as [Hgt|Hle].
  { exists false. split; [done|]. split; [done|]. intros (k & Hk & _). lia. }
  pose proof (quot2_bounds (end_ - start) ltac:(lia)) as Hq.
  set (mid := start + (end_ - start) `quot` 2) in *.
  rewrite (load_Some σ p l mid Hp) by lia.
  destruct (decide (l !!! Z.to_nat mid = key)) as [Heq|Hne].
  { exists true. split; [done|]. split; [|done]. intros _.
    exists (Z.to_nat mid). split; [lia|done]. }
  destruct (decide (l !!! Z.to_nat mid > key)) as [Hgt|Hngt].
  - destruct (IH (Z.to_nat (mid - 1 - start + 1)) ltac:(lia) start (mid - 1) eq_refl)
      as (b & Hrun & Hb); [lia..|].
    exists b. split; [done|]. rewrite Hb. split.
    + intros (k & Hk & Hkey). exists k. split; [lia|done].
    + intros (k & Hk & Hkey). exists k. split; [|done].
      destruct (decide (Z.of_nat k ≤ mid - 1)); [lia|].
      specialize (Hsorted (Z.to_nat mid) k ltac:(lia)). lia.
  - destruct (IH (Z.to_nat (end_ - (mid + 1) + 1)) ltac:(lia) (mid + 1) end_ eq_refl)
      as (b & Hrun & Hb); [lia..|].
    exists b. split; [done|]. rewrite Hb. split.
    + intros (k & Hk & Hkey). exists k. split; [lia|done].
    + intros (k & Hk & Hkey). exists k. split; [|done].
      destruct (decide (mid + 1 ≤ Z.of_nat k)); [lia|].
      specialize (Hsorted k (Z.to_nat mid) ltac:(lia)). lia.
Qed.

Lemma binary_search_Some σ p (l : list Z) n key :
  heap σ !! p = Some l → 0 ≤ n ≤ Z.of_nat (length l) →
  Sorted Z.le (take (Z.to_nat n) l) →
  binary_search p n key σ = Some (bool_decide (key ∈ take (Z.to_nat n) l), σ).
Proof.
  intros Hp Hn Hs. unfold binary_search.
  destruct (binary_search_recursive_Some σ p l (Z.to_nat n) key Hp ltac:(lia))
    with (start := 0) (end_ := n - 1) as (b & Hrun & Hb); [|lia..|].
  { intros a b Hab. rewrite <- !(lookup_total_take_lt l (Z.to_nat n)) by lia.
    apply Sorted_lookup_le; [done|]. rewrite length_take. lia. }
  rewrite Hrun. do 2 f_equal.
  apply eq_true_iff_eq. rewrite Hb, bool_decide_eq_true, elem_of_take.
  split.
  - intros (k & Hk & Hkey). exists k. split; [|lia].
    rewrite <- Hkey. apply list_lookup_lookup_total_lt. lia.
  - intros (k & Hk & Hkn). exists k. split; [lia|].
    by apply list_lookup_total_correct.
Qed.

(** ** Reading an array from front to back *)

Lemma for_range_array_fold {St} (body : Z → St → M St) (f : St → Z → St) σ p (l : list Z) init :
  heap σ !! p = Some l →
  (∀ i st v σ', load p i σ' = Some (v, σ') → body i st σ' = Some (f st v, σ')) →
  for_range 0 (Z.of_nat (length l)) body init σ = Some (foldl f init l, σ).
Proof.
  intros Hp Hbody.
  edestruct (for_range_inv
    (λ i st σ', σ' = σ ∧ st = foldl f init (take (Z.to_nat i) l)) body 0
    (Z.of_nat (length l)) init σ) as (st & σ' & Hrun & -> & ->); [lia|done| |].
  - intros i st σ' Hi [-> ->].
    eexists _, _. split.
    + apply Hbody. by apply load_Some.
    + split; [done|].
      replace (Z.to_nat (i + 1)) with (S (Z.to_nat i)) by lia.
      erewrite take_S_r; [|apply list_lookup_lookup_total_lt; lia].
      by rewrite foldl_app.
  - rewrite Hrun. by rewrite Nat2Z.id, firstn_all.
Qed.

(** ** Constructors *)

Lemma Analyzer_new_Some σ src (l : list Z) :
  heap σ !! src = Some l →
  let p := fresh (dom (heap σ)) in
  Analyzer.new src (Z.of_nat (length l)) σ
  = Some (Analyzer.Build p (Z.of_nat (length l)), set_heap σ (<[p := l]> (heap σ)))
  ∧ heap σ !! p = None.
Proof.
  intros Hsrc p.
  assert (Hfresh : heap σ !! p = None).
  { apply not_elem_of_dom. apply is_fresh. }
  split; [|done].
  unfold Analyzer.new, Analyzer.cloneValues.
  assert (Hnew : new_int_array (Z.of_nat (length l)) σ
    = Some (p, set_heap σ (<[p := replicate (length l) 0]> (heap σ)))).
  { unfold new_int_array. rewrite decide_True by lia. by rewrite Nat2Z.id. }
  rewrite (bind_Some _ _ _ _ _ Hnew).
  assert (Hne : p ≠ src) by (intros ->; congruence).
  assert (Hcopy : std_copy src (Z.of_nat (length l)) p
            (set_heap σ (<[p := replicate (length l) 0]> (heap σ)))
    = Some ((), set_heap σ (<[p := l]> (heap σ)))).
  { unfold std_copy. case_decide as Hz.
    { destruct l; [done|simpl in Hz; lia]. }
    rewrite heap_set_heap, (lookup_insert_ne _ p src), Hsrc by done. simpl.
    rewrite lookup_insert_eq. simpl.
    rewrite decide_True by (rewrite length_replicate; lia).
    rewrite Nat2Z.id, firstn_all, drop_ge, app_nil_r by (by rewrite length_replicate).
    by rewrite set_heap_set_heap, insert_insert_eq. }
  by rewrite (bind_Some _ _ _ _ _ Hcopy).
Qed.

(** The two constructors that sort: the private array ends up holding a
    sorted rearrangement of the caller's. *)
Lemma sorting_new_Some σ src (l : list Z) :
  heap σ !! src = Some l →
  let p := fresh (dom (heap σ)) in
  ∃ s, StatisticsAnalyzer.new src (Z.of_nat (length l)) σ
       = Some (Analyzer.Build p (Z.of_nat (length l)), set_heap σ (<[p := s]> (heap σ)))
     ∧ SearchAnalyzer.new src (Z.of_nat (length l)) σ
       = Some (Analyzer.Build p (Z.of_nat (length l)), set_heap σ (<[p := s]> (heap σ)))
     ∧ heap σ !! p = None ∧ s ≡ₚ l ∧ Sorted Z.le s.
Proof.
  intros Hsrc p.
  destruct (Analyzer_new_Some σ src l Hsrc) as [Hnew Hfresh]. fold p in Hnew, Hfresh.
  destruct (selection_sort_Some (set_heap σ (<[p := l]> (heap σ))) p l)
    as (s & Hsort & Hperm & Hsorted).
  { by rewrite heap_set_heap, lookup_insert_eq. }
  rewrite set_heap_set_heap, heap_set_heap, insert_insert_eq in Hsort.
  exists s. unfold StatisticsAnalyzer.new, SearchAnalyzer.new.
  rewrite (bind_Some _ _ _ _ _ Hnew). simpl.
  by rewrite (bind_Some _ _ _ _ _ Hsort).
Qed.

(** ** Frequencies *)

Lemma occurrences_nil v : occurrences v [] = 0.
Proof. reflexivity. Qed.

Lemma occurrences_snoc v l x :
  occurrences v (l ++ [x]) = occurrences v l + (if decide (x = v) then 1 else 0).
Proof.
  unfold occurrences. rewrite list.filter_app, length_app.
  rewrite filter_cons, filter_nil. case_decide; simpl; lia.
Qed.

Lemma occurrences_cons v l x :
  occurrences v (x :: l) = (if decide (x = v) then 1 else 0) + occurrences v l.
Proof.
  unfold occurrences. rewrite filter_cons. case_decide; simpl; lia.
Qed.

Lemma occurrences_nonneg v l : 0 ≤ occurrences v l.
Proof. unfold occurrences. lia. Qed.

Lemma occurrences_pos v l : 0 < occurrences v l ↔ v ∈ l.
Proof.
  induction l as [|x l IH]; [rewrite occurrences_nil, elem_of_nil; lia|].
  rewrite occurrences_cons, elem_of_cons. pose proof (occurrences_nonneg v l).
  case_decide; subst; [intuition lia|].
  rewrite <- IH. intuition (try lia; congruence).
Qed.

Lemma occurrences_zero v l : v ∉ l → occurrences v l = 0.
Proof.
  intros Hv. pose proof (occurrences_pos v l). pose proof (occurrences_nonneg v l).
  destruct (decide (occurrences v l = 0)); [done|]. exfalso. apply Hv, H. lia.
Qed.

Lemma occurrences_perm v l k : l ≡ₚ k → occurrences v l = occurrences v k.
Proof. intros H. unfold occurrences. by rewrite H. Qed.

Lemma occurrences_NoDup l : NoDup l ↔ ∀ v, occurrences v l ≤ 1.
Proof.
  induction l as [|x l IH].
  - split; [intros _ v; rewrite occurrences_nil; lia|constructor].
  - rewrite list.NoDup_cons, IH. split.
    + intros [Hx Hl] v. rewrite occurrences_cons. case_decide; subst; [|apply Hl].
      rewrite occurrences_zero by done. lia.
    + intros H. split.
      * intros Hx. apply occurrences_pos in Hx. specialize (H x).
        rewrite occurrences_cons, decide_True in H by done. lia.
      * intros v. specialize (H v). rewrite occurrences_cons in H.
        case_decide; lia.
Qed.

Lemma frequencies_lookup l v :
  frequencies l !! v = if decide (v ∈ l) then Some (occurrences v l) else None.
Proof.
  induction l as [|x l IH] using rev_ind.
  - by rewrite decide_False by apply not_elem_of_nil.
  - unfold frequencies in *. rewrite foldl_app. simpl. unfold increment at 1.
    rewrite occurrences_snoc.
    destruct (decide (x = v)) as [->|Hne].
    + rewrite lookup_insert_eq, IH.
      rewrite (decide_True (P := v ∈ l ++ [v]))
        by (apply elem_of_app; right; apply list_elem_of_singleton; done).
      case_decide as Hin; simpl; [done|].
      by rewrite occurrences_zero.
    + rewrite lookup_insert_ne, IH, Z.add_0_r by done.
      destruct (decide (v ∈ l)) as [Hin|Hin].
      * rewrite decide_True; [done|]. apply elem_of_app. by left.
      * rewrite decide_False; [done|]. rewrite elem_of_app, list_elem_of_singleton.
        intros [?|?]; [done|congruence].
Qed.

(** ** The statistics report *)

Lemma foldl_pointwise {A B} (f g : A → B → A) a l :
  (∀ x y, f x y = g x y) → foldl f a l = foldl g a l.
Proof.
  intros Hfg. revert a. induction l as [|y l IH]; intros a; simpl; [done|].
  by rewrite Hfg, IH.
Qed.

Lemma mode_fold_spec es m0 f0 :
  ∀ m f, foldl mode_step (m0, f0) es = (m, f) →
  f0 ≤ f ∧ Forall (λ e, e.2 ≤ f) es ∧
  ((m, f) = (m0, f0) ∨
   (f0 < f ∧ ∃ pre post, es = pre ++ (m, f) :: post ∧ Forall (λ e, e.2 < f) pre)).
Proof.
  induction es as [|e es IH] using rev_ind; intros m f Hfold.
  - simpl in Hfold. inversion Hfold; subst. split; [lia|]. split; [constructor|by left].
  - rewrite foldl_app in Hfold. simpl in Hfold.
    destruct (foldl mode_step (m0, f0) es) as [m1 f1] eqn:Hes.
    destruct (IH m1 f1 eq_refl) as (Hle & Hall & Hcase).
    unfold mode_step in Hfold. simpl in Hfold.
    destruct (decide (e.2 > f1)) as [Hgt|Hngt].
    + subst e. simpl in *. split; [lia|]. split.
      * apply Forall_app. split; [|by repeat constructor].
        eapply list.Forall_impl; [exact Hall|]. simpl. intros; lia.
      * right. split; [lia|]. exists es, []. split; [done|].
        eapply list.Forall_impl; [exact Hall|]. simpl. intros; lia.
    + inversion Hfold; subst. split; [done|]. split.
      * apply Forall_app. split; [done|]. repeat constructor. lia.
      * destruct Hcase as [Heq|(Hlt & pre & post & -> & Hpre)]; [by left|].
        right. split; [done|]. exists pre, (post ++ [e]).
        by rewrite <- app_assoc.
Qed.

Lemma StatisticsAnalyzer_analyze_Some `{!UnorderedIteration} σ p (s : list Z) :
  heap σ !! p = Some s → s ≠ [] →
  ∀ mode maxFrequency,
  foldl mode_step (s !!! 0%nat, 1) (iteration (frequencies s)) = (mode, maxFrequency) →
  StatisticsAnalyzer.analyze (Analyzer.Build p (Z.of_nat (length s))) σ
  = Some (Measures (s !!! 0%nat) (s !!! (length s - 1)%nat)
            (double_div (double_sum s) (double_of_int (Z.of_nat (length s))))
            (median_of s) mode maxFrequency, σ).
Proof.
  intros Hp Hne mode maxFrequency Hmode.
  assert (Hlen : (0 < length s)%nat) by (destruct s; [done|simpl; lia]).
  pose proof (quot2_bounds (Z.of_nat (length s)) ltac:(lia)) as Hq.
  unfold StatisticsAnalyzer.analyze. cbn [Analyzer.values Analyzer.size].
  rewrite decide_False by lia.
  rewrite (bind_Some _ _ _ _ _ (load_Some σ p s 0 Hp ltac:(lia))).
  rewrite (bind_Some _ _ _ _ _ (load_Some σ p s (Z.of_nat (length s) - 1) Hp ltac:(lia))).
  erewrite bind_Some; cycle 1.
  { apply (for_range_array_fold _
      (λ st v, (double_add st.1 (double_of_int v), increment v st.2)) σ p s _ Hp).
    intros i [sum fm] v σ' Hload. by rewrite (bind_Some _ _ _ _ _ Hload). }
  assert (Hfold : ∀ d m, foldl (λ (st : double * gmap Z Z) v,
              (double_add st.1 (double_of_int v), increment v st.2)) (d, m) s
            = (foldl (λ sum v, double_add sum (double_of_int v)) d s,
               foldl (λ m v, increment v m) m s)).
  { clear. induction s as [|x s IH]; intros d m; simpl; [done|]. apply IH. }
  rewrite Hfold. fold (double_sum s) (frequencies s).
  erewrite bind_Some with (a := median_of s) (σ' := σ); cycle 1.
  { unfold median_of. cbv zeta. case_decide as Hpar.
    - assert (2 ≤ Z.of_nat (length s)).
      { destruct (decide (Z.of_nat (length s) = 1)) as [E|]; [|lia].
        rewrite E in Hpar. done. }
      assert (1 ≤ Z.of_nat (length s) `quot` 2) by (apply Z.quot_le_lower_bound; lia).
      assert (Z.of_nat (length s) `quot` 2 < Z.of_nat (length s)) by (apply Z.quot_lt; lia).
      rewrite (bind_Some _ _ _ _ _
        (load_Some σ p s (Z.of_nat (length s) `quot` 2 - 1) Hp ltac:(lia))).
      by rewrite (bind_Some _ _ _ _ _
        (load_Some σ p s (Z.of_nat (length s) `quot` 2) Hp ltac:(lia))).
    - assert (Z.of_nat (length s) `quot` 2 < Z.of_nat (length s)) by (apply Z.quot_lt; lia).
      by rewrite (bind_Some _ _ _ _ _
        (load_Some σ p s (Z.of_nat (length s) `quot` 2) Hp ltac:(lia))). }
  rewrite (bind_Some _ _ _ _ _ (load_Some σ p s 0 Hp ltac:(lia))).
  rewrite (foldl_pointwise _ mode_step)
    by (intros [m f] [k c]; unfold mode_step; simpl; by case_decide).
  change (Z.to_nat 0) with 0%nat. rewrite Hmode.
  by replace (Z.to_nat (Z.of_nat (length s) - 1)) with (length s - 1)%nat by lia.
Qed.

Lemma frequencies_perm l k : l ≡ₚ k → frequencies l = frequencies k.
Proof.
  intros Hperm. apply map_eq. intros v. rewrite !frequencies_lookup.
  rewrite (occurrences_perm v l k Hperm).
  destruct (decide (v ∈ l)) as [Hin|Hin].
  - rewrite decide_True; [done|]. by rewrite <- Hperm.
  - rewrite decide_False; [done|]. by rewrite <- Hperm.
Qed.

(** The entries the iteration visits are the values of the array, each with
    its number of occurrences. *)
Lemma elem_of_iteration `{!UnorderedIteration} l k c :
  (k, c) ∈ iteration (frequencies l) ↔ k ∈ l ∧ c = occurrences k l.
Proof.
  rewrite iteration_perm, elem_of_map_to_list, frequencies_lookup.
  case_decide; split; [intros [= <-]; done|intros [_ ->]; done|done|tauto].
Qed.

(** The sorted copy is the sorted rearrangement of the input. *)
Lemma Sorted_perm_merge_sort (s l : list Z) :
  s ≡ₚ l → Sorted Z.le s → s = merge_sort Z.le l.
Proof.
  intros Hperm Hs. apply (Sorted_unique Z.le); [done|apply Sorted_merge_sort, _|].
  by rewrite merge_sort_Permutation.
Qed.

Lemma Sorted_head_least (s : list Z) x :
  Sorted Z.le s → x ∈ s → s !!! 0%nat ≤ x.
Proof.
  intros Hs Hx. apply list_elem_of_lookup_total_1 in Hx as (i & Hi & <-).
  apply Sorted_lookup_le; [done|lia].
Qed.

Lemma Sorted_last_greatest (s : list Z) x :
  Sorted Z.le s → x ∈ s → x ≤ s !!! (length s - 1)%nat.
Proof.
  intros Hs Hx. apply list_elem_of_lookup_total_1 in Hx as (i & Hi & <-).
  apply Sorted_lookup_le; [done|lia].
Qed.

(** What the search for the mode returns. *)
Lemma mode_fold_frequencies `{!UnorderedIteration} (s : list Z) mode maxFrequency :
  s ≠ [] →
  foldl mode_step (s !!! 0%nat, 1) (iteration (frequencies s)) = (mode, maxFrequency) →
  mode ∈ s ∧ occurrences mode s = maxFrequency ∧
  (∀ v, occurrences v s ≤ maxFrequency) ∧
  (maxFrequency = 1 → mode = s !!! 0%nat) ∧
  (1 < maxFrequency →
     ∃ pre post, iteration (frequencies s) = pre ++ (mode, maxFrequency) :: post
               ∧ Forall (λ e, e.2 < maxFrequency) pre).
Proof.
  intros Hne Hfold.
  assert (Hhead : s !!! 0%nat ∈ s).
  { apply list_elem_of_lookup_total_2. destruct s; [done|simpl; lia]. }
  destruct (mode_fold_spec _ _ _ _ _ Hfold) as (Hle & Hall & Hcase).
  assert (Hmax : ∀ v, occurrences v s ≤ maxFrequency).
  { intros v. destruct (decide (v ∈ s)) as [Hv|Hv].
    - rewrite list.Forall_forall in Hall.
      apply (Hall (v, occurrences v s)). by apply elem_of_iteration.
    - rewrite occurrences_zero by done. lia. }
  destruct Hcase as [[= -> ->]|(Hlt & pre & post & Hes & Hpre)].
  - split; [done|]. split.
    + specialize (Hmax (s !!! 0%nat)). apply occurrences_pos in Hhead. lia.
    + split; [done|]. split; [done|lia].
  - assert (Hin : (mode, maxFrequency) ∈ iteration (frequencies s)).
    { rewrite Hes. apply elem_of_app. right. apply elem_of_cons. by left. }
    apply elem_of_iteration in Hin as [Hin ->].
    split; [done|]. split; [done|]. split; [done|]. split; [lia|].
    intros _. by exists pre, post.
Qed.

(** ** The duplicate report *)

Lemma sum_Z_perm l k : l ≡ₚ k → sum_Z l = sum_Z k.
Proof. unfold sum_Z. induction 1; simpl; lia. Qed.

Lemma duplicate_fold_sum es a :
  foldl duplicate_step a es = a + sum_Z ((λ e, excess e.2) <$> es).
Proof.
  revert a. induction es as [|e es IH]; intros a.
  - unfold sum_Z. simpl. lia.
  - rewrite fmap_cons. cbn [foldl]. rewrite IH.
    change (sum_Z (excess e.2 :: ?l)) with (excess e.2 + sum_Z l).
    unfold duplicate_step, excess. case_decide; lia.
Qed.

Lemma sum_excess_filter (f : Z → Z) (vs : list Z) :
  sum_Z ((λ v, excess (f v)) <$> vs)
  = sum_Z ((λ v, f v - 1) <$> filter (λ v, f v > 1) vs).
Proof.
  induction vs as [|v vs IH]; [done|].
  rewrite filter_cons, fmap_cons.
  change (sum_Z (?x :: ?l)) with (x + sum_Z l). rewrite IH. unfold excess.
  case_decide; [|done]. rewrite fmap_cons.
  by change (sum_Z (?x :: ?l)) with (x + sum_Z l).
Qed.

Lemma iteration_frequencies_perm `{!UnorderedIteration} l :
  iteration (frequencies l) ≡ₚ (λ v, (v, occurrences v l)) <$> remove_dups l.
Proof.
  apply NoDup_Permutation.
  - rewrite iteration_perm. apply NoDup_map_to_list.
  - apply NoDup_fmap_2_strong; [|apply NoDup_remove_dups].
    by intros v1 v2 _ _ [= ->].
  - intros [k c]. rewrite elem_of_iteration, list_elem_of_fmap. split.
    + intros [Hk ->]. exists k. split; [done|]. by apply elem_of_remove_dups.
    + intros (v & Heq & Hv). inversion Heq; subst. split; [|done].
      by apply elem_of_remove_dups.
Qed.

Lemma DuplicateAnalyzer_analyze_Some `{!UnorderedIteration} σ p (s : list Z) :
  heap σ !! p = Some s →
  DuplicateAnalyzer.analyze (Analyzer.Build p (Z.of_nat (length s))) σ
  = Some (Duplicated (excess_occurrences s), σ).
Proof.
  intros Hp. unfold DuplicateAnalyzer.analyze. cbn [Analyzer.values Analyzer.size].
  erewrite bind_Some; cycle 1.
  { apply (for_range_array_fold _ (λ m v, increment v m) σ p s _ Hp).
    intros i m v σ' Hload. by rewrite (bind_Some _ _ _ _ _ Hload). }
  fold (frequencies s).
  rewrite (foldl_pointwise _ duplicate_step)
    by (intros a [k c]; unfold duplicate_step; simpl; by case_decide).
  rewrite duplicate_fold_sum, Z.add_0_l.
  rewrite (sum_Z_perm _ _ (fmap_Permutation _ _ _ (iteration_frequencies_perm s))).
  rewrite <- list_fmap_compose. unfold compose. simpl.
  by rewrite (sum_excess_filter (λ v, occurrences v s)).
Qed.

(** ** The missing-values report *)

Lemma presence_lookup l v : presence l !! v = None ↔ v ∉ l.
Proof.
  induction l as [|x l IH] using rev_ind.
  - split; [intros _; apply not_elem_of_nil|done].
  - unfold presence in *. rewrite foldl_app. simpl.
    rewrite elem_of_app, list_elem_of_singleton.
    destruct (decide (x = v)) as [->|Hne].
    + rewrite lookup_insert_eq. split; [done|]. intros H. exfalso. apply H. by right.
    + rewrite lookup_insert_ne, IH by done. split; [|tauto].
      intros H [?|?]; [done|congruence].
Qed.

(** A loop whose body only computes on its locals. *)
Lemma for_range_pure {St} (g : Z → St → St) lo hi init σ :
  for_range lo hi (λ i st, mret (g i st)) init σ
  = Some (foldl (λ st i, g i st) init (seqZ lo (hi - lo)), σ).
Proof.
  unfold for_range.
  assert (Hloop : ∀ n lo init, for_loop n lo (λ i st, mret (g i st)) init σ
    = Some (foldl (λ st i, g i st) init (seqZ lo (Z.of_nat n)), σ)).
  { clear. induction n as [|n IH]; intros lo init; [done|].
    cbn [for_loop]. rewrite (bind_Some _ _ _ _ _ (ret_Some _ _)), IH.
    rewrite (seqZ_cons lo (Z.of_nat (S n))) by lia.
    by replace (Z.pred (Z.of_nat (S n))) with (Z.of_nat n) by lia. }
  rewrite Hloop. destruct (decide (0 ≤ hi - lo)).
  - by rewrite Z2Nat.id.
  - replace (Z.to_nat (hi - lo)) with 0%nat by lia.
    by rewrite (seqZ_nil lo (hi - lo)) by lia.
Qed.

Lemma count_fold (P : Z → Prop) `{!∀ x, Decision (P x)} (l : list Z) a :
  foldl (λ n i, if decide (P i) then n + 1 else n) a l
  = a + Z.of_nat (length (filter P l)).
Proof.
  revert a. induction l as [|x l IH]; intros a; simpl; [lia|].
  rewrite IH, filter_cons. case_decide; simpl; lia.
Qed.

Lemma MissingAnalyzer_analyze_Some σ p (s : list Z) :
  heap σ !! p = Some s →
  MissingAnalyzer.analyze (Analyzer.Build p (Z.of_nat (length s))) σ
  = Some (MissingValues (Z.of_nat (length (missing_values s))), σ).
Proof.
  intros Hp. unfold MissingAnalyzer.analyze. cbn [Analyzer.values Analyzer.size].
  erewrite bind_Some; cycle 1.
  { apply (for_range_array_fold _ (λ (m : gmap Z bool) v, <[v := true]> m) σ p s _ Hp).
    intros i m v σ' Hload. by rewrite (bind_Some _ _ _ _ _ Hload). }
  fold (presence s).
  rewrite (bind_Some _ _ _ _ _ (for_range_pure _ 0 1000 0 σ)).
  rewrite (count_fold (λ i, presence s !! i = None)), Z.add_0_l.
  unfold missing_values.
  by rewrite (list_filter_iff (λ i, presence s !! i = None) (λ i, i ∉ s))
    by (intros i; apply presence_lookup).
Qed.

(** ** The search report *)

Lemma SearchAnalyzer_analyze_Some σ p (s : list Z) :
  heap σ !! p = Some s → Sorted Z.le s →
  SearchAnalyzer.analyze (Analyzer.Build p (Z.of_nat (length s))) σ
  = Some (Found (Z.of_nat (length (filter (λ k, k ∈ s) (search_keys σ)))),
          World (heap σ) (rand_seq σ) (rand_calls σ + 100)).
Proof.
  intros Hp Hs. unfold SearchAnalyzer.analyze. cbn [Analyzer.values Analyzer.size].
  set (keys n := (λ i, rand_seq σ (rand_calls σ + i)%nat `rem` 1000) <$> seq 0 n).
  edestruct (for_range_inv
    (λ i foundCount σ',
       σ' = World (heap σ) (rand_seq σ) (rand_calls σ + Z.to_nat i) ∧
       foundCount = Z.of_nat (length (filter (λ k, k ∈ s) (keys (Z.to_nat i))))))
    as (fc & σ' & Hrun & -> & ->); [| |..].
  4:{ rewrite (bind_Some _ _ _ _ _ Hrun). reflexivity. }
  - lia.
  - split; [|done]. destruct σ. simpl. f_equal. lia.
  - intros i fc σ' Hi [-> ->].
    unfold rand at 1. unfold mbind at 1, M_bind at 1. cbn [rand_seq rand_calls heap].
    erewrite bind_Some; cycle 1.
    { apply (binary_search_Some _ p s); [done|lia|].
      by rewrite Nat2Z.id, firstn_all. }
    eexists _, _. split; [reflexivity|]. split.
    + f_equal. lia.
    + rewrite Nat2Z.id, firstn_all.
      replace (Z.to_nat (i + 1)) with (S (Z.to_nat i)) by lia.
      unfold keys. rewrite seq_S, fmap_app, list.filter_app, length_app.
      simpl. rewrite filter_cons, filter_nil.
      case_bool_decide; [rewrite decide_True by done|rewrite decide_False by done];
        simpl; lia.
Qed.

(** ** Whole runs: construction followed by [analyze()] *)

Lemma run_Statistics `{!UnorderedIteration} σ src (l : list Z) :
  heap σ !! src = Some l → l ≠ [] →
  let s := merge_sort Z.le l in
  let p := fresh (dom (heap σ)) in
  ∀ mode maxFrequency,
  foldl mode_step (s !!! 0%nat, 1) (iteration (frequencies l)) = (mode, maxFrequency) →
  run Statistics src (Z.of_nat (length l)) σ
  = Some (Measures (s !!! 0%nat) (s !!! (length l - 1)%nat)
            (double_div (double_sum s) (double_of_int (Z.of_nat (length l))))
            (median_of s) mode maxFrequency,
          set_heap σ (<[p := s]> (heap σ))).
Proof.
  intros Hsrc Hne s p mode maxFrequency Hmode.
  destruct (sorting_new_Some σ src l Hsrc) as (s' & Hnew & _ & Hfresh & Hperm & Hsorted).
  pose proof (Sorted_perm_merge_sort s' l Hperm Hsorted) as ->.
  fold s p in Hnew, Hperm, Hfresh.
  assert (Hlen : length s = length l) by by apply Permutation_length.
  unfold run. cbn [construct analyze]. rewrite (bind_Some _ _ _ _ _ Hnew).
  rewrite <- Hlen. apply StatisticsAnalyzer_analyze_Some.
  - by rewrite heap_set_heap, lookup_insert_eq.
  - intros E. apply Hne. apply Permutation_nil_r. by rewrite <- E.
  - by rewrite (frequencies_perm s l Hperm).
Qed.

Lemma run_Duplicate `{!UnorderedIteration} σ src (l : list Z) :
  heap σ !! src = Some l →
  run Duplicate src (Z.of_nat (length l)) σ
  = Some (Duplicated (excess_occurrences l),
          set_heap σ (<[fresh (dom (heap σ)) := l]> (heap σ))).
Proof.
  intros Hsrc. destruct (Analyzer_new_Some σ src l Hsrc) as [Hnew _].
  unfold run. cbn [construct analyze]. unfold DuplicateAnalyzer.new.
  rewrite (bind_Some _ _ _ _ _ Hnew).
  apply DuplicateAnalyzer_analyze_Some. by rewrite heap_set_heap, lookup_insert_eq.
Qed.

Lemma run_Missing `{!UnorderedIteration} σ src (l : list Z) :
  heap σ !! src = Some l →
  run Missing src (Z.of_nat (length l)) σ
  = Some (MissingValues (Z.of_nat (length (missing_values l))),
          set_heap σ (<[fresh (dom (heap σ)) := l]> (heap σ))).
Proof.
  intros Hsrc. destruct (Analyzer_new_Some σ src l Hsrc) as [Hnew _].
  unfold run. cbn [construct analyze]. unfold MissingAnalyzer.new.
  rewrite (bind_Some _ _ _ _ _ Hnew).
  apply MissingAnalyzer_analyze_Some. by rewrite heap_set_heap, lookup_insert_eq.
Qed.

Lemma run_Search `{!UnorderedIteration} σ src (l : list Z) :
  heap σ !! src = Some l →
  run Search src (Z.of_nat (length l)) σ
  = Some (Found (Z.of_nat (length (filter (λ k, k ∈ l) (search_keys σ)))),
          World (<[fresh (dom (heap σ)) := merge_sort Z.le l]> (heap σ))
                (rand_seq σ) (rand_calls σ + 100)).
Proof.
  intros Hsrc.
  destruct (sorting_new_Some σ src l Hsrc) as (s & _ & Hnew & Hfresh & Hperm & Hsorted).
  pose proof (Sorted_perm_merge_sort s l Hperm Hsorted) as ->.
  unfold run. cbn [construct analyze]. rewrite (bind_Some _ _ _ _ _ Hnew).
  rewrite <- (Permutation_length Hperm).
  rewrite (SearchAnalyzer_analyze_Some _ _ (merge_sort Z.le l));
    [|by rewrite heap_set_heap, lookup_insert_eq|done].
  rewrite (list_filter_iff (λ k, k ∈ merge_sort Z.le l) (λ k, k ∈ l))
    by (intros k; by rewrite Hperm).
  reflexivity.
Qed.

(** ** Exact [double] arithmetic on integers *)

Lemma digits2_log2 m : Z.pos (digits2_pos m) = Z.log2 (Z.pos m) + 1.
Proof.
  assert (Hsize : ∀ p, digits2_pos p = Pos.size p) by (induction p; simpl; congruence).
  rewrite Hsize. destruct m; simpl; lia.
Qed.

Lemma digits2_bounds m : 2 ^ (Z.pos (digits2_pos m) - 1) ≤ Z.pos m < 2 ^ Z.pos (digits2_pos m).
Proof.
  rewrite digits2_log2. replace (Z.log2 (Z.pos m) + 1 - 1) with (Z.log2 (Z.pos m)) by lia.
  apply Z.log2_spec. lia.
Qed.

Lemma digits2_unique m d : 2 ^ (d - 1) ≤ Z.pos m < 2 ^ d → Z.pos (digits2_pos m) = d.
Proof.
  intros H. rewrite digits2_log2.
  assert (0 ≤ d - 1).
  { destruct (decide (0 ≤ d - 1)); [done|].
    destruct (decide (d = 0)) as [->|]; [simpl in H; lia|].
    rewrite (Z.pow_neg_r 2 d) in H by lia. lia. }
  rewrite (Z.log2_unique (Z.pos m) (d - 1)); [lia|lia|].
  by replace (Z.succ (d - 1)) with d by lia.
Qed.

Lemma iter_xO_pow m k : Z.pos (Pos.iter xO m k) = Z.pos m * 2 ^ Z.pos k.
Proof.
  apply (Pos.iter_ind _ xO m (λ p a, Z.pos a = Z.pos m * 2 ^ Z.pos p)).
  - lia.
  - intros p a Ha. rewrite Pos2Z.inj_succ, Z.pow_succ_r by lia. lia.
Qed.

Lemma shr_1_iter_xO k q :
  SpecFloat.iter_pos shr_1 k (Build_shr_record (Z.pos (Pos.iter xO q k)) false false)
  = Build_shr_record (Z.pos q) false false.
Proof.
  revert q. induction k as [k IH|k IH|]; intros q; simpl.
  - by rewrite !IH.
  - by rewrite !IH.
  - done.
Qed.

Lemma shr_fexp_canonical m e :
  Z.pos (digits2_pos m) = 53 → -1074 ≤ e →
  shr_fexp 53 1024 (Z.pos m) e loc_Exact
  = (Build_shr_record (Z.pos m) false false, e).
Proof.
  intros Hd He. unfold shr_fexp, fexp, emin, Zdigits2. rewrite Hd.
  replace (Z.max (53 + e - 53) (3 - 1024 - 53) - e) with 0 by lia. reflexivity.
Qed.

(** A mantissa of 53 digits with an exponent in range is left alone. *)
Lemma binary_round_aux_canonical s m e :
  Z.pos (digits2_pos m) = 53 → -1074 ≤ e ≤ 971 →
  binary_round_aux 53 1024 s (Z.pos m) e loc_Exact = S754_finite s m e.
Proof.
  intros Hd He. unfold binary_round_aux.
  rewrite shr_fexp_canonical by (done || lia). simpl.
  rewrite shr_fexp_canonical by (done || lia). simpl.
  destruct (Z.leb_spec e (1024 - 53)); [done|lia].
Qed.

(** Rounding a mantissa and exponent that denote a number with a 53-digit
    representation gives that representation. *)
Lemma binary_round_exact s m e mc ec :
  Z.pos (digits2_pos mc) = 53 → -1074 ≤ ec ≤ 971 →
  (e ≤ ec ∧ Z.pos m = Z.pos mc * 2 ^ (ec - e)) ∨
  (ec ≤ e ∧ Z.pos mc = Z.pos m * 2 ^ (e - ec)) →
  binary_round 53 1024 s m e = S754_finite s mc ec.
Proof.
  intros Hd Hec Hrel. pose proof (digits2_bounds mc) as Hmc. rewrite Hd in Hmc.
  assert (Hdm : Z.pos (digits2_pos m) = 53 + (ec - e)).
  { apply digits2_unique. destruct Hrel as [[Hle ->]|[Hle Heq]].
    - replace (53 + (ec - e) - 1) with (52 + (ec - e)) by lia.
      rewrite !Z.pow_add_r by lia. nia.
    - set (j := e - ec) in *. assert (0 ≤ j) by lia.
      assert (0 < 2 ^ j) by (apply Z.pow_pos_nonneg; lia).
      assert (j ≤ 52).
      { destruct (decide (j ≤ 52)); [done|].
        assert (2 ^ 53 ≤ 2 ^ j) by (apply Z.pow_le_mono_r; lia). nia. }
      replace (53 + (ec - e) - 1) with (52 - j) by lia.
      replace (53 + (ec - e)) with (53 - j) by lia.
      assert (E52 : 2 ^ 52 = 2 ^ (52 - j) * 2 ^ j)
        by (rewrite <- Z.pow_add_r by lia; f_equal; lia).
      assert (E53 : 2 ^ 53 = 2 ^ (53 - j) * 2 ^ j)
        by (rewrite <- Z.pow_add_r by lia; f_equal; lia).
      change (2 ^ (53 - 1)) with (2 ^ 52) in Hmc.
      rewrite Heq, E52, E53 in Hmc. split; [nia|]. nia. }
  unfold binary_round.
  assert (Hfexp : fexp 53 1024 (Z.pos (digits2_pos m) + e) = ec).
  { unfold fexp, emin. rewrite Hdm. lia. }
  rewrite Hfexp. unfold shl_align.
  destruct (ec - e) as [|k|k] eqn:Hk.
  - assert (e = ec) as -> by lia.
    assert (mc = m) as -> by (rewrite !Z.sub_diag in Hrel; simpl in Hrel; lia).
    by apply binary_round_aux_canonical.
  - destruct Hrel as [[_ Hrel]|[? _]]; [|lia].
    replace (ec - e) with (Z.pos k) in Hrel by lia.
    unfold binary_round_aux.
    assert (Hshr : shr_fexp 53 1024 (Z.pos m) e loc_Exact
                   = (Build_shr_record (Z.pos mc) false false, ec)).
    { unfold shr_fexp. unfold Zdigits2. rewrite Hfexp, Hk. unfold shr. simpl shr_record_of_loc.
      replace (e + Z.pos k) with ec by lia. f_equal.
      assert (m = Pos.iter xO mc k) as -> by (pose proof (iter_xO_pow mc k); lia).
      apply shr_1_iter_xO. }
    rewrite Hshr. simpl. rewrite shr_fexp_canonical by (done || lia). simpl.
    destruct (Z.leb_spec ec (1024 - 53)); [done|lia].
  - destruct Hrel as [[? _]|[_ Hrel]]; [lia|].
    replace (e - ec) with (Z.pos k) in Hrel by lia.
    assert (Pos.iter xO m k = mc) as -> by (pose proof (iter_xO_pow m k); lia).
    by apply binary_round_aux_canonical.
Qed.

Lemma int_mantissa_exponent z :
  z ≠ 0 → Z.abs z < 2 ^ 53 →
  Z.pos (int_mantissa z) = Z.abs z * 2 ^ (- int_exponent z)
  ∧ Z.pos (digits2_pos (int_mantissa z)) = 53
  ∧ -52 ≤ int_exponent z ≤ 0.
Proof.
  intros Hz Hlt. unfold int_mantissa, int_exponent.
  assert (Hpos : 0 < Z.abs z) by lia.
  pose proof (Z.log2_spec _ Hpos) as Hlog. pose proof (Z.log2_nonneg (Z.abs z)).
  assert (Z.log2 (Z.abs z) < 53) by (apply Z.log2_lt_pow2; lia).
  set (g := Z.log2 (Z.abs z)) in *.
  assert (0 < 2 ^ (52 - g)) by (apply Z.pow_pos_nonneg; lia).
  replace (- (g - 52)) with (52 - g) by lia.
  assert (Hm : Z.pos (Z.to_pos (Z.abs z * 2 ^ (52 - g))) = Z.abs z * 2 ^ (52 - g))
    by (apply Z2Pos.id; nia).
  split; [done|]. split; [|lia].
  apply digits2_unique. rewrite Hm.
  assert (E52 : 2 ^ (53 - 1) = 2 ^ g * 2 ^ (52 - g))
    by (rewrite <- Z.pow_add_r by lia; f_equal; lia).
  assert (E53 : 2 ^ 53 = 2 ^ Z.succ g * 2 ^ (52 - g))
    by (rewrite <- Z.pow_add_r by lia; f_equal; lia).
  rewrite E52, E53. nia.
Qed.

(** Normalising [m * 2 ^ e] when that number is an integer [z] below
    [2 ^ 53] in magnitude gives the [double] of [z]. *)
Lemma binary_normalize_int m e z :
  z ≠ 0 → Z.abs z < 2 ^ 53 → -52 ≤ e ≤ 0 → m = z * 2 ^ (- e) →
  binary_normalize 53 1024 m e false
  = S754_finite (z <? 0) (int_mantissa z) (int_exponent z).
Proof.
  intros Hz Hlt He ->.
  destruct (int_mantissa_exponent z Hz Hlt) as (Hm & Hd & Hec).
  assert (0 < 2 ^ (- e)) by (apply Z.pow_pos_nonneg; lia).
  assert (Hrel : ∀ p, Z.pos p = Z.abs z * 2 ^ (- e) →
    (e ≤ int_exponent z ∧ Z.pos p = Z.pos (int_mantissa z) * 2 ^ (int_exponent z - e)) ∨
    (int_exponent z ≤ e ∧ Z.pos (int_mantissa z) = Z.pos p * 2 ^ (e - int_exponent z))).
  { intros p Hp. rewrite Hm, Hp. destruct (decide (e ≤ int_exponent z)); [left|right].
    - split; [done|]. rewrite <- Z.mul_assoc, <- Z.pow_add_r by lia. do 2 f_equal. lia.
    - split; [lia|]. rewrite <- Z.mul_assoc, <- Z.pow_add_r by lia. do 2 f_equal. lia. }
  unfold binary_normalize.
  destruct (z * 2 ^ (- e)) as [|p|p] eqn:Hzp; [nia|..].
  - replace (z <? 0) with false by (symmetry; apply Z.ltb_ge; nia).
    apply binary_round_exact; [done|lia|]. apply Hrel. nia.
  - replace (z <? 0) with true by (symmetry; apply Z.ltb_lt; nia).
    apply binary_round_exact; [done|lia|]. apply Hrel. nia.
Qed.

Lemma double_of_int_finite z :
  z ≠ 0 → Z.abs z < 2 ^ 53 →
  double_of_int z = S754_finite (z <? 0) (int_mantissa z) (int_exponent z).
Proof.
  intros Hz Hlt. unfold double_of_int.
  apply binary_normalize_int; [done|done|lia|]. simpl. lia.
Qed.

Lemma shl_align_fst m e e' :
  e' ≤ e → Z.pos (fst (shl_align m e e')) = Z.pos m * 2 ^ (e - e').
Proof.
  intros Hle. unfold shl_align. destruct (e' - e) as [|k|k] eqn:Hk; simpl.
  - replace (e - e') with 0 by lia. simpl. lia.
  - lia.
  - rewrite iter_xO_pow. do 2 f_equal. lia.
Qed.

(** Adding two integers in [double] is exact as long as the operands and
    the sum stay below [2 ^ 53] in magnitude. *)
Lemma double_add_exact a b :
  Z.abs a < 2 ^ 53 → Z.abs b < 2 ^ 53 → Z.abs (a + b) < 2 ^ 53 →
  double_add (double_of_int a) (double_of_int b) = double_of_int (a + b).
Proof.
  intros Ha Hb Hab. unfold double_add.
  destruct (decide (a = 0)) as [->|Hane].
  { change (double_of_int 0) with (S754_zero false). rewrite Z.add_0_l.
    destruct (decide (b = 0)) as [->|Hbne]; [done|].
    by rewrite double_of_int_finite. }
  destruct (decide (b = 0)) as [->|Hbne].
  { change (double_of_int 0) with (S754_zero false). rewrite Z.add_0_r.
    by rewrite double_of_int_finite. }
  rewrite (double_of_int_finite a), (double_of_int_finite b) by done.
  destruct (int_mantissa_exponent a Hane Ha) as (Hma & _ & Hea).
  destruct (int_mantissa_exponent b Hbne Hb) as (Hmb & _ & Heb).
  unfold SFadd. set (ez := Z.min (int_exponent a) (int_exponent b)).
  assert (0 < 2 ^ (- ez)) by (apply Z.pow_pos_nonneg; lia).
  assert (Hsa : cond_Zopp (a <? 0) (Z.pos (fst (shl_align (int_mantissa a) (int_exponent a) ez)))
                = a * 2 ^ (- ez)).
  { assert (Hx : Z.pos (fst (shl_align (int_mantissa a) (int_exponent a) ez))
                 = Z.abs a * 2 ^ (- ez)).
    { rewrite shl_align_fst, Hma by lia.
      rewrite <- Z.mul_assoc, <- Z.pow_add_r by lia. do 2 f_equal. lia. }
    unfold cond_Zopp. rewrite Hx. destruct (Z.ltb_spec a 0); lia. }
  assert (Hsb : cond_Zopp (b <? 0) (Z.pos (fst (shl_align (int_mantissa b) (int_exponent b) ez)))
                = b * 2 ^ (- ez)).
  { assert (Hx : Z.pos (fst (shl_align (int_mantissa b) (int_exponent b) ez))
                 = Z.abs b * 2 ^ (- ez)).
    { rewrite shl_align_fst, Hmb by lia.
      rewrite <- Z.mul_assoc, <- Z.pow_add_r by lia. do 2 f_equal. lia. }
    unfold cond_Zopp. rewrite Hx. destruct (Z.ltb_spec b 0); lia. }
  rewrite Hsa, Hsb, <- Z.mul_add_distr_r.
  destruct (decide (a + b = 0)) as [E|Hne].
  { by rewrite E. }
  rewrite (double_of_int_finite (a + b)) by done.
  apply binary_normalize_int; [done|done|lia|done].
Qed.

Lemma double_sum_from a (l : list Z) :
  Forall is_int l → Z.abs a + 2 ^ 31 * Z.of_nat (length l) < 2 ^ 53 →
  foldl (λ sum v, double_add sum (double_of_int v)) (double_of_int a) l
  = double_of_int (a + sum_Z l).
Proof.
  intros Hint. revert a. induction Hint as [|x l Hx _ IH]; intros a Hbound.
  - simpl. unfold sum_Z. simpl. by rewrite Z.add_0_r.
  - unfold is_int, INT_MIN, INT_MAX in Hx. simpl length in Hbound.
    cbn [foldl]. rewrite double_add_exact by lia.
    rewrite IH by lia. f_equal. unfold sum_Z. simpl. lia.
Qed.

(** The sum of at most [2 ^ 21] [int]s is accumulated without rounding. *)
Lemma double_sum_exact (l : list Z) :
  Forall is_int l → Z.of_nat (length l) ≤ 2 ^ 21 →
  double_sum l = double_of_int (sum_Z l).
Proof.
  intros Hint Hlen. unfold double_sum. rewrite double_sum_from by (done || lia).
  by rewrite Z.add_0_l.
Qed.


(** * The sort primitive *)

(** C1. For an array holding the sequence [l], [selection_sort] called with
    its length returns, and leaves in the same array a sequence that is in
    non-decreasing order and is a permutation of [l]: same length, same
    number of occurrences of every value.  Every other array and the
    generator are as before.  A sequence of length 0 or 1 is left as it
    is. *)
Theorem selection_sort_correct σ values (l : list Z) :
  heap σ !! values = Some l →
  ∃ l', selection_sort values (Z.of_nat (length l)) σ
        = Some ((), set_heap σ (<[values := l']> (heap σ)))
      ∧ Sorted Z.le l'
      ∧ l' ≡ₚ l
      ∧ length l' = length l
      ∧ (∀ v, occurrences v l' = occurrences v l)
      ∧ ((length l ≤ 1)%nat → l' = l ∧ set_heap σ (<[values := l']> (heap σ)) = σ).
Proof.
  intros Hp. destruct (selection_sort_Some σ values l Hp) as (l' & Hrun & Hperm & Hs).
  exists l'. split; [done|]. split; [done|]. split; [done|].
  split; [by apply Permutation_length|]. split; [intros v; by apply occurrences_perm|].
  intros Hlen.
  assert (l' = l) as ->.
  { apply (Sorted_unique Z.le); [done| |done].
    destruct l as [|x [|y l]]; [constructor|repeat constructor|simpl in Hlen; lia]. }
  split; [done|]. by rewrite insert_id, set_heap_id.
Qed.

Lemma selection_sort_correct_witness :
  heap (sample_world [3; 1; 2]) !! 1%positive = Some [3; 1; 2] ∧
  ∃ l', selection_sort 1%positive (Z.of_nat (length [3; 1; 2])) (sample_world [3; 1; 2])
        = Some ((), set_heap (sample_world [3; 1; 2])
                      (<[1%positive := l']> (heap (sample_world [3; 1; 2]))))
      ∧ Sorted Z.le l'
      ∧ l' ≡ₚ [3; 1; 2]
      ∧ length l' = length [3; 1; 2]
      ∧ (∀ v, occurrences v l' = occurrences v [3; 1; 2])
      ∧ ((length [3; 1; 2] ≤ 1)%nat →
         l' = [3; 1; 2] ∧
         set_heap (sample_world [3; 1; 2])
           (<[1%positive := l']> (heap (sample_world [3; 1; 2]))) = sample_world [3; 1; 2]).
Proof.
  split; [reflexivity|].
  apply (selection_sort_correct (sample_world [3; 1; 2]) 1%positive [3; 1; 2]).
  reflexivity.
Defined.

(** * The search primitive *)

(** C2. For an array whose first [n] elements are in ascending order and
    for every key, [binary_search] returns [true] exactly when the key is
    among those [n] elements, and it changes nothing.  With [n = 0] the
    answer is [false] for every key, and the recursion answers [false]
    whenever [start] exceeds [end_]. *)
Theorem binary_search_correct σ values (l : list Z) n key :
  heap σ !! values = Some l →
  0 ≤ n ≤ Z.of_nat (length l) →
  Sorted Z.le (take (Z.to_nat n) l) →
  binary_search values n key σ = Some (bool_decide (key ∈ take (Z.to_nat n) l), σ)
  ∧ (n = 0 → binary_search values n key σ = Some (false, σ))
  ∧ (∀ start end_, start > end_ →
       binary_search_recursive values key start end_ σ = Some (false, σ)).
Proof.
  intros Hp Hn Hs.
  assert (Hempty : ∀ start end_, start > end_ →
    binary_search_recursive values key start end_ σ = Some (false, σ)).
  { intros start end_ Hgt. rewrite binary_search_recursive_body.
    by rewrite decide_True. }
  split; [by apply binary_search_Some|]. split; [|done].
  intros ->. unfold binary_search. apply Hempty. lia.
Qed.

Lemma binary_search_correct_witness :
  heap (sample_world [1; 2; 4; 7]) !! 1%positive = Some [1; 2; 4; 7] ∧
  0 ≤ 4 ≤ Z.of_nat (length [1; 2; 4; 7]) ∧
  Sorted Z.le (take (Z.to_nat 4) [1; 2; 4; 7]) ∧
  binary_search 1%positive 4 7 (sample_world [1; 2; 4; 7])
  = Some (true, sample_world [1; 2; 4; 7]).
Proof.
  split; [reflexivity|]. split; [simpl; lia|].
  assert (Hs : Sorted Z.le (take (Z.to_nat 4) [1; 2; 4; 7])).
  { simpl. repeat constructor; lia. }
  split; [exact Hs|].
  refine (proj1 (binary_search_correct (sample_world [1; 2; 4; 7]) 1%positive
                   [1; 2; 4; 7] 4 7 eq_refl _ Hs)).
  simpl; lia.
Defined.

(** * The statistics analyzer *)

#[local] Instance key_le_transitive : Transitive key_le.
Proof. intros x y z. unfold key_le. lia. Qed.

(** The fold that looks for the mode always has a result. *)
Lemma mode_fold_pair (init : Z * Z) es :
  ∃ mode maxFrequency, foldl mode_step init es = (mode, maxFrequency).
Proof. destruct (foldl mode_step init es) as [m f]. by exists m, f. Qed.

(** The constructor and [analyze()] on a non-empty array: the measures in
    terms of the sorted rearrangement [s] of the input. *)
Lemma statistics_measures `{!UnorderedIteration} σ src (l : list Z) :
  heap σ !! src = Some l → l ≠ [] →
  let s := merge_sort Z.le l in
  ∃ mode maxFrequency σ',
    run Statistics src (Z.of_nat (length l)) σ
    = Some (Measures (s !!! 0%nat) (s !!! (length l - 1)%nat)
              (double_div (double_sum s) (double_of_int (Z.of_nat (length l))))
              (median_of s) mode maxFrequency, σ')
    ∧ (s !!! 0%nat ∈ l ∧ ∀ x, x ∈ l → s !!! 0%nat ≤ x)
    ∧ (s !!! (length l - 1)%nat ∈ l ∧ ∀ x, x ∈ l → x ≤ s !!! (length l - 1)%nat)
    ∧ mode ∈ l
    ∧ occurrences mode l = maxFrequency
    ∧ (∀ v, occurrences v l ≤ maxFrequency)
    ∧ (maxFrequency = 1 → mode = s !!! 0%nat)
    ∧ (1 < maxFrequency →
         ∃ pre post, iteration (frequencies l) = pre ++ (mode, maxFrequency) :: post
                   ∧ Forall (λ e, e.2 < maxFrequency) pre).
Proof.
  intros Hsrc Hne s.
  destruct (mode_fold_pair (s !!! 0%nat, 1) (iteration (frequencies l)))
    as (mode & maxFrequency & Hmode).
  exists mode, maxFrequency. eexists. split; [by apply run_Statistics|].
  assert (Hperm : s ≡ₚ l) by apply merge_sort_Permutation.
  assert (Hsorted : Sorted Z.le s) by apply Sorted_merge_sort, _.
  assert (Hlen : length s = length l) by by apply Permutation_length.
  assert (Hne' : s ≠ []).
  { intros E. apply Hne. apply Permutation_nil_r. by rewrite <- E. }
  assert (0 < length s)%nat by (destruct s; [done|simpl; lia]).
  rewrite <- (frequencies_perm s l Hperm) in Hmode |- *.
  destruct (mode_fold_frequencies s mode maxFrequency Hne' Hmode)
    as (Hin & Hocc & Hmax & Hone & Hfirst).
  split; [|split].
  - split; [rewrite <- Hperm; apply list_elem_of_lookup_total_2; lia|].
    intros x Hx. apply Sorted_head_least; [done|by rewrite Hperm].
  - rewrite <- Hlen. split; [rewrite <- Hperm; apply list_elem_of_lookup_total_2; lia|].
    intros x Hx. apply Sorted_last_greatest; [done|by rewrite Hperm].
  - split; [by rewrite <- Hperm|].
    split; [by rewrite <- (occurrences_perm mode s l Hperm)|].
    split; [intros v; by rewrite <- (occurrences_perm v s l Hperm)|].
    split; done.
Qed.

(** C3, as the code has it.  The reported mode is a value of maximum
    frequency and the reported count is that frequency.  Among values tied
    at a maximum of 1 the report is the smallest.  Among values tied at a
    larger maximum it is the one the frequency map's iteration reaches
    first; that is the smallest of them when the iteration happens to go by
    ascending key. *)
Theorem statistics_mode_max_frequency `{!UnorderedIteration} σ src (l : list Z) :
  heap σ !! src = Some l → l ≠ [] →
  ∃ min max mean median mode maxFrequency σ',
    run Statistics src (Z.of_nat (length l)) σ
    = Some (Measures min max mean median mode maxFrequency, σ')
    ∧ mode ∈ l
    ∧ occurrences mode l = maxFrequency
    ∧ (∀ v, occurrences v l ≤ occurrences mode l)
    ∧ (maxFrequency = 1 → ∀ v, v ∈ l → mode ≤ v)
    ∧ (1 < maxFrequency →
         ∃ pre post, iteration (frequencies l) = pre ++ (mode, maxFrequency) :: post
                   ∧ Forall (λ e, e.2 < maxFrequency) pre)
    ∧ (Sorted key_le (iteration (frequencies l)) →
         ∀ v, occurrences v l = maxFrequency → mode ≤ v).
Proof.
  intros Hsrc Hne.
  destruct (statistics_measures σ src l Hsrc Hne)
    as (mode & mf & σ' & Hrun & [_ Hmin] & _ & Hin & Hocc & Hmax & Hone & Hfirst).
  eexists _, _, _, _, mode, mf, σ'. split; [exact Hrun|].
  split; [done|]. split; [done|]. split; [by rewrite Hocc|].
  split; [intros E v Hv; rewrite (Hone E); by apply Hmin|]. split; [done|].
  intros Hasc v Hv.
  assert (Hvl : v ∈ l).
  { apply occurrences_pos. specialize (Hmax mode). apply occurrences_pos in Hin. lia. }
  destruct (decide (mf = 1)) as [E|E]; [rewrite (Hone E); by apply Hmin|].
  destruct Hfirst as (pre & post & Hes & Hpre).
  { apply occurrences_pos in Hin. lia. }
  assert (Hentry : (v, mf) ∈ iteration (frequencies l)) by by apply elem_of_iteration.
  rewrite Hes in Hentry, Hasc.
  apply elem_of_app in Hentry as [Hentry|Hentry].
  { rewrite list.Forall_forall in Hpre. specialize (Hpre _ Hentry). simpl in Hpre. lia. }
  apply elem_of_cons in Hentry as [[= ->]|Hentry]; [done|].
  apply (Sorted_StronglySorted _) in Hasc.
  apply StronglySorted_app_1_r in Hasc.
  apply StronglySorted_inv in Hasc as [_ Hall].
  rewrite list.Forall_forall in Hall. exact (Hall _ Hentry).
Qed.

Lemma statistics_mode_max_frequency_witness :
  heap (sample_world [2; 1; 2; 1; 3]) !! 1%positive = Some [2; 1; 2; 1; 3] ∧
  [2; 1; 2; 1; 3] ≠ [] ∧
  ∃ min max mean median mode maxFrequency σ',
    @run ascending_iteration Statistics 1%positive
      (Z.of_nat (length [2; 1; 2; 1; 3])) (sample_world [2; 1; 2; 1; 3])
    = Some (Measures min max mean median mode maxFrequency, σ')
    ∧ mode ∈ [2; 1; 2; 1; 3]
    ∧ occurrences mode [2; 1; 2; 1; 3] = maxFrequency
    ∧ (∀ v, occurrences v [2; 1; 2; 1; 3] ≤ occurrences mode [2; 1; 2; 1; 3])
    ∧ (maxFrequency = 1 → ∀ v, v ∈ [2; 1; 2; 1; 3] → mode ≤ v)
    ∧ (1 < maxFrequency →
         ∃ pre post, ascending_order (frequencies [2; 1; 2; 1; 3])
                     = pre ++ (mode, maxFrequency) :: post
                   ∧ Forall (λ e, e.2 < maxFrequency) pre)
    ∧ (Sorted key_le (ascending_order (frequencies [2; 1; 2; 1; 3])) →
         ∀ v, occurrences v [2; 1; 2; 1; 3] = maxFrequency → mode ≤ v).
Proof.
  split; [reflexivity|]. split; [discriminate|].
  apply (@statistics_mode_max_frequency ascending_iteration
           (sample_world [2; 1; 2; 1; 3]) 1%positive [2; 1; 2; 1; 3]);
    [reflexivity|discriminate].
Defined.

(** On [2; 1; 2; 1; 3] the values 1 and 2 are tied at the maximum frequency
    2: the report is 1 when the frequency map is traversed by ascending
    key, and 2 when it is traversed by descending key. *)
Lemma statistics_mode_tie_orders :
  match @run ascending_iteration Statistics 1%positive 5 (sample_world [2; 1; 2; 1; 3]),
        @run descending_iteration Statistics 1%positive 5 (sample_world [2; 1; 2; 1; 3]) with
  | Some (Measures _ _ _ _ mode1 count1, _), Some (Measures _ _ _ _ mode2 count2, _) =>
      mode1 = 1 ∧ count1 = 2 ∧ mode2 = 2 ∧ count2 = 2
  | _, _ => False
  end.
Proof. vm_compute. done. Qed.

(** C3, as stated, fails: with a frequency map that is traversed by
    descending key, on [1; 1; 2; 2] the values 1 and 2 are tied at the
    maximum frequency 2 and the report is 2, not the earlier 1. *)
Lemma statistics_mode_tie_counterexample :
  ¬ (∀ (U : UnorderedIteration) σ src (l : list Z),
       heap σ !! src = Some l → l ≠ [] →
       ∃ min max mean median mode maxFrequency σ',
         @run U Statistics src (Z.of_nat (length l)) σ
         = Some (Measures min max mean median mode maxFrequency, σ')
         ∧ (∀ v, occurrences v l ≤ occurrences mode l)
         ∧ (∀ v, occurrences v l = occurrences mode l → mode ≤ v)).
Proof.
  intros H.
  destruct (H descending_iteration (sample_world [1; 1; 2; 2]) 1%positive [1; 1; 2; 2]
              eq_refl ltac:(discriminate))
    as (min & max & mean & median & mode & mf & σ' & Hrun & _ & Hleast).
  vm_compute in Hrun. injection Hrun as <- <- <- <- <- <- <-.
  specialize (Hleast 1 eq_refl). lia.
Qed.

(** C10. When no value occurs twice, the reported mode is the least element
    of the sequence (it is also the reported minimum) and the reported
    count is 1. *)
Theorem statistics_mode_distinct `{!UnorderedIteration} σ src (l : list Z) :
  heap σ !! src = Some l → l ≠ [] → NoDup l →
  ∃ min max mean median mode σ',
    run Statistics src (Z.of_nat (length l)) σ
    = Some (Measures min max mean median mode 1, σ')
    ∧ mode = min
    ∧ mode ∈ l
    ∧ (∀ v, v ∈ l → mode ≤ v).
Proof.
  intros Hsrc Hne Hnodup.
  destruct (statistics_measures σ src l Hsrc Hne)
    as (mode & mf & σ' & Hrun & [Hmin_in Hmin] & _ & Hin & Hocc & Hmax & Hone & _).
  assert (mf = 1) as ->.
  { pose proof (proj1 (occurrences_NoDup l) Hnodup mode).
    apply occurrences_pos in Hin. lia. }
  eexists _, _, _, _, mode, σ'. split; [exact Hrun|].
  rewrite (Hone eq_refl). split; [done|]. split; done.
Qed.

Lemma statistics_mode_distinct_witness :
  heap (sample_world [3; 1; 2]) !! 1%positive = Some [3; 1; 2] ∧
  [3; 1; 2] ≠ [] ∧ NoDup [3; 1; 2] ∧
  ∃ min max mean median mode σ',
    @run descending_iteration Statistics 1%positive (Z.of_nat (length [3; 1; 2]))
      (sample_world [3; 1; 2])
    = Some (Measures min max mean median mode 1, σ')
    ∧ mode = min
    ∧ mode ∈ [3; 1; 2]
    ∧ (∀ v, v ∈ [3; 1; 2] → mode ≤ v).
Proof.
  assert (Hnd : NoDup [3; 1; 2]).
  { apply (bool_decide_unpack (NoDup [3; 1; 2])). vm_compute. exact I. }
  split; [reflexivity|]. split; [discriminate|]. split; [exact Hnd|].
  apply (@statistics_mode_distinct descending_iteration
           (sample_world [3; 1; 2]) 1%positive [3; 1; 2]);
    [reflexivity|discriminate|exact Hnd].
Defined.

(** The measures of the report on every non-empty sequence.  The minimum
    and the maximum are the least and the greatest element.  The mean is the
    [double] sum of the sorted array divided by the length; for up to
    [2 ^ 21] elements of type [int] that sum is exact, and the mean is the
    correctly rounded quotient of the sum of the elements by their number.
    The median is the middle element when the length is odd, and half the
    sum of the two middle elements when the length is even and that sum is
    an [int]. *)
Lemma statistics_report `{!UnorderedIteration} σ src (l : list Z) :
  heap σ !! src = Some l → l ≠ [] →
  let s := merge_sort Z.le l in
  let size := Z.of_nat (length l) in
  ∃ min max mean median mode maxFrequency σ',
    run Statistics src size σ = Some (Measures min max mean median mode maxFrequency, σ')
    ∧ (min = s !!! 0%nat ∧ min ∈ l ∧ ∀ x, x ∈ l → min ≤ x)
    ∧ (max = s !!! (length l - 1)%nat ∧ max ∈ l ∧ ∀ x, x ∈ l → x ≤ max)
    ∧ mean = double_div (double_sum s) (double_of_int size)
    ∧ (Forall is_int l → size ≤ 2 ^ 21 →
       mean = double_div (double_of_int (sum_Z l)) (double_of_int size))
    ∧ (size `rem` 2 ≠ 0 → median = double_of_int (s !!! Z.to_nat (size `quot` 2)))
    ∧ (size `rem` 2 = 0 →
       is_int (s !!! Z.to_nat (size `quot` 2 - 1) + s !!! Z.to_nat (size `quot` 2)) →
       median = double_div
                  (double_of_int (s !!! Z.to_nat (size `quot` 2 - 1)
                                  + s !!! Z.to_nat (size `quot` 2)))
                  (double_of_int 2)).
Proof.
  intros Hsrc Hne s size.
  destruct (statistics_measures σ src l Hsrc Hne)
    as (mode & mf & σ' & Hrun & [Hmin_in Hmin] & [Hmax_in Hmax] & _).
  fold s in Hrun, Hmin_in, Hmin, Hmax_in, Hmax.
  eexists _, _, _, _, _, _, _. split; [exact Hrun|].
  assert (Hlen : length s = length l) by apply Permutation_length, merge_sort_Permutation.
  assert (Hperm : s ≡ₚ l) by apply merge_sort_Permutation.
  split; [done|]. split; [done|]. split; [done|]. split.
  { intros Hint Hsize. rewrite double_sum_exact.
    - by rewrite (sum_Z_perm s l Hperm).
    - by rewrite Hperm.
    - by rewrite Hlen. }
  unfold median_of. rewrite Hlen. fold size. split.
  - intros Hodd. by rewrite decide_False.
  - intros Heven Hint. rewrite decide_True by done. do 2 f_equal.
    unfold is_int, INT_MIN, INT_MAX in Hint. unfold int_wrap.
    rewrite Z.mod_small; lia.
Qed.

(** The worked example: on [1; 2; 2; 3; 4] the report is minimum 1,
    maximum 4, mean 12/5 rounded to [double] (the number printed as 2.4),
    median 2 and mode 2 with count 2, whatever the iteration order of the
    frequency map. *)
Lemma statistics_example `{!UnorderedIteration} :
  ∃ σ', run Statistics 1%positive 5 (sample_world [1; 2; 2; 3; 4])
        = Some (Measures 1 4 (double_div (double_of_int 12) (double_of_int 5))
                  (double_of_int 2) 2 2, σ').
Proof.
  destruct (statistics_measures (sample_world [1; 2; 2; 3; 4]) 1%positive
              [1; 2; 2; 3; 4] eq_refl ltac:(discriminate))
    as (mode & mf & σ' & Hrun & _ & _ & Hin & Hocc & Hmax & _).
  exists σ'. change (Z.of_nat (length [1; 2; 2; 3; 4])) with 5 in Hrun.
  rewrite Hrun. pose proof (Hmax 2) as H2. vm_compute in H2.
  assert (mode = 2 ∧ mf = 2) as [-> ->].
  { repeat (apply elem_of_cons in Hin as [->|Hin]);
      [vm_compute in Hocc; subst mf; try done; exfalso; by apply H2..|].
    by apply elem_of_nil in Hin. }
  vm_compute. reflexivity.
Qed.

(** * The median of two large elements *)

(** C4 at the array [2147483647; 2147483647]: the sum of the two middle
    elements is formed in [int] arithmetic before the division by [2.0], so
    the reported median is -1 and not their average 2147483647.  The other
    measures are as expected. *)
Theorem statistics_median_overflow `{!UnorderedIteration} :
  ∃ σ', run Statistics 1%positive 2 (sample_world [2147483647; 2147483647])
        = Some (Measures 2147483647 2147483647 (double_of_int 2147483647)
                  (double_of_int (-1)) 2147483647 2, σ')
      ∧ double_of_int (-1) ≠ double_of_int 2147483647.
Proof.
  destruct (statistics_measures (sample_world [2147483647; 2147483647]) 1%positive
              [2147483647; 2147483647] eq_refl ltac:(discriminate))
    as (mode & mf & σ' & Hrun & _ & _ & Hin & Hocc & Hmax & _).
  exists σ'. change (Z.of_nat (length [2147483647; 2147483647])) with 2 in Hrun.
  rewrite Hrun.
  assert (mode = 2147483647 ∧ mf = 2) as [-> ->].
  { repeat (apply elem_of_cons in Hin as [->|Hin]);
      [vm_compute in Hocc; by subst mf..|].
    by apply elem_of_nil in Hin. }
  split; [vm_compute; reflexivity|]. vm_compute. discriminate.
Qed.

(** * The duplicate analyzer *)

Lemma sum_Z_cons x l : sum_Z (x :: l) = x + sum_Z l.
Proof. reflexivity. Qed.

Lemma sum_Z_fmap_add {A} (f g : A → Z) (l : list A) :
  sum_Z ((λ v, f v + g v) <$> l) = sum_Z (f <$> l) + sum_Z (g <$> l).
Proof.
  induction l as [|x l IH]; [done|]. rewrite !fmap_cons, !sum_Z_cons, IH. lia.
Qed.

Lemma sum_Z_fmap_ext {A} (f g : A → Z) (l : list A) :
  (∀ v, v ∈ l → f v = g v) → sum_Z (f <$> l) = sum_Z (g <$> l).
Proof.
  induction l as [|x l IH]; intros H; [done|].
  rewrite !fmap_cons, !sum_Z_cons, IH, (H x).
  - done.
  - apply elem_of_cons. by left.
  - intros v Hv. apply H. apply elem_of_cons. by right.
Qed.

Lemma sum_Z_indicator x (d : list Z) :
  sum_Z ((λ v, if decide (x = v) then 1 else 0) <$> d) = occurrences x d.
Proof.
  induction d as [|y d IH]; [done|].
  rewrite fmap_cons, sum_Z_cons, IH, occurrences_cons.
  destruct (decide (x = y)) as [->|Hne]; [by rewrite decide_True|].
  by rewrite decide_False by congruence.
Qed.

(** Over a duplicate-free list that covers [l], the occurrence counts add up
    to the length of [l]. *)
Lemma sum_Z_occurrences (d l : list Z) :
  NoDup d → (∀ v, v ∈ l → v ∈ d) →
  sum_Z ((λ v, occurrences v l) <$> d) = Z.of_nat (length l).
Proof.
  intros Hd. induction l as [|x l IH]; intros Hcover.
  - clear. induction d as [|y d IHd]; [done|].
    by rewrite fmap_cons, sum_Z_cons, IHd.
  - rewrite (sum_Z_fmap_ext _ (λ v, (if decide (x = v) then 1 else 0) + occurrences v l))
      by (intros v _; apply occurrences_cons).
    rewrite (sum_Z_fmap_add (λ v, if decide (x = v) then 1 else 0)), sum_Z_indicator, IH.
    + assert (Hx : x ∈ d) by (apply Hcover, elem_of_cons; by left).
      pose proof (proj1 (occurrences_NoDup d) Hd x). apply occurrences_pos in Hx.
      simpl. lia.
    + intros v Hv. apply Hcover, elem_of_cons. by right.
Qed.

Lemma excess_occurrences_length l :
  excess_occurrences l = Z.of_nat (length l) - Z.of_nat (length (remove_dups l)).
Proof.
  unfold excess_occurrences.
  rewrite <- (sum_excess_filter (λ v, occurrences v l)).
  rewrite (sum_Z_fmap_ext _ (λ v, occurrences v l + (-1))).
  - rewrite (sum_Z_fmap_add (λ v, occurrences v l)), sum_Z_occurrences;
      [|apply NoDup_remove_dups|intros v; apply elem_of_remove_dups].
    assert (Hones : ∀ d : list Z, sum_Z ((λ _, -1) <$> d) = - Z.of_nat (length d)).
    { induction d as [|y d IH]; [done|].
      rewrite fmap_cons, sum_Z_cons, IH. simpl length. lia. }
    rewrite Hones. lia.
  - intros v Hv. rewrite elem_of_remove_dups, <- occurrences_pos in Hv.
    cbv beta. unfold excess. case_decide; lia.
Qed.

(** C5. The duplicate analyzer reports, over the distinct values that occur
    [k > 1] times, the sum of [k - 1]: the number of elements minus the
    number of distinct values.  On [5; 5; 5; 7; 9; 9] that is 3 and on the
    empty sequence 0. *)
Theorem duplicate_report `{!UnorderedIteration} σ src (l : list Z) :
  heap σ !! src = Some l →
  ∃ σ', run Duplicate src (Z.of_nat (length l)) σ
        = Some (Duplicated (excess_occurrences l), σ')
      ∧ excess_occurrences l = Z.of_nat (length l) - Z.of_nat (length (remove_dups l))
      ∧ (l = [5; 5; 5; 7; 9; 9] → excess_occurrences l = 3)
      ∧ (l = [] → excess_occurrences l = 0).
Proof.
  intros Hsrc. eexists. split; [by apply run_Duplicate|].
  split; [apply excess_occurrences_length|]. split; by intros ->.
Qed.

Lemma duplicate_report_witness :
  heap (sample_world [5; 5; 5; 7; 9; 9]) !! 1%positive = Some [5; 5; 5; 7; 9; 9] ∧
  ∃ σ', @run descending_iteration Duplicate 1%positive
          (Z.of_nat (length [5; 5; 5; 7; 9; 9])) (sample_world [5; 5; 5; 7; 9; 9])
        = Some (Duplicated (excess_occurrences [5; 5; 5; 7; 9; 9]), σ')
      ∧ excess_occurrences [5; 5; 5; 7; 9; 9]
        = Z.of_nat (length [5; 5; 5; 7; 9; 9])
          - Z.of_nat (length (remove_dups [5; 5; 5; 7; 9; 9]))
      ∧ ([5; 5; 5; 7; 9; 9] = [5; 5; 5; 7; 9; 9] →
         excess_occurrences [5; 5; 5; 7; 9; 9] = 3)
      ∧ ([5; 5; 5; 7; 9; 9] = [] → excess_occurrences [5; 5; 5; 7; 9; 9] = 0).
Proof.
  split; [reflexivity|].
  apply (@duplicate_report descending_iteration
           (sample_world [5; 5; 5; 7; 9; 9]) 1%positive [5; 5; 5; 7; 9; 9]).
  reflexivity.
Defined.

(** * The missing-values analyzer *)

Lemma missing_values_length l :
  Z.of_nat (length (missing_values l))
  = 1000 - Z.of_nat (length (remove_dups (filter (λ v, 0 ≤ v < 1000) l))).
Proof.
  unfold missing_values.
  pose proof (filter_app_complement (λ i, i ∈ l) (seqZ 0 1000)) as Hsplit.
  apply Permutation_length in Hsplit. rewrite length_app, length_seqZ in Hsplit.
  assert (Hsame : filter (λ i, i ∈ l) (seqZ 0 1000)
                  ≡ₚ remove_dups (filter (λ v, 0 ≤ v < 1000) l)).
  { apply NoDup_Permutation.
    - apply list.NoDup_filter, NoDup_seqZ.
    - apply NoDup_remove_dups.
    - intros i. rewrite elem_of_remove_dups, !list_elem_of_filter, elem_of_seqZ.
      intuition lia. }
  rewrite <- (Permutation_length Hsame). lia.
Qed.

(** C6. The missing-values analyzer reports how many integers of 0..999 do
    not occur in the sequence.  Elements outside that range do not count:
    the report is 1000 minus the number of distinct elements within the
    range.  On the empty sequence it is 1000. *)
Theorem missing_report `{!UnorderedIteration} σ src (l : list Z) :
  heap σ !! src = Some l →
  ∃ σ', run Missing src (Z.of_nat (length l)) σ
        = Some (MissingValues (Z.of_nat (length (missing_values l))), σ')
      ∧ (∀ i, i ∈ missing_values l ↔ 0 ≤ i < 1000 ∧ i ∉ l)
      ∧ NoDup (missing_values l)
      ∧ Z.of_nat (length (missing_values l))
        = 1000 - Z.of_nat (length (remove_dups (filter (λ v, 0 ≤ v < 1000) l)))
      ∧ (l = [] → Z.of_nat (length (missing_values l)) = 1000).
Proof.
  intros Hsrc. eexists. split; [by apply run_Missing|]. split; [|split; [|split]].
  - intros i. unfold missing_values. rewrite list_elem_of_filter, elem_of_seqZ.
    intuition lia.
  - apply list.NoDup_filter, NoDup_seqZ.
  - apply missing_values_length.
  - by intros ->.
Qed.

Lemma missing_report_witness :
  heap (sample_world [5; 1000; -3; 5]) !! 1%positive = Some [5; 1000; -3; 5] ∧
  ∃ σ', @run ascending_iteration Missing 1%positive
          (Z.of_nat (length [5; 1000; -3; 5])) (sample_world [5; 1000; -3; 5])
        = Some (MissingValues (Z.of_nat (length (missing_values [5; 1000; -3; 5]))), σ')
      ∧ (∀ i, i ∈ missing_values [5; 1000; -3; 5]
              ↔ 0 ≤ i < 1000 ∧ i ∉ [5; 1000; -3; 5])
      ∧ NoDup (missing_values [5; 1000; -3; 5])
      ∧ Z.of_nat (length (missing_values [5; 1000; -3; 5]))
        = 1000 - Z.of_nat (length (remove_dups
                   (filter (λ v, 0 ≤ v < 1000) [5; 1000; -3; 5])))
      ∧ ([5; 1000; -3; 5] = [] →
         Z.of_nat (length (missing_values [5; 1000; -3; 5])) = 1000).
Proof.
  split; [reflexivity|].
  apply (@missing_report ascending_iteration
           (sample_world [5; 1000; -3; 5]) 1%positive [5; 1000; -3; 5]).
  reflexivity.
Defined.

(** * The search analyzer *)

Lemma length_filter_Forall {A} (P : A → Prop) `{!∀ x, Decision (P x)} (l : list A) :
  Forall P l → length (filter P l) = length l.
Proof.
  induction 1 as [|x l Hx _ IH]; [done|].
  rewrite filter_cons, decide_True by done. simpl. by rewrite IH.
Qed.

Lemma length_filter_Forall_not {A} (P : A → Prop) `{!∀ x, Decision (P x)} (l : list A) :
  Forall (λ x, ¬ P x) l → length (filter P l) = 0%nat.
Proof.
  induction 1 as [|x l Hx _ IH]; [done|].
  by rewrite filter_cons, decide_False.
Qed.

Lemma search_keys_domain σ :
  (∀ n, 0 ≤ rand_seq σ n) → Forall (λ k, 0 ≤ k < 1000) (search_keys σ).
Proof.
  intros Hrand. unfold search_keys. apply Forall_fmap, list.Forall_forall.
  intros i _. simpl. apply Z.rem_bound_pos; [apply Hrand|lia].
Qed.

(** C7. The search analyzer draws the next 100 numbers of the generator,
    reduces each into 0..999, looks each one up in its sorted copy and
    reports how many were found; the generator has advanced by exactly 100
    draws.  Whatever the draws, the report is 100 when every value of
    0..999 occurs in the data, and 0 when the data is empty. *)
Theorem search_report `{!UnorderedIteration} σ src (l : list Z) :
  heap σ !! src = Some l →
  (∀ n, 0 ≤ rand_seq σ n) →
  ∃ σ', run Search src (Z.of_nat (length l)) σ
        = Some (Found (Z.of_nat (length (filter (λ k, k ∈ l) (search_keys σ)))), σ')
      ∧ length (search_keys σ) = 100%nat
      ∧ Forall (λ k, 0 ≤ k < 1000) (search_keys σ)
      ∧ rand_calls σ' = (rand_calls σ + 100)%nat
      ∧ rand_seq σ' = rand_seq σ
      ∧ ((∀ k, 0 ≤ k < 1000 → k ∈ l) →
         Z.of_nat (length (filter (λ k, k ∈ l) (search_keys σ))) = 100)
      ∧ (l = [] → Z.of_nat (length (filter (λ k, k ∈ l) (search_keys σ))) = 0).
Proof.
  intros Hsrc Hrand. eexists. split; [by apply run_Search|].
  assert (Hlen : length (search_keys σ) = 100%nat).
  { unfold search_keys. by rewrite length_fmap, length_seq. }
  pose proof (search_keys_domain σ Hrand) as Hdom.
  split; [done|]. split; [done|]. split; [done|]. split; [done|]. split.
  - intros Hall. rewrite length_filter_Forall, Hlen; [done|].
    eapply list.Forall_impl; [exact Hdom|]. intros k Hk. by apply Hall.
  - intros ->. rewrite length_filter_Forall_not; [done|].
    apply list.Forall_forall. intros k _. apply not_elem_of_nil.
Qed.

Lemma search_report_witness :
  heap (sample_world [7; 3; 3; 50]) !! 1%positive = Some [7; 3; 3; 50] ∧
  (∀ n, 0 ≤ rand_seq (sample_world [7; 3; 3; 50]) n) ∧
  ∃ σ', @run ascending_iteration Search 1%positive
          (Z.of_nat (length [7; 3; 3; 50])) (sample_world [7; 3; 3; 50])
        = Some (Found (Z.of_nat (length (filter (λ k, k ∈ [7; 3; 3; 50])
                                           (search_keys (sample_world [7; 3; 3; 50]))))), σ')
      ∧ length (search_keys (sample_world [7; 3; 3; 50])) = 100%nat
      ∧ Forall (λ k, 0 ≤ k < 1000) (search_keys (sample_world [7; 3; 3; 50]))
      ∧ rand_calls σ' = (rand_calls (sample_world [7; 3; 3; 50]%Z) + 100)%nat
      ∧ rand_seq σ' = rand_seq (sample_world [7; 3; 3; 50])
      ∧ ((∀ k, 0 ≤ k < 1000 → k ∈ [7; 3; 3; 50]) →
         Z.of_nat (length (filter (λ k, k ∈ [7; 3; 3; 50])
                             (search_keys (sample_world [7; 3; 3; 50])))) = 100)
      ∧ ([7; 3; 3; 50] = [] →
         Z.of_nat (length (filter (λ k, k ∈ [7; 3; 3; 50])
                             (search_keys (sample_world [7; 3; 3; 50])))) = 0).
Proof.
  assert (Hrand : ∀ n, 0 ≤ rand_seq (sample_world [7; 3; 3; 50]) n)
    by (intros n; simpl; lia).
  split; [reflexivity|]. split; [exact Hrand|].
  apply (@search_report ascending_iteration
           (sample_world [7; 3; 3; 50]) 1%positive [7; 3; 3; 50]);
    [reflexivity|exact Hrand].
Defined.

(** * Empty input *)

(** C8. On an analyzer of size 0, [analyze()] returns the no-data report at
    once: it reads no element (it answers even when its array pointer is
    not backed by an array) and changes nothing.  So does the whole run on
    an empty sequence.  The report carries no measure; its text is the
    fixed sentence. *)
Theorem statistics_empty_no_data `{!UnorderedIteration} σ :
  (∀ values, StatisticsAnalyzer.analyze (Analyzer.Build values 0) σ = Some (NoData, σ))
  ∧ (∀ src, ∃ σ', run Statistics src 0 σ = Some (NoData, σ'))
  ∧ (∀ show_double, report_text show_double NoData = "No data to analyze.").
Proof.
  split; [done|]. split; [|done]. intros src. unfold run. cbn [construct analyze].
  eexists. reflexivity.
Qed.

(** * Ownership of the data *)

(** The report of an analyzer is a function of its own array and of the
    generator, and [analyze()] writes to no array. *)
Lemma analyze_own_array `{!UnorderedIteration} (v : variant) p (s : list Z) σ :
  heap σ !! p = Some s → (v = Search → Sorted Z.le s) →
  ∃ r, ∀ σ2, heap σ2 !! p = Some s →
             rand_seq σ2 = rand_seq σ → rand_calls σ2 = rand_calls σ →
    ∃ σ2', analyze v (Analyzer.Build p (Z.of_nat (length s))) σ2 = Some (r, σ2')
         ∧ heap σ2' = heap σ2.
Proof.
  intros Hp Hs. destruct v; cbn [analyze].
  - destruct (decide (s = [])) as [->|Hne].
    + exists NoData. intros σ2 _ _ _. by exists σ2.
    + destruct (mode_fold_pair (s !!! 0%nat, 1) (iteration (frequencies s)))
        as (mode & mf & Hmode).
      eexists. intros σ2 Hp2 _ _. exists σ2. split; [|done].
      by apply StatisticsAnalyzer_analyze_Some.
  - eexists. intros σ2 Hp2 _ _. exists σ2. split; [|done].
    by apply DuplicateAnalyzer_analyze_Some.
  - eexists. intros σ2 Hp2 _ _. exists σ2. split; [|done].
    by apply MissingAnalyzer_analyze_Some.
  - exists (Found (Z.of_nat (length (filter (λ k, k ∈ s) (search_keys σ))))).
    intros σ2 Hp2 Hseq Hcalls. eexists. split.
    + rewrite (SearchAnalyzer_analyze_Some σ2 p s Hp2 (Hs eq_refl)).
      unfold search_keys. rewrite Hseq, Hcalls. reflexivity.
    + done.
Qed.

(** C9. Constructing an analyzer of any of the four classes over the
    caller's array leaves that array, and every other array that existed,
    as it was.  The analyzer's own array is a new one, holding a copy of the
    caller's elements (sorted for the statistics and search analyzers), and
    [analyze()] works on that copy alone: it writes to no array, and its
    report is the same if the caller's array is overwritten after the
    construction. *)
Theorem construct_leaves_caller_array `{!UnorderedIteration} (v : variant) σ src (l : list Z) :
  heap σ !! src = Some l →
  ∃ this σ' copy,
    construct v src (Z.of_nat (length l)) σ = Some (this, σ')
    ∧ heap σ' !! src = Some l
    ∧ heap σ !! Analyzer.values this = None
    ∧ Analyzer.values this ≠ src
    ∧ (∀ q, q ≠ Analyzer.values this → heap σ' !! q = heap σ !! q)
    ∧ heap σ' !! Analyzer.values this = Some copy
    ∧ copy ≡ₚ l
    ∧ (v = Duplicate ∨ v = Missing → copy = l)
    ∧ (v = Statistics ∨ v = Search → Sorted Z.le copy)
    ∧ ∃ r, ∀ l2, ∃ σ1 σ2,
        analyze v this σ' = Some (r, σ1)
        ∧ heap σ1 = heap σ'
        ∧ analyze v this (set_heap σ' (<[src := l2]> (heap σ'))) = Some (r, σ2)
        ∧ heap σ2 !! Analyzer.values this = Some copy.
Proof.
  intros Hsrc. set (p := fresh (dom (heap σ))).
  assert (Hnew : ∃ copy, construct v src (Z.of_nat (length l)) σ
      = Some (Analyzer.Build p (Z.of_nat (length l)), set_heap σ (<[p := copy]> (heap σ)))
    ∧ heap σ !! p = None ∧ copy ≡ₚ l
    ∧ (v = Duplicate ∨ v = Missing → copy = l)
    ∧ (v = Statistics ∨ v = Search → Sorted Z.le copy)).
  { destruct (Analyzer_new_Some σ src l Hsrc) as [Hplain Hfresh].
    destruct (sorting_new_Some σ src l Hsrc) as (s & Hstat & Hsearch & _ & Hperm & Hsorted).
    destruct v; cbn [construct].
    - exists s. split; [done|]. split; [done|]. split; [done|].
      split; [intros [?|?]; done|done].
    - exists l. split; [done|]. split; [done|]. split; [done|].
      split; [done|intros [?|?]; done].
    - exists l. split; [done|]. split; [done|]. split; [done|].
      split; [done|intros [?|?]; done].
    - exists s. split; [done|]. split; [done|]. split; [done|].
      split; [intros [?|?]; done|done]. }
  destruct Hnew as (copy & Hrun & Hfresh & Hperm & Hplain & Hsorted).
  assert (Hne : p ≠ src) by (intros ->; congruence).
  exists (Analyzer.Build p (Z.of_nat (length l))), (set_heap σ (<[p := copy]> (heap σ))), copy.
  cbn [Analyzer.values]. rewrite heap_set_heap.
  split; [done|]. split; [by rewrite lookup_insert_ne|]. split; [done|]. split; [done|].
  split; [intros q Hq; by rewrite lookup_insert_ne|].
  split; [by rewrite lookup_insert_eq|]. split; [done|]. split; [done|]. split; [done|].
  destruct (analyze_own_array v p copy (set_heap σ (<[p := copy]> (heap σ))))
    as (r & Hr).
  { by rewrite heap_set_heap, lookup_insert_eq. }
  { intros ->. apply Hsorted. by right. }
  exists r. intros l2. rewrite <- (Permutation_length Hperm).
  destruct (Hr (set_heap σ (<[p := copy]> (heap σ)))) as (σ1 & Hrun1 & Hheap1);
    [by rewrite heap_set_heap, lookup_insert_eq|done..|].
  destruct (Hr (set_heap σ (<[src := l2]> (<[p := copy]> (heap σ)))))
    as (σ2 & Hrun2 & Hheap2);
    [by rewrite heap_set_heap, lookup_insert_ne, lookup_insert_eq|done..|].
  exists σ1, σ2. split; [done|]. split; [done|]. split; [done|].
  by rewrite Hheap2, heap_set_heap, lookup_insert_ne, lookup_insert_eq.
Qed.

Lemma construct_leaves_caller_array_witness :
  heap (sample_world [3; 1; 2]) !! 1%positive = Some [3; 1; 2] ∧
  ∃ this σ' copy,
    construct Statistics 1%positive (Z.of_nat (length [3; 1; 2])) (sample_world [3; 1; 2])
    = Some (this, σ')
    ∧ heap σ' !! 1%positive = Some [3; 1; 2]
    ∧ heap (sample_world [3; 1; 2]) !! Analyzer.values this = None
    ∧ Analyzer.values this ≠ 1%positive
    ∧ (∀ q, q ≠ Analyzer.values this → heap σ' !! q = heap (sample_world [3; 1; 2]) !! q)
    ∧ heap σ' !! Analyzer.values this = Some copy
    ∧ copy ≡ₚ [3; 1; 2]
    ∧ (Statistics = Duplicate ∨ Statistics = Missing → copy = [3; 1; 2])
    ∧ (Statistics = Statistics ∨ Statistics = Search → Sorted Z.le copy)
    ∧ ∃ r, ∀ l2, ∃ σ1 σ2,
        @analyze ascending_iteration Statistics this σ' = Some (r, σ1)
        ∧ heap σ1 = heap σ'
        ∧ @analyze ascending_iteration Statistics this
            (set_heap σ' (<[1%positive := l2]> (heap σ'))) = Some (r, σ2)
        ∧ heap σ2 !! Analyzer.values this = Some copy.
Proof.
  split; [reflexivity|].
  apply (@construct_leaves_caller_array ascending_iteration Statistics
           (sample_world [3; 1; 2]) 1%positive [3; 1; 2]).
  reflexivity.
Defined.

(** * The data file, the reader and the whole program *)

(** ** The bytes of an [int] *)

Lemma int_bytes_length z : length (int_bytes z) = 4%nat.
Proof. reflexivity. Qed.

Lemma bytes_int_int_bytes z : is_int z → bytes_int (int_bytes z) = z.
Proof.
  unfold is_int, INT_MIN, INT_MAX. intros Hz. unfold int_bytes, bytes_int, int_wrap.
  cbn [fmap list_fmap foldr].
  change 255 with (Z.ones 8). rewrite !Z.land_ones, !Z.shiftr_div_pow2 by lia.
  change (2 ^ (8 * 0)) with 1. change (2 ^ (8 * 1)) with 256.
  change (2 ^ (8 * 2)) with 65536. change (2 ^ (8 * 3)) with 16777216.
  change (2 ^ 8) with 256. change (2 ^ 31) with 2147483648. change (2 ^ 32) with 4294967296.
  rewrite Z.div_1_r. Z.div_mod_to_equations. lia.
Qed.

Lemma bytes_of_ints_cons x l : bytes_of_ints (x :: l) = int_bytes x ++ bytes_of_ints l.
Proof. reflexivity. Qed.

Lemma bytes_of_ints_app l k : bytes_of_ints (l ++ k) = bytes_of_ints l ++ bytes_of_ints k.
Proof. unfold bytes_of_ints. apply bind_app. Qed.

Lemma length_bytes_of_ints l : length (bytes_of_ints l) = (4 * length l)%nat.
Proof.
  induction l as [|x l IH]; [done|].
  rewrite bytes_of_ints_cons, length_app, IH, int_bytes_length. simpl. lia.
Qed.

Lemma ints_of_bytes_int_bytes x r :
  ints_of_bytes (int_bytes x ++ r) = bytes_int (int_bytes x) :: ints_of_bytes r.
Proof. reflexivity. Qed.

(** Decoding the bytes of a list of [int]s gives the list back, whatever
    follows. *)
Lemma ints_of_bytes_of_ints l r :
  Forall is_int l → ints_of_bytes (bytes_of_ints l ++ r) = l ++ ints_of_bytes r.
Proof.
  induction 1 as [|x l Hx _ IH]; [done|].
  rewrite bytes_of_ints_cons, <- app_assoc, ints_of_bytes_int_bytes, IH.
  by rewrite bytes_int_int_bytes.
Qed.

Lemma take_bytes_of_ints n l :
  take (4 * n) (bytes_of_ints l) = bytes_of_ints (take n l).
Proof.
  revert l. induction n as [|n IH]; intros l; [done|].
  destruct l as [|x l]; [done|].
  rewrite bytes_of_ints_cons. replace (4 * S n)%nat with (4 + 4 * n)%nat by lia.
  rewrite (take_app_add' (int_bytes x)) by exact (int_bytes_length x). by rewrite IH.
Qed.

Lemma drop_bytes_of_ints n l :
  drop (4 * n) (bytes_of_ints l) = bytes_of_ints (drop n l).
Proof.
  revert l. induction n as [|n IH]; intros l; [done|].
  destruct l as [|x l]; [done|].
  rewrite bytes_of_ints_cons. replace (4 * S n)%nat with (4 + 4 * n)%nat by lia.
  rewrite (drop_app_add' (int_bytes x)) by exact (int_bytes_length x). by rewrite IH.
Qed.

(** Induction on a list of bytes, four at a time. *)
Lemma bytes_ind4 (P : list Z → Prop) :
  (∀ bs, (length bs < 4)%nat → P bs) →
  (∀ b0 b1 b2 b3 bs, P bs → P (b0 :: b1 :: b2 :: b3 :: bs)) →
  ∀ bs, P bs.
Proof.
  intros Hshort Hstep bs.
  remember (length bs) as n eqn:Hn. revert bs Hn.
  induction (lt_wf n) as [n _ IH]. intros bs ->.
  destruct bs as [|b0 [|b1 [|b2 [|b3 bs]]]]; try (apply Hshort; simpl; lia).
  apply Hstep. apply (IH (length bs)); [simpl; lia|done].
Qed.

Lemma length_ints_of_bytes bs :
  (4 * length (ints_of_bytes bs) ≤ length bs < 4 * length (ints_of_bytes bs) + 4)%nat.
Proof.
  induction bs as [bs Hshort|b0 b1 b2 b3 bs IH] using bytes_ind4.
  - destruct bs as [|b0 [|b1 [|b2 [|b3 bs]]]]; simpl in *; lia.
  - simpl. lia.
Qed.

(** The elements that a run of bytes covers whole do not depend on what
    follows it. *)
Lemma ints_of_bytes_prefix bs r :
  take (length (ints_of_bytes bs)) (ints_of_bytes (bs ++ r)) = ints_of_bytes bs.
Proof.
  induction bs as [bs Hshort|b0 b1 b2 b3 bs IH] using bytes_ind4.
  - by destruct bs as [|b0 [|b1 [|b2 [|b3 bs]]]]; simpl in *; try lia.
  - simpl. by rewrite IH.
Qed.

(** ** The machine monad *)

Lemma IO_bind_Some {A B} (c : IO A) (k : A → IO B) m a m' :
  c m = Some (a, m') → (c ≫= k) m = k a m'.
Proof. intros Hc. unfold mbind, IO_bind. by rewrite Hc. Qed.

Lemma lift_Some {A} (c : M A) m a σ :
  c (mem m) = Some (a, σ) → lift c m = Some (a, Machine σ (files m) (console m)).
Proof. intros Hc. unfold lift. by rewrite Hc. Qed.

Lemma load_bytes_Some σ p (blk : list Z) n :
  heap σ !! p = Some blk → 0 ≤ n ≤ Z.of_nat (length blk) →
  load_bytes p (n * 4) σ = Some (bytes_of_ints (take (Z.to_nat n) blk), σ).
Proof.
  intros Hp Hn. unfold load_bytes. rewrite Hp. simpl.
  rewrite decide_True by lia.
  replace (Z.to_nat (n * 4)) with (4 * Z.to_nat n)%nat by lia.
  by rewrite take_bytes_of_ints.
Qed.

(** ** Writing the data file *)

Lemma ofstream_write_closed `{!FileSystem} name n buffer m :
  ofstream_write (Ofstream name false) n buffer m = Some ((), m).
Proof. reflexivity. Qed.

Lemma ofstream_write_nothing `{!FileSystem} s n buffer m :
  n ≤ 0 → ofstream_write s n buffer m = Some ((), m).
Proof.
  intros Hn. unfold ofstream_write.
  by rewrite bool_decide_false, andb_false_r by lia.
Qed.

Lemma ofstream_write_Some `{!FileSystem} name n buffer m bs :
  0 < n → buffer (mem m) = Some (bs, mem m) →
  ofstream_write (Ofstream name true) n buffer m
  = Some ((), if can_read name
              then Machine (mem m)
                     (<[name := default [] (files m !! name) ++ bs]> (files m))
                     (console m)
              else m).
Proof.
  intros Hn Hbuf. unfold ofstream_write. cbn [is_open target andb].
  rewrite bool_decide_true by done.
  rewrite (IO_bind_Some _ _ _ _ _ (lift_Some _ _ _ _ Hbuf)).
  unfold mbind, IO_bind, file_contents, set_file. cbn [mem files console].
  by destruct (can_read name), m.
Qed.

(** When the file cannot be opened, [writeBinary] does nothing at all: it
    does not even look at the array. *)
Lemma writeBinary_unwritable `{!FileSystem} m values length name :
  can_write name = false → writeBinary values length name m = Some ((), m).
Proof.
  intros Hw. unfold writeBinary, ofstream_open. rewrite Hw.
  rewrite (IO_bind_Some (mret _) _ m (Ofstream name false) m eq_refl).
  unfold mbind at 1, IO_bind at 1. rewrite ofstream_write_closed.
  apply ofstream_write_closed.
Qed.

Lemma ofstream_open_writable `{!FileSystem} name m :
  can_write name = true →
  ofstream_open name m
  = Some (Ofstream name true,
          if can_read name then Machine (mem m) (<[name := []]> (files m)) (console m)
          else m).
Proof. intros Hw. unfold ofstream_open. rewrite Hw. reflexivity. Qed.

(** When the file can be opened but what is written to it cannot be read,
    [writeBinary] reads the array and leaves nothing that a reader sees. *)
Lemma writeBinary_unreadable `{!FileSystem} m values (blk : list Z) length name :
  can_write name = true → can_read name = false →
  heap (mem m) !! values = Some blk → length ≤ Z.of_nat (List.length blk) →
  writeBinary values length name m = Some ((), m).
Proof.
  intros Hw Hr Hp Hn. unfold writeBinary.
  rewrite (IO_bind_Some _ _ _ _ _ (ofstream_open_writable name m Hw)). rewrite Hr.
  erewrite IO_bind_Some; cycle 1.
  { by apply (ofstream_write_Some name 4 _ _ (int_bytes length)). }
  rewrite Hr.
  destruct (decide (0 < length)) as [Hpos|Hneg].
  - erewrite ofstream_write_Some; [|lia|apply load_bytes_Some; [done|lia]].
    by rewrite Hr.
  - by rewrite ofstream_write_nothing by lia.
Qed.

Lemma writeBinary_writable `{!FileSystem} m values (blk : list Z) length name :
  can_write name = true → can_read name = true →
  heap (mem m) !! values = Some blk → length ≤ Z.of_nat (List.length blk) →
  writeBinary values length name m
  = Some ((), Machine (mem m)
                (<[name := int_bytes length ++ bytes_of_ints (take (Z.to_nat length) blk)]>
                   (files m))
                (console m)).
Proof.
  intros Hw Hr Hp Hn. unfold writeBinary.
  rewrite (IO_bind_Some _ _ _ _ _ (ofstream_open_writable name m Hw)). rewrite Hr.
  erewrite IO_bind_Some; cycle 1.
  { by apply (ofstream_write_Some name 4 _ _ (int_bytes length)). }
  rewrite Hr. cbn [mem files console].
  rewrite lookup_insert_eq, insert_insert_eq. cbn [default app].
  destruct (decide (0 < length)) as [Hpos|Hneg].
  - erewrite ofstream_write_Some; [|lia|cbn [mem]; apply load_bytes_Some; [done|lia]].
    rewrite Hr. cbn [mem files console].
    rewrite lookup_insert_eq, insert_insert_eq. by cbn [default].
  - rewrite ofstream_write_nothing by lia.
    replace (Z.to_nat length) with 0%nat by lia. cbn [take].
    change (bytes_of_ints []) with (@nil Z). by rewrite app_nil_r.
Qed.

(** ** Reading the data file *)

Lemma store_bytes_Some σ p (blk bs : list Z) :
  heap σ !! p = Some blk → (length bs ≤ 4 * length blk)%nat →
  store_bytes p bs σ
  = Some ((), set_heap σ
       (<[p := ints_of_bytes (bs ++ drop (length bs) (bytes_of_ints blk))]> (heap σ))).
Proof.
  intros Hp Hn. unfold store_bytes. rewrite Hp. simpl. by rewrite decide_True by lia.
Qed.

Lemma new_int_array_Some σ n :
  0 ≤ n →
  new_int_array n σ
  = Some (fresh (dom (heap σ)),
          set_heap σ (<[fresh (dom (heap σ)) := replicate (Z.to_nat n) 0]> (heap σ))).
Proof. intros Hn. unfold new_int_array. by rewrite decide_True. Qed.

Lemma fresh_heap (h : gmap positive (list Z)) : h !! fresh (dom h) = None.
Proof. apply not_elem_of_dom, is_fresh. Qed.

(** After the two [read]s the new array holds the bytes that were there,
    overwritten from the front by the bytes that the file still had. *)
Lemma readValues_Some m name (bs : list Z) size0 :
  let inFile := if files m !! name is Some file then Ifstream file true
                else Ifstream [] false in
  let r1 := ifstream_read inFile 4 in
  let size := bytes_int (r1.1 ++ drop (length r1.1) (int_bytes size0)) in
  let r2 := ifstream_read r1.2 (size * 4) in
  let p := fresh (dom (heap (mem m))) in
  0 ≤ size →
  BinaryReader.readValues name size0 m
  = Some (BinaryReader.Build p size,
          Machine (set_heap (mem m)
                     (<[p := ints_of_bytes
                               (r2.1 ++ drop (length r2.1)
                                          (bytes_of_ints (replicate (Z.to_nat size) 0)))]>
                        (heap (mem m))))
                  (files m) (console m)).
Proof.
  intros inFile r1 size r2 p Hsize.
  unfold BinaryReader.readValues.
  rewrite (IO_bind_Some (ifstream_open name) _ m inFile m eq_refl).
  fold r1. destruct r1 as [bs1 inFile1] eqn:Hr1. cbn [fst snd] in *.
  fold size. erewrite IO_bind_Some; cycle 1.
  { apply lift_Some. by apply new_int_array_Some. }
  fold p. fold r2. destruct r2 as [bs2 inFile2] eqn:Hr2. cbn [fst snd] in *.
  assert (Hlen : (length bs2 ≤ Z.to_nat (size * 4))%nat).
  { subst r2. unfold ifstream_read in Hr2. destruct (good inFile1).
    - injection Hr2 as <- _. rewrite length_take. lia.
    - injection Hr2 as <- _. simpl. lia. }
  erewrite IO_bind_Some; cycle 1.
  { apply lift_Some. cbn [mem]. apply store_bytes_Some.
    - by rewrite heap_set_heap, lookup_insert_eq.
    - rewrite length_replicate. lia. }
  cbn [mem files console]. unfold mret, IO_ret.
  by rewrite set_heap_set_heap, heap_set_heap, insert_insert_eq.
Qed.

Lemma ints_of_bytes_take n bs :
  ints_of_bytes (take (4 * n) bs) = take n (ints_of_bytes bs).
Proof.
  revert bs. induction n as [|n IH]; intros bs; [done|].
  replace (4 * S n)%nat with (S (S (S (S (4 * n))))) by lia.
  destruct bs as [|b0 [|b1 [|b2 [|b3 bs]]]]; try done.
  cbn [take ints_of_bytes]. by rewrite IH.
Qed.

(** What the second [read] leaves in an array of [n] elements: the array
    keeps its length, and the elements that the rest of the file covers
    whole are the ones decoded from it. *)
Lemma read_into_array n (body blk : list Z) :
  length blk = n →
  let bs := take (4 * n) body in
  let l := ints_of_bytes (bs ++ drop (length bs) (bytes_of_ints blk)) in
  length l = n
  ∧ take (length (ints_of_bytes body)) l = take n (ints_of_bytes body).
Proof.
  intros Hblk bs l.
  assert (Hbs : (length bs ≤ 4 * n)%nat) by (unfold bs; rewrite length_take; lia).
  assert (Hl : length l = n).
  { pose proof (length_ints_of_bytes (bs ++ drop (length bs) (bytes_of_ints blk))) as H.
    fold l in H. rewrite length_app, length_drop, length_bytes_of_ints, Hblk in H. lia. }
  split; [done|].
  pose proof (ints_of_bytes_prefix bs (drop (length bs) (bytes_of_ints blk))) as Hpre.
  fold l in Hpre. unfold bs in Hpre. rewrite ints_of_bytes_take in Hpre.
  rewrite length_take in Hpre.
  destruct (decide (n ≤ length (ints_of_bytes body))%nat) as [Hle|Hgt].
  - rewrite Nat.min_l in Hpre by done.
    rewrite (take_ge l (length (ints_of_bytes body))) by lia.
    by rewrite <- Hpre, take_ge by lia.
  - by rewrite Nat.min_r in Hpre by lia.
Qed.

Lemma BinaryReader_new_header m name (hd body : list Z) :
  files m !! name = Some (hd ++ body) → length hd = 4%nat → 0 ≤ bytes_int hd →
  let n := Z.to_nat (bytes_int hd) in
  let p := fresh (dom (heap (mem m))) in
  let bs := take (4 * n) body in
  BinaryReader.new name m
  = Some (BinaryReader.Build p (bytes_int hd),
          Machine (set_heap (mem m)
                     (<[p := ints_of_bytes
                               (bs ++ drop (length bs) (bytes_of_ints (replicate n 0)))]>
                        (heap (mem m))))
                  (files m) (console m)).
Proof.
  intros Hfile Hhd Hsize n p bs.
  pose proof (readValues_Some m name [] 0) as H. rewrite Hfile in H.
  cbv zeta in H. unfold ifstream_read in H. cbn [good pending fst snd] in H.
  rewrite take_app_length', drop_app_length' in H by done.
  rewrite Hhd in H. change (drop 4 (int_bytes 0)) with (@nil Z) in H.
  rewrite app_nil_r in H. rewrite bool_decide_true in H by done.
  cbn [good pending fst snd] in H.
  replace (Z.to_nat (bytes_int hd * 4)) with (4 * n)%nat in H by lia.
  by apply H.
Qed.

(** X1.  What [writeBinary] writes, [BinaryReader] reads back: when the
    file can be opened for writing and then for reading, after writing the
    first [length] elements of an array to it, a reader constructed on
    that file has size [length] and owns a new array that holds exactly
    those elements; the caller's array is untouched. *)
Theorem BinaryReader_reads_written `{!FileSystem} m values (blk : list Z) length name :
  can_write name = true → can_read name = true →
  heap (mem m) !! values = Some blk →
  0 ≤ length ≤ Z.of_nat (List.length blk) →
  is_int length → Forall is_int blk →
  (writeBinary values length name ≫= λ _, BinaryReader.new name) m
  = Some (BinaryReader.Build (fresh (dom (heap (mem m)))) length,
          Machine (set_heap (mem m)
                     (<[fresh (dom (heap (mem m))) := take (Z.to_nat length) blk]>
                        (heap (mem m))))
                  (<[name := int_bytes length ++ bytes_of_ints (take (Z.to_nat length) blk)]>
                     (files m))
                  (console m)).
Proof.
  intros Hw Hr Hp Hlen Hint Hblk.
  rewrite (IO_bind_Some _ _ _ _ _
             (writeBinary_writable m values blk length name Hw Hr Hp ltac:(lia))).
  set (data := take (Z.to_nat length) blk).
  assert (Hdata : List.length data = Z.to_nat length).
  { unfold data. rewrite length_take. lia. }
  pose proof (BinaryReader_new_header
    (Machine (mem m) (<[name := int_bytes length ++ bytes_of_ints data]> (files m)) (console m))
    name (int_bytes length) (bytes_of_ints data)) as Hnew.
  cbn [mem files console] in Hnew. rewrite (bytes_int_int_bytes length Hint) in Hnew.
  rewrite Hnew; [|by rewrite lookup_insert_eq|done|lia].
  rewrite take_ge by (rewrite length_bytes_of_ints; lia).
  rewrite drop_ge by (rewrite !length_bytes_of_ints, length_replicate; lia).
  rewrite ints_of_bytes_of_ints by (by apply Forall_take).
  by rewrite app_nil_r.
Qed.

Lemma BinaryReader_reads_written_witness :
  @can_write writable_fs "f" = true ∧ @can_read writable_fs "f" = true
  ∧ heap (mem (sample_machine [7; -3; 2147483647] ∅)) !! 1%positive
    = Some [7; -3; 2147483647]
  ∧ 0 ≤ 2 ≤ Z.of_nat (List.length [7; -3; 2147483647])
  ∧ is_int 2 ∧ Forall is_int [7; -3; 2147483647]
  ∧ (@writeBinary writable_fs 1%positive 2 "f" ≫= λ _, BinaryReader.new "f")
      (sample_machine [7; -3; 2147483647] ∅)
    = Some (BinaryReader.Build
              (fresh (dom (heap (mem (sample_machine [7; -3; 2147483647] ∅))))) 2,
            Machine (set_heap (mem (sample_machine [7; -3; 2147483647] ∅))
                       (<[fresh (dom (heap (mem (sample_machine [7; -3; 2147483647] ∅))))
                          := take (Z.to_nat 2) [7; -3; 2147483647]]>
                          (heap (mem (sample_machine [7; -3; 2147483647] ∅)))))
                    (<["f" := int_bytes 2
                              ++ bytes_of_ints (take (Z.to_nat 2) [7; -3; 2147483647])]>
                       (files (sample_machine [7; -3; 2147483647] ∅)))
                    (console (sample_machine [7; -3; 2147483647] ∅))).
Proof.
  assert (Hint : is_int 2) by (unfold is_int, INT_MIN, INT_MAX; lia).
  assert (Hblk : Forall is_int [7; -3; 2147483647]).
  { repeat constructor; unfold INT_MIN, INT_MAX; lia. }
  split; [reflexivity|]. split; [reflexivity|].
  split; [reflexivity|]. split; [simpl; lia|]. split; [exact Hint|]. split; [exact Hblk|].
  apply (@BinaryReader_reads_written writable_fs (sample_machine [7; -3; 2147483647] ∅)
           1%positive [7; -3; 2147483647] 2 "f");
    [reflexivity|reflexivity|reflexivity|simpl; lia|exact Hint|exact Hblk].
Defined.

(** X2.  A reader constructed on a file that does not exist reports no
    error: both [read]s do nothing, the size stays the 0 the constructor
    gave it and the reader owns a new empty array. *)
Theorem BinaryReader_missing_file m name :
  files m !! name = None →
  BinaryReader.new name m
  = Some (BinaryReader.Build (fresh (dom (heap (mem m)))) 0,
          Machine (set_heap (mem m) (<[fresh (dom (heap (mem m))) := []]> (heap (mem m))))
                  (files m) (console m)).
Proof.
  intros Hfile. pose proof (readValues_Some m name [] 0) as H.
  rewrite Hfile in H. by apply H.
Qed.

Lemma BinaryReader_missing_file_witness :
  files (sample_machine [] ∅) !! "binary.dat" = None
  ∧ BinaryReader.new "binary.dat" (sample_machine [] ∅)
    = Some (BinaryReader.Build (fresh (dom (heap (mem (sample_machine [] ∅))))) 0,
            Machine (set_heap (mem (sample_machine [] ∅))
                       (<[fresh (dom (heap (mem (sample_machine [] ∅)))) := []]>
                          (heap (mem (sample_machine [] ∅)))))
                    (files (sample_machine [] ∅)) (console (sample_machine [] ∅))).
Proof.
  split; [reflexivity|].
  apply (BinaryReader_missing_file (sample_machine [] ∅) "binary.dat"). reflexivity.
Defined.

(** X3.  A file whose four header bytes declare a size [n ≥ 0] always gives
    a reader of size [n] with an array of [n] elements, however many bytes
    follow the header: a truncated file is not detected.  The elements that
    the bytes after the header cover whole are the ones decoded from them,
    and bytes beyond the declared size are ignored. *)
Theorem BinaryReader_declared_size m name (hd body : list Z) :
  files m !! name = Some (hd ++ body) → length hd = 4%nat → 0 ≤ bytes_int hd →
  ∃ l, BinaryReader.new name m
       = Some (BinaryReader.Build (fresh (dom (heap (mem m)))) (bytes_int hd),
               Machine (set_heap (mem m) (<[fresh (dom (heap (mem m))) := l]> (heap (mem m))))
                       (files m) (console m))
     ∧ Z.of_nat (length l) = bytes_int hd
     ∧ take (length (ints_of_bytes body)) l
       = take (Z.to_nat (bytes_int hd)) (ints_of_bytes body).
Proof.
  intros Hfile Hhd Hsize.
  eexists. split; [by apply BinaryReader_new_header|].
  destruct (read_into_array (Z.to_nat (bytes_int hd)) body
              (replicate (Z.to_nat (bytes_int hd)) 0)) as [Hlen Htake].
  { apply length_replicate. }
  split; [lia|done].
Qed.

Lemma BinaryReader_declared_size_witness :
  files (sample_machine [] {["f" := [3; 0; 0; 0] ++ [7; 0; 0; 0; 9; 1]]}) !! "f"
  = Some ([3; 0; 0; 0] ++ [7; 0; 0; 0; 9; 1])
  ∧ length [3; 0; 0; 0] = 4%nat ∧ 0 ≤ bytes_int [3; 0; 0; 0]
  ∧ ∃ l, BinaryReader.new "f" (sample_machine [] {["f" := [3; 0; 0; 0] ++ [7; 0; 0; 0; 9; 1]]})
       = Some (BinaryReader.Build
                 (fresh (dom (heap (mem (sample_machine []
                    {["f" := [3; 0; 0; 0] ++ [7; 0; 0; 0; 9; 1]]})))))
                 (bytes_int [3; 0; 0; 0]),
               Machine (set_heap (mem (sample_machine []
                                    {["f" := [3; 0; 0; 0] ++ [7; 0; 0; 0; 9; 1]]}))
                          (<[fresh (dom (heap (mem (sample_machine []
                                {["f" := [3; 0; 0; 0] ++ [7; 0; 0; 0; 9; 1]]})))) := l]>
                             (heap (mem (sample_machine []
                                {["f" := [3; 0; 0; 0] ++ [7; 0; 0; 0; 9; 1]]})))))
                       (files (sample_machine [] {["f" := [3; 0; 0; 0] ++ [7; 0; 0; 0; 9; 1]]}))
                       (console (sample_machine []
                                   {["f" := [3; 0; 0; 0] ++ [7; 0; 0; 0; 9; 1]]})))
     ∧ Z.of_nat (length l) = bytes_int [3; 0; 0; 0]
     ∧ take (length (ints_of_bytes [7; 0; 0; 0; 9; 1])) l
       = take (Z.to_nat (bytes_int [3; 0; 0; 0])) (ints_of_bytes [7; 0; 0; 0; 9; 1]).
Proof.
  split; [reflexivity|]. split; [reflexivity|]. split; [vm_compute; discriminate|].
  apply (BinaryReader_declared_size
           (sample_machine [] {["f" := [3; 0; 0; 0] ++ [7; 0; 0; 0; 9; 1]]}) "f"
           [3; 0; 0; 0] [7; 0; 0; 0; 9; 1]);
    [reflexivity|reflexivity|vm_compute; discriminate].
Defined.

(** X4.  A file whose header declares a negative size gives no reader:
    [new int[size]] has no result for a negative [size]. *)
Theorem BinaryReader_negative_size m name (hd body : list Z) :
  files m !! name = Some (hd ++ body) → length hd = 4%nat → bytes_int hd < 0 →
  BinaryReader.new name m = None.
Proof.
  intros Hfile Hhd Hsize. unfold BinaryReader.new, BinaryReader.readValues.
  erewrite IO_bind_Some; cycle 1.
  { unfold ifstream_open. by rewrite Hfile. }
  unfold ifstream_read. cbn [good pending].
  rewrite take_app_length' by done. rewrite Hhd.
  change (drop 4 (int_bytes 0)) with (@nil Z). rewrite app_nil_r.
  unfold mbind, IO_bind, lift, new_int_array. by rewrite decide_False by lia.
Qed.

Lemma BinaryReader_negative_size_witness :
  files (sample_machine [] {["f" := [255; 255; 255; 255] ++ [1; 2]]}) !! "f"
  = Some ([255; 255; 255; 255] ++ [1; 2])
  ∧ length [255; 255; 255; 255] = 4%nat ∧ bytes_int [255; 255; 255; 255] < 0
  ∧ BinaryReader.new "f" (sample_machine [] {["f" := [255; 255; 255; 255] ++ [1; 2]]}) = None.
Proof.
  split; [reflexivity|]. split; [reflexivity|]. split; [reflexivity|].
  apply (BinaryReader_negative_size
           (sample_machine [] {["f" := [255; 255; 255; 255] ++ [1; 2]]}) "f"
           [255; 255; 255; 255] [1; 2]); reflexivity.
Defined.

(** ** Creating the data file *)

Lemma random_values_S σ n :
  random_values σ (S n)
  = random_values σ n ++ [rand_seq σ (rand_calls σ + n)%nat `rem` 1000].
Proof. unfold random_values. by rewrite seq_S, fmap_app. Qed.

Lemma length_random_values σ n : length (random_values σ n) = n.
Proof. unfold random_values. by rewrite length_fmap, length_seq. Qed.

Lemma random_values_range σ n :
  (∀ k, 0 ≤ rand_seq σ k) → Forall (λ v, 0 ≤ v < 1000) (random_values σ n).
Proof.
  intros Hrand. unfold random_values. apply Forall_fmap, list.Forall_forall.
  intros i _. simpl. apply Z.rem_bound_pos; [apply Hrand|lia].
Qed.

Lemma random_values_is_int σ n :
  (∀ k, 0 ≤ rand_seq σ k) → Forall is_int (random_values σ n).
Proof.
  intros Hrand. eapply list.Forall_impl; [by apply random_values_range|].
  intros v Hv. simpl in Hv. unfold is_int, INT_MIN, INT_MAX. lia.
Qed.

Lemma delete_array_Some σ p (l : list Z) :
  heap σ !! p = Some l → delete_array p σ = Some ((), set_heap σ (delete p (heap σ))).
Proof. intros Hp. unfold delete_array. by rewrite Hp. Qed.

(** The filling loop of [createBinaryFile] on a new vector. *)
Lemma fill_random σ p (n : nat) :
  heap σ !! p = Some (replicate n 0) →
  for_range 0 (Z.of_nat n) (λ i _, r ← rand; store p i (r `rem` 1000)) () σ
  = Some ((), World (<[p := random_values σ n]> (heap σ)) (rand_seq σ)
                    (rand_calls σ + n)).
Proof.
  intros Hp.
  destruct (for_range_inv
    (λ i (_ : unit) σ', ∃ k : nat, i = Z.of_nat k ∧ (k ≤ n)%nat ∧
       σ' = World (<[p := random_values σ k ++ replicate (n - k) 0]> (heap σ))
                  (rand_seq σ) (rand_calls σ + k))
    (λ i _, r ← rand; store p i (r `rem` 1000)) 0 (Z.of_nat n) () σ)
    as ([] & σ' & Hloop & k & Hk & _ & ->).
  - lia.
  - exists 0%nat. split; [done|]. split; [lia|].
    rewrite Nat.sub_0_r, Nat.add_0_r. cbn [random_values seq fmap list_fmap app].
    rewrite insert_id by done. by destruct σ.
  - intros i [] σ1 Hi (k & -> & Hk & ->).
    exists (), (World (<[p := random_values σ (S k) ++ replicate (n - S k) 0]> (heap σ))
                  (rand_seq σ) (rand_calls σ + S k)).
    split; [|exists (S k); split; [lia|split; [lia|done]]].
    erewrite bind_Some; [|reflexivity]. cbn [heap rand_seq rand_calls].
    erewrite store_Some; cycle 1.
    { cbn [heap]. by rewrite lookup_insert_eq. }
    { rewrite length_app, length_random_values, length_replicate. lia. }
    unfold set_heap. cbn [heap rand_seq rand_calls].
    rewrite insert_insert_eq, Nat2Z.id.
    replace (n - k)%nat with (S (n - S k)) by lia. cbn [replicate].
    rewrite <- (Nat.add_0_r k) at 1.
    rewrite <- (length_random_values σ k) at 1. rewrite insert_app_r. cbn [insert list_insert].
    rewrite random_values_S, <- app_assoc. cbn [app].
    by rewrite Nat.add_succ_r.
  - assert (k = n) as -> by lia. rewrite Hloop.
    by rewrite Nat.sub_diag, app_nil_r.
Qed.

Lemma createBinaryFile_Some `{!FileSystem} m name length :
  0 ≤ length →
  createBinaryFile name length m
  = Some ((), Machine (World (heap (mem m)) (rand_seq (mem m))
                         (rand_calls (mem m) + Z.to_nat length))
                (if can_write name && can_read name
                 then <[name := int_bytes length
                                ++ bytes_of_ints (random_values (mem m) (Z.to_nat length))]>
                        (files m)
                 else files m)
                (console m)).
Proof.
  intros Hlen. unfold createBinaryFile.
  set (p := fresh (dom (heap (mem m)))).
  pose proof (fresh_heap (heap (mem m))) as Hfresh. fold p in Hfresh.
  erewrite IO_bind_Some; cycle 1.
  { apply lift_Some. by apply new_int_array_Some. }
  fold p. erewrite IO_bind_Some; cycle 1.
  { apply lift_Some. cbn [mem]. rewrite <- (Z2Nat.id length) at 1 by lia.
    apply fill_random. by rewrite heap_set_heap, lookup_insert_eq. }
  cbn [mem files console]. rewrite heap_set_heap, insert_insert_eq.
  set (data := random_values _ _).
  assert (Hdata : List.length data = Z.to_nat length) by apply length_random_values.
  set (σ := World (<[p := data]> (heap (mem m))) _ _).
  assert (Hdel : delete_array p σ
    = Some ((), World (heap (mem m)) (rand_seq (mem m))
                  (rand_calls (mem m) + Z.to_nat length))).
  { rewrite (delete_array_Some σ p data) by apply lookup_insert_eq.
    unfold σ, set_heap. cbn [heap rand_seq rand_calls].
    by rewrite delete_insert_id. }
  destruct (can_write name) eqn:Hw; [destruct (can_read name) eqn:Hr|]; cbn [andb].
  - erewrite IO_bind_Some; cycle 1.
    { apply (writeBinary_writable _ p data length name Hw Hr).
      - cbn [mem]. apply lookup_insert_eq.
      - lia. }
    erewrite lift_Some; [|cbn [mem]; exact Hdel]. cbn [files console].
    by rewrite take_ge by lia.
  - erewrite IO_bind_Some; cycle 1.
    { apply (writeBinary_unreadable _ p data length name Hw Hr).
      - cbn [mem]. apply lookup_insert_eq.
      - lia. }
    erewrite lift_Some; [|cbn [mem]; exact Hdel]. done.
  - rewrite (IO_bind_Some _ _ _ _ _ (writeBinary_unwritable _ p length name Hw)).
    erewrite lift_Some; [|cbn [mem]; exact Hdel]. done.
Qed.

(** ** The whole program *)

Lemma BinaryReader_new_written m name n (data : list Z) :
  files m !! name = Some (int_bytes n ++ bytes_of_ints data) →
  Z.of_nat (length data) = n → is_int n → Forall is_int data →
  BinaryReader.new name m
  = Some (BinaryReader.Build (fresh (dom (heap (mem m)))) n,
          Machine (set_heap (mem m) (<[fresh (dom (heap (mem m))) := data]> (heap (mem m))))
                  (files m) (console m)).
Proof.
  intros Hfile Hlen Hn Hdata.
  pose proof (BinaryReader_new_header m name (int_bytes n) (bytes_of_ints data)) as H.
  rewrite (bytes_int_int_bytes n Hn) in H.
  rewrite H; [|done|done|lia].
  rewrite take_ge by (rewrite length_bytes_of_ints; lia).
  rewrite drop_ge by (rewrite !length_bytes_of_ints, length_replicate; lia).
  by rewrite ints_of_bytes_of_ints, app_nil_r.
Qed.

Lemma lookup_insert_fresh (h : gmap positive (list Z)) q l v :
  h !! q = Some l → <[fresh (dom h) := v]> h !! q = Some l.
Proof.
  intros Hq. rewrite lookup_insert_ne; [done|].
  intros E. pose proof (fresh_heap h) as Hf. rewrite E in Hf. congruence.
Qed.

Lemma main_data_length `{!Platform} : length main_data = 1000%nat.
Proof. unfold main_data. by rewrite length_fmap, length_seq. Qed.

Lemma main_data_range `{!Platform} : Forall (λ v, 0 ≤ v < 1000) main_data.
Proof.
  unfold main_data. apply Forall_fmap, list.Forall_forall.
  intros i _. simpl. apply Z.rem_bound_pos; [apply seeded_nonneg|lia].
Qed.

Lemma main_keys_range `{!Platform} : Forall (λ v, 0 ≤ v < 1000) main_keys.
Proof.
  unfold main_keys. apply Forall_fmap, list.Forall_forall.
  intros i _. simpl. apply Z.rem_bound_pos; [apply seeded_nonneg|lia].
Qed.

Lemma main_data_is_int `{!Platform} : Forall is_int main_data.
Proof.
  eapply list.Forall_impl; [apply main_data_range|].
  intros v Hv. simpl in Hv. unfold is_int, INT_MIN, INT_MAX. lia.
Qed.

(** The analysis part of [main]: four analyzers over the reader's array,
    each printed, then the five arrays released. *)
Lemma analyses_Some `{!UnorderedIteration} `{!Platform} (h : gmap positive (list Z)) sd c fs out
    (data : list Z) :
  let pb := fresh (dom h) in
  let br := BinaryReader.Build pb (Z.of_nat (length data)) in
  (sa ← lift (StatisticsAnalyzer.new (BinaryReader.getValues br) (BinaryReader.getSize br));
   r ← lift (StatisticsAnalyzer.analyze sa);
   _ ← print (report_text show_double r +:+ newline);
   da ← lift (DuplicateAnalyzer.new (BinaryReader.getValues br) (BinaryReader.getSize br));
   r ← lift (DuplicateAnalyzer.analyze da);
   _ ← print (report_text show_double r +:+ newline);
   ma ← lift (MissingAnalyzer.new (BinaryReader.getValues br) (BinaryReader.getSize br));
   r ← lift (MissingAnalyzer.analyze ma);
   _ ← print (report_text show_double r +:+ newline);
   ra ← lift (SearchAnalyzer.new (BinaryReader.getValues br) (BinaryReader.getSize br));
   r ← lift (SearchAnalyzer.analyze ra);
   _ ← print (report_text show_double r +:+ newline);
   _ ← Analyzer_destructor ra;
   _ ← Analyzer_destructor ma;
   _ ← Analyzer_destructor da;
   _ ← Analyzer_destructor sa;
   _ ← BinaryReader.destructor br;
   mret 0) (Machine (World (<[pb := data]> h) sd c) fs out)
  = Some (0, Machine (World h sd (c + 100)) fs
               (foldl (λ out r, out +:+ (report_text show_double r +:+ newline)) out
                  (reports_of data (random_values (World h sd c) 100)))).
Proof.
  intros pb br. unfold br, BinaryReader.getValues, BinaryReader.getSize.
  cbn [BinaryReader.values BinaryReader.size].
  pose proof (fresh_heap h) as Hpb. fold pb in Hpb.
  set (s := merge_sort Z.le data).
  assert (Hslen : length s = length data).
  { apply Permutation_length. unfold s. by rewrite merge_sort_Permutation. }
  assert (Hsorted : Sorted Z.le s) by (apply Sorted_merge_sort, _).
  assert (Hstat : ∀ σ p, heap σ !! p = Some s →
    StatisticsAnalyzer.analyze (Analyzer.Build p (Z.of_nat (length data))) σ
    = Some (statistics_of data, σ)).
  { intros σ p Hp. unfold statistics_of. fold s. case_decide as Hnil.
    - rewrite Hnil. reflexivity.
    - rewrite <- Hslen. apply StatisticsAnalyzer_analyze_Some; [done| |apply surjective_pairing].
      intros E. apply Hnil, length_zero_iff_nil. by rewrite <- Hslen, E. }
  set (h1 := <[pb := data]> h).
  assert (H1 : h1 !! pb = Some data) by apply lookup_insert_eq.
  (* the statistics analyzer *)
  set (ps := fresh (dom h1)). set (h2 := <[ps := s]> h1).
  assert (Hps : h1 !! ps = None) by apply fresh_heap.
  assert (H2 : h2 !! pb = Some data) by by apply lookup_insert_fresh.
  destruct (sorting_new_Some (World h1 sd c) pb data H1) as (s' & Hsa & _ & _ & Hperm & Hs').
  pose proof (Sorted_perm_merge_sort s' data Hperm Hs') as ->. fold s in Hsa.
  cbn [heap] in Hsa. fold ps h2 in Hsa. unfold set_heap in Hsa. cbn [rand_seq rand_calls] in Hsa.
  rewrite (IO_bind_Some _ _ _ _ _ (lift_Some _ (Machine (World h1 sd c) fs out) _ _ Hsa)).
  cbn [files console].
  erewrite IO_bind_Some; cycle 1.
  { apply lift_Some. cbn [mem]. apply (Hstat (World h2 sd c) ps), lookup_insert_eq. }
  cbn [files console].
  rewrite (IO_bind_Some (print _) _ _ () _ eq_refl). cbn [mem files console].
  (* the duplicate analyzer *)
  set (pd := fresh (dom h2)). set (h3 := <[pd := data]> h2).
  assert (Hpd : h2 !! pd = None) by apply fresh_heap.
  assert (H3 : h3 !! pb = Some data) by by apply lookup_insert_fresh.
  destruct (Analyzer_new_Some (World h2 sd c) pb data H2) as [Hda _].
  cbn [heap] in Hda. fold pd h3 in Hda. unfold set_heap in Hda. cbn [rand_seq rand_calls] in Hda.
  erewrite IO_bind_Some; cycle 1.
  { apply lift_Some. cbn [mem]. exact Hda. }
  cbn [files console].
  erewrite IO_bind_Some; cycle 1.
  { apply lift_Some. cbn [mem].
    apply (DuplicateAnalyzer_analyze_Some (World h3 sd c) pd data), lookup_insert_eq. }
  cbn [files console].
  rewrite (IO_bind_Some (print _) _ _ () _ eq_refl). cbn [mem files console].
  (* the missing-values analyzer *)
  set (pm := fresh (dom h3)). set (h4 := <[pm := data]> h3).
  assert (Hpm : h3 !! pm = None) by apply fresh_heap.
  assert (H4 : h4 !! pb = Some data) by by apply lookup_insert_fresh.
  destruct (Analyzer_new_Some (World h3 sd c) pb data H3) as [Hma _].
  cbn [heap] in Hma. fold pm h4 in Hma. unfold set_heap in Hma. cbn [rand_seq rand_calls] in Hma.
  erewrite IO_bind_Some; cycle 1.
  { apply lift_Some. cbn [mem]. exact Hma. }
  cbn [files console].
  erewrite IO_bind_Some; cycle 1.
  { apply lift_Some. cbn [mem].
    apply (MissingAnalyzer_analyze_Some (World h4 sd c) pm data), lookup_insert_eq. }
  cbn [files console].
  rewrite (IO_bind_Some (print _) _ _ () _ eq_refl). cbn [mem files console].
  (* the search analyzer *)
  set (pr := fresh (dom h4)). set (h5 := <[pr := s]> h4).
  assert (Hpr : h4 !! pr = None) by apply fresh_heap.
  destruct (sorting_new_Some (World h4 sd c) pb data H4) as (s' & _ & Hra & _ & Hperm' & Hs'').
  pose proof (Sorted_perm_merge_sort s' data Hperm' Hs'') as ->. fold s in Hra.
  cbn [heap] in Hra. fold pr h5 in Hra. unfold set_heap in Hra. cbn [rand_seq rand_calls] in Hra.
  erewrite IO_bind_Some; cycle 1.
  { apply lift_Some. cbn [mem]. exact Hra. }
  cbn [files console].
  erewrite IO_bind_Some; cycle 1.
  { apply lift_Some. cbn [mem]. rewrite <- Hslen.
    apply (SearchAnalyzer_analyze_Some (World h5 sd c) pr s); [apply lookup_insert_eq|done]. }
  cbn [files console heap rand_seq rand_calls].
  rewrite (IO_bind_Some (print _) _ _ () _ eq_refl). cbn [mem files console].
  (* the destructors, in reverse order of construction *)
  unfold Analyzer_destructor, BinaryReader.destructor.
  cbn [Analyzer.values BinaryReader.values].
  erewrite IO_bind_Some; cycle 1.
  { apply lift_Some. cbn [mem]. apply (delete_array_Some _ pr s), lookup_insert_eq. }
  unfold set_heap. cbn [heap rand_seq rand_calls files console]. unfold h5 at 1.
  rewrite (delete_insert_id h4 pr s Hpr).
  erewrite IO_bind_Some; cycle 1.
  { apply lift_Some. cbn [mem]. apply (delete_array_Some _ pm data), lookup_insert_eq. }
  unfold set_heap. cbn [heap rand_seq rand_calls files console]. unfold h4 at 1.
  rewrite (delete_insert_id h3 pm data Hpm).
  erewrite IO_bind_Some; cycle 1.
  { apply lift_Some. cbn [mem]. apply (delete_array_Some _ pd data), lookup_insert_eq. }
  unfold set_heap. cbn [heap rand_seq rand_calls files console]. unfold h3 at 1.
  rewrite (delete_insert_id h2 pd data Hpd).
  erewrite IO_bind_Some; cycle 1.
  { apply lift_Some. cbn [mem]. apply (delete_array_Some _ ps s), lookup_insert_eq. }
  unfold set_heap. cbn [heap rand_seq rand_calls files console]. unfold h2 at 1.
  rewrite (delete_insert_id h1 ps s Hps).
  erewrite IO_bind_Some; cycle 1.
  { apply lift_Some. cbn [mem]. apply (delete_array_Some _ pb data), lookup_insert_eq. }
  unfold set_heap. cbn [heap rand_seq rand_calls files console]. unfold h1 at 1.
  rewrite (delete_insert_id h pb data Hpb).
  unfold mret, IO_ret, reports_of. cbn [foldl].
  rewrite (list_filter_iff (λ k, k ∈ s) (λ k, k ∈ data))
    by (intros k; unfold s; by rewrite merge_sort_Permutation).
  reflexivity.
Qed.

(** [main], given what the reader finds in [binary.dat] once
    [createBinaryFile] has returned. *)
Lemma main_with_data `{!UnorderedIteration} `{!Platform} `{!FileSystem} m (data : list Z) :
  let fs := if can_write "binary.dat" && can_read "binary.dat"
            then <["binary.dat" := int_bytes SIZE ++ bytes_of_ints main_data]> (files m)
            else files m in
  let pb := fresh (dom (heap (mem m))) in
  (∀ out, BinaryReader.new "binary.dat"
            (Machine (World (heap (mem m)) (seeded main_seed) 1000) fs out)
          = Some (BinaryReader.Build pb (Z.of_nat (length data)),
                  Machine (World (<[pb := data]> (heap (mem m))) (seeded main_seed) 1000)
                          fs out)) →
  main m
  = Some (0, Machine (World (heap (mem m)) (seeded main_seed) 1100) fs
               (console_after (console m) data)).
Proof.
  intros fs pb Hreader. unfold main.
  rewrite (IO_bind_Some (print _) _ _ () _ eq_refl). cbn [mem files console].
  rewrite (IO_bind_Some (lift (srand _)) _ _ () _ eq_refl). cbn [mem files console].
  fold main_seed.
  erewrite IO_bind_Some; cycle 1.
  { by apply createBinaryFile_Some. }
  cbn [mem files console heap rand_seq rand_calls].
  change (random_values _ (Z.to_nat SIZE)) with main_data.
  change (0 + Z.to_nat SIZE)%nat with 1000%nat. fold fs.
  rewrite (IO_bind_Some _ _ _ _ _ (Hreader _)).
  apply (analyses_Some (heap (mem m)) (seeded main_seed) 1000 fs _ data).
Qed.

Lemma main_Some `{!UnorderedIteration} `{!Platform} `{!FileSystem} m :
  can_write "binary.dat" = true → can_read "binary.dat" = true →
  main m
  = Some (0, Machine (World (heap (mem m)) (seeded main_seed) 1100)
               (<["binary.dat" := int_bytes SIZE ++ bytes_of_ints main_data]> (files m))
               (main_console (console m))).
Proof.
  intros Hw Hr. pose proof (main_with_data m main_data) as Hmain.
  cbv zeta in Hmain. rewrite Hw, Hr in Hmain. apply Hmain. intros out.
  assert (Hlen : Z.of_nat (length main_data) = SIZE) by by rewrite main_data_length.
  rewrite Hlen.
  rewrite (BinaryReader_new_written
             (Machine (World (heap (mem m)) (seeded main_seed) 1000) _ out)
             "binary.dat" SIZE main_data); [reflexivity|..].
  - cbn [files]. apply lookup_insert_eq.
  - done.
  - unfold is_int, INT_MIN, INT_MAX, SIZE. lia.
  - apply main_data_is_int.
Qed.

(** When [binary.dat] cannot be opened for writing, or cannot be read once
    written, the reader sees what was there before. *)
Lemma main_unwritable_missing `{!UnorderedIteration} `{!Platform} `{!FileSystem} m :
  can_write "binary.dat" && can_read "binary.dat" = false →
  files m !! "binary.dat" = None →
  main m
  = Some (0, Machine (World (heap (mem m)) (seeded main_seed) 1100) (files m)
               (console_after (console m) [])).
Proof.
  intros Hw Hfile. pose proof (main_with_data m []) as Hmain.
  cbv zeta in Hmain. rewrite Hw in Hmain. apply Hmain. intros out.
  pose proof (readValues_Some
    (Machine (World (heap (mem m)) (seeded main_seed) 1000) (files m) out)
    "binary.dat" [] 0) as Hread.
  cbn [files] in Hread. rewrite Hfile in Hread. by apply Hread.
Qed.

Lemma main_unwritable_old `{!UnorderedIteration} `{!Platform} `{!FileSystem} m (data : list Z) :
  can_write "binary.dat" && can_read "binary.dat" = false →
  files m !! "binary.dat" = Some (int_bytes (Z.of_nat (length data)) ++ bytes_of_ints data) →
  is_int (Z.of_nat (length data)) → Forall is_int data →
  main m
  = Some (0, Machine (World (heap (mem m)) (seeded main_seed) 1100) (files m)
               (console_after (console m) data)).
Proof.
  intros Hw Hfile Hlen Hdata. pose proof (main_with_data m data) as Hmain.
  cbv zeta in Hmain. rewrite Hw in Hmain. apply Hmain. intros out.
  by rewrite (BinaryReader_new_written
                (Machine (World (heap (mem m)) (seeded main_seed) 1000) (files m) out)
                "binary.dat" (Z.of_nat (length data)) data).
Qed.

(** * Further properties of the primitives and of the analyzers *)

(** ** Search without the sortedness assumption *)

Lemma binary_search_recursive_any σ p (l : list Z) key :
  heap σ !! p = Some l →
  ∀ start end_, 0 ≤ start → end_ < Z.of_nat (length l) →
  ∃ b, binary_search_recursive p key start end_ σ = Some (b, σ)
     ∧ (b = true → ∃ k, start ≤ Z.of_nat k ≤ end_ ∧ l !!! k = key).
Proof.
  intros Hp start end_.
  remember (Z.to_nat (end_ - start + 1)) as w eqn:Hw.
  revert start end_ Hw.
  induction (lt_wf w) as [w _ IH]. intros start end_ -> Hstart Hend.
  rewrite binary_search_recursive_body.
  destruct (decide (start > end_)) as [Hgt|Hle].
  { exists false. split; [done|]. done. }
  pose proof (quot2_bounds (end_ - start) ltac:(lia)) as Hq.
  set (mid := start + (end_ - start) `quot` 2) in *.
  rewrite (load_Some σ p l mid Hp) by lia.
  destruct (decide (l !!! Z.to_nat mid = key)) as [Heq|Hne].
  { exists true. split; [done|]. intros _. exists (Z.to_nat mid). split; [lia|done]. }
  destruct (decide (l !!! Z.to_nat mid > key)) as [Hgt|Hngt].
  - destruct (IH (Z.to_nat (mid - 1 - start + 1)) ltac:(lia) start (mid - 1) eq_refl)
      as (b & Hrun & Hb); [lia..|].
    exists b. split; [done|]. intros Htrue.
    destruct (Hb Htrue) as (k & Hk & Hkey). exists k. split; [lia|done].
  - destruct (IH (Z.to_nat (end_ - (mid + 1) + 1)) ltac:(lia) (mid + 1) end_ eq_refl)
      as (b & Hrun & Hb); [lia..|].
    exists b. split; [done|]. intros Htrue.
    destruct (Hb Htrue) as (k & Hk & Hkey). exists k. split; [lia|done].
Qed.

(** X5.  [binary_search] needs the sortedness only for completeness.  On
    any array, sorted or not, and any size from 0 up to the array's length,
    the search stays inside the first [size] elements, returns, changes
    nothing, and answers [true] only for a key that is among those
    elements. *)
Theorem binary_search_sound_unsorted σ values (l : list Z) size key :
  heap σ !! values = Some l → 0 ≤ size ≤ Z.of_nat (length l) →
  ∃ b, binary_search values size key σ = Some (b, σ)
     ∧ (b = true → key ∈ take (Z.to_nat size) l).
Proof.
  intros Hp Hn. unfold binary_search.
  destruct (binary_search_recursive_any σ values l key Hp 0 (size - 1)) as (b & Hrun & Hb);
    [lia..|].
  exists b. split; [done|]. intros Htrue. destruct (Hb Htrue) as (k & Hk & Hkey).
  apply elem_of_take. exists k. split; [|lia].
  rewrite <- Hkey. apply list_lookup_lookup_total_lt. lia.
Qed.

Lemma binary_search_sound_unsorted_witness :
  heap (sample_world [9; 2; 7; 4]) !! 1%positive = Some [9; 2; 7; 4]
  ∧ 0 ≤ 3 ≤ Z.of_nat (length [9; 2; 7; 4])
  ∧ ∃ b, binary_search 1%positive 3 9 (sample_world [9; 2; 7; 4])
         = Some (b, sample_world [9; 2; 7; 4])
       ∧ (b = true → 9 ∈ take (Z.to_nat 3) [9; 2; 7; 4]).
Proof.
  split; [reflexivity|]. split; [simpl; lia|].
  apply (binary_search_sound_unsorted (sample_world [9; 2; 7; 4]) 1%positive [9; 2; 7; 4] 3 9);
    [reflexivity|simpl; lia].
Defined.

(** ** Sorting what is sorted, and searching what was sorted *)

Lemma selection_sort_merge_sort σ p (l : list Z) :
  heap σ !! p = Some l →
  selection_sort p (Z.of_nat (length l)) σ
  = Some ((), set_heap σ (<[p := merge_sort Z.le l]> (heap σ))).
Proof.
  intros Hp. destruct (selection_sort_Some σ p l Hp) as (l' & Hrun & Hperm & Hsorted).
  by rewrite <- (Sorted_perm_merge_sort l' l Hperm Hsorted).
Qed.

Lemma merge_sort_sorted (l : list Z) : Sorted Z.le l → merge_sort Z.le l = l.
Proof. intros Hs. symmetry. by apply Sorted_perm_merge_sort. Qed.

(** X6.  [selection_sort] on an array that is already in ascending order
    changes nothing, and so sorting twice is the same as sorting once. *)
Theorem selection_sort_idempotent σ values (l : list Z) :
  heap σ !! values = Some l →
  let size := Z.of_nat (length l) in
  (Sorted Z.le l → selection_sort values size σ = Some ((), σ))
  ∧ (selection_sort values size ≫= λ _, selection_sort values size) σ
    = selection_sort values size σ.
Proof.
  intros Hp size. split.
  - intros Hs. unfold size. rewrite (selection_sort_merge_sort σ values l Hp).
    by rewrite (merge_sort_sorted l Hs), insert_id, set_heap_id.
  - unfold size. rewrite (bind_Some _ _ _ _ _ (selection_sort_merge_sort σ values l Hp)).
    rewrite (selection_sort_merge_sort σ values l Hp).
    assert (Hlen : length (merge_sort Z.le l) = length l).
    { apply Permutation_length, merge_sort_Permutation. }
    rewrite <- Hlen.
    rewrite (selection_sort_merge_sort _ values (merge_sort Z.le l))
      by (by rewrite heap_set_heap, lookup_insert_eq).
    rewrite (merge_sort_sorted (merge_sort Z.le l)) by apply Sorted_merge_sort, _.
    by rewrite set_heap_set_heap, heap_set_heap, insert_insert_eq.
Qed.

Lemma selection_sort_idempotent_witness :
  heap (sample_world [1; 2; 2; 5]) !! 1%positive = Some [1; 2; 2; 5]
  ∧ (Sorted Z.le [1; 2; 2; 5] →
     selection_sort 1%positive (Z.of_nat (length [1; 2; 2; 5])) (sample_world [1; 2; 2; 5])
     = Some ((), sample_world [1; 2; 2; 5]))
  ∧ (selection_sort 1%positive (Z.of_nat (length [1; 2; 2; 5]))
       ≫= λ _, selection_sort 1%positive (Z.of_nat (length [1; 2; 2; 5])))
      (sample_world [1; 2; 2; 5])
    = selection_sort 1%positive (Z.of_nat (length [1; 2; 2; 5])) (sample_world [1; 2; 2; 5]).
Proof.
  split; [reflexivity|].
  apply (selection_sort_idempotent (sample_world [1; 2; 2; 5]) 1%positive [1; 2; 2; 5]).
  reflexivity.
Defined.

(** X7.  Sorting an array and then searching it decides membership in the
    array as it was before the sort: the two primitives compose to a
    membership test for any array whatever. *)
Theorem sort_then_search σ values (l : list Z) key :
  heap σ !! values = Some l →
  let size := Z.of_nat (length l) in
  (selection_sort values size ≫= λ _, binary_search values size key) σ
  = Some (bool_decide (key ∈ l),
          set_heap σ (<[values := merge_sort Z.le l]> (heap σ))).
Proof.
  intros Hp size. unfold size.
  rewrite (bind_Some _ _ _ _ _ (selection_sort_merge_sort σ values l Hp)).
  assert (Hlen : length (merge_sort Z.le l) = length l).
  { apply Permutation_length, merge_sort_Permutation. }
  rewrite (binary_search_Some _ values (merge_sort Z.le l)).
  - rewrite Nat2Z.id, <- Hlen, firstn_all. do 2 f_equal.
    apply bool_decide_ext. by rewrite merge_sort_Permutation.
  - by rewrite heap_set_heap, lookup_insert_eq.
  - lia.
  - rewrite Nat2Z.id, <- Hlen, firstn_all. apply Sorted_merge_sort, _.
Qed.

Lemma sort_then_search_witness :
  heap (sample_world [3; 1; 2]) !! 1%positive = Some [3; 1; 2]
  ∧ (selection_sort 1%positive (Z.of_nat (length [3; 1; 2]))
       ≫= λ _, binary_search 1%positive (Z.of_nat (length [3; 1; 2])) 2)
      (sample_world [3; 1; 2])
    = Some (bool_decide (2 ∈ [3; 1; 2]),
            set_heap (sample_world [3; 1; 2])
              (<[1%positive := merge_sort Z.le [3; 1; 2]]> (heap (sample_world [3; 1; 2])))).
Proof.
  split; [reflexivity|].
  apply (sort_then_search (sample_world [3; 1; 2]) 1%positive [3; 1; 2] 2). reflexivity.
Defined.

(** ** Construction with any size, and destruction *)

Lemma Analyzer_new_prefix σ src (l : list Z) n :
  heap σ !! src = Some l → 0 ≤ n ≤ Z.of_nat (length l) →
  Analyzer.new src n σ
  = Some (Analyzer.Build (fresh (dom (heap σ))) n,
          set_heap σ (<[fresh (dom (heap σ)) := take (Z.to_nat n) l]> (heap σ))).
Proof.
  intros Hsrc Hn. set (p := fresh (dom (heap σ))).
  pose proof (fresh_heap (heap σ)) as Hfresh. fold p in Hfresh.
  assert (Hne : p ≠ src) by (intros ->; congruence).
  unfold Analyzer.new, Analyzer.cloneValues.
  rewrite (bind_Some _ _ _ _ _ (new_int_array_Some σ n ltac:(lia))). fold p.
  assert (Hcopy : std_copy src n p (set_heap σ (<[p := replicate (Z.to_nat n) 0]> (heap σ)))
    = Some ((), set_heap σ (<[p := take (Z.to_nat n) l]> (heap σ)))).
  { unfold std_copy. case_decide as Hz.
    { by subst n. }
    rewrite heap_set_heap, (lookup_insert_ne _ p src), Hsrc by done. simpl.
    rewrite lookup_insert_eq. simpl.
    rewrite decide_True by (rewrite length_replicate; lia).
    rewrite drop_ge, app_nil_r by (by rewrite length_replicate).
    by rewrite set_heap_set_heap, insert_insert_eq. }
  by rewrite (bind_Some _ _ _ _ _ Hcopy).
Qed.

(** Every constructor, for every size that the caller's array covers. *)
Lemma construct_Some (v : variant) σ src (l : list Z) n :
  heap σ !! src = Some l → 0 ≤ n ≤ Z.of_nat (length l) →
  construct v src n σ
  = Some (Analyzer.Build (fresh (dom (heap σ))) n,
          set_heap σ (<[fresh (dom (heap σ)) := own_copy v (take (Z.to_nat n) l)]> (heap σ))).
Proof.
  intros Hsrc Hn. pose proof (Analyzer_new_prefix σ src l n Hsrc Hn) as Hnew.
  set (p := fresh (dom (heap σ))) in *.
  assert (Hlen : Z.of_nat (length (take (Z.to_nat n) l)) = n) by (rewrite length_take; lia).
  assert (Hsort : selection_sort p n (set_heap σ (<[p := take (Z.to_nat n) l]> (heap σ)))
    = Some ((), set_heap σ (<[p := merge_sort Z.le (take (Z.to_nat n) l)]> (heap σ)))).
  { rewrite <- Hlen at 1. rewrite (selection_sort_merge_sort _ p (take (Z.to_nat n) l))
      by (by rewrite heap_set_heap, lookup_insert_eq).
    by rewrite set_heap_set_heap, heap_set_heap, insert_insert_eq. }
  destruct v; cbn [construct own_copy];
    unfold StatisticsAnalyzer.new, DuplicateAnalyzer.new, MissingAnalyzer.new,
      SearchAnalyzer.new; try done;
    rewrite (bind_Some _ _ _ _ _ Hnew); cbn [Analyzer.values Analyzer.size];
    by rewrite (bind_Some _ _ _ _ _ Hsort).
Qed.

Lemma Analyzer_new_None σ src (l : list Z) n :
  heap σ !! src = Some l → ¬ (0 ≤ n ≤ Z.of_nat (length l)) →
  Analyzer.new src n σ = None.
Proof.
  intros Hsrc Hn. unfold Analyzer.new, Analyzer.cloneValues.
  destruct (decide (0 ≤ n)) as [Hpos|Hneg].
  - rewrite (bind_Some _ _ _ _ _ (new_int_array_Some σ n Hpos)).
    set (p := fresh (dom (heap σ))).
    pose proof (fresh_heap (heap σ)) as Hfresh. fold p in Hfresh.
    assert (Hne : p ≠ src) by (intros ->; congruence).
    unfold mbind at 1, M_bind at 1, std_copy.
    rewrite decide_False by lia.
    rewrite heap_set_heap, (lookup_insert_ne _ p src), Hsrc by done. simpl.
    rewrite lookup_insert_eq. simpl. by rewrite decide_False by lia.
  - unfold mbind at 1, M_bind at 1, new_int_array. by rewrite decide_False.
Qed.

(** X8.  Over an existing array, a constructor of any of the four classes
    has a result exactly when the size is between 0 and the length of the
    array: a negative size has no allocation, a larger one copies from
    beyond the array. *)
Theorem construct_defined_iff (v : variant) σ values (l : list Z) size :
  heap σ !! values = Some l →
  is_Some (construct v values size σ) ↔ 0 ≤ size ≤ Z.of_nat (length l).
Proof.
  intros Hsrc. split.
  - intros Hsome. destruct (decide (0 ≤ size ≤ Z.of_nat (length l))) as [|Hn]; [done|].
    exfalso. pose proof (Analyzer_new_None σ values l size Hsrc Hn) as Hnone.
    destruct v; cbn [construct] in Hsome;
      unfold StatisticsAnalyzer.new, DuplicateAnalyzer.new, MissingAnalyzer.new,
        SearchAnalyzer.new in Hsome;
      try (rewrite Hnone in Hsome; by destruct Hsome);
      unfold mbind at 1, M_bind at 1 in Hsome; rewrite Hnone in Hsome; by destruct Hsome.
  - intros Hn. by rewrite (construct_Some v σ values l size Hsrc Hn).
Qed.

Lemma construct_defined_iff_witness :
  heap (sample_world [4; 8; 6]) !! 1%positive = Some [4; 8; 6]
  ∧ (is_Some (construct Search 1%positive 4 (sample_world [4; 8; 6]))
     ↔ 0 ≤ 4 ≤ Z.of_nat (length [4; 8; 6])).
Proof.
  split; [reflexivity|].
  apply (construct_defined_iff Search (sample_world [4; 8; 6]) 1%positive [4; 8; 6] 4).
  reflexivity.
Defined.

(** X9.  Constructing an analyzer and destroying it leaves the machine as
    it was: the array that the constructor allocated is the one that the
    destructor releases, and nothing else is touched. *)
Theorem construct_destroy (v : variant) m values (l : list Z) size :
  heap (mem m) !! values = Some l → 0 ≤ size ≤ Z.of_nat (length l) →
  (lift (construct v values size) ≫= Analyzer_destructor) m = Some ((), m).
Proof.
  intros Hsrc Hn.
  erewrite IO_bind_Some; [|by apply lift_Some, construct_Some].
  unfold Analyzer_destructor. cbn [Analyzer.values].
  erewrite lift_Some; cycle 1.
  { cbn [mem]. eapply delete_array_Some. by rewrite heap_set_heap, lookup_insert_eq. }
  rewrite set_heap_set_heap, heap_set_heap.
  rewrite delete_insert_id by apply fresh_heap.
  rewrite set_heap_id. by destruct m.
Qed.

Lemma construct_destroy_witness :
  heap (mem (sample_machine [4; 8; 6] ∅)) !! 1%positive = Some [4; 8; 6]
  ∧ 0 ≤ 2 ≤ Z.of_nat (length [4; 8; 6])
  ∧ (lift (construct Statistics 1%positive 2) ≫= Analyzer_destructor)
      (sample_machine [4; 8; 6] ∅)
    = Some ((), sample_machine [4; 8; 6] ∅).
Proof.
  split; [reflexivity|]. split; [simpl; lia|].
  apply (construct_destroy Statistics (sample_machine [4; 8; 6] ∅) 1%positive [4; 8; 6] 2);
    [reflexivity|simpl; lia].
Defined.

(** X10.  An analyzer constructed with a size smaller than the caller's
    array analyses the first [size] elements and nothing else: its report
    is the one it gives when the caller's array holds those elements
    alone. *)
Theorem run_prefix `{!UnorderedIteration} (v : variant) σ values (l : list Z) size :
  heap σ !! values = Some l → 0 ≤ size ≤ Z.of_nat (length l) →
  ∃ r σ1 σ2,
    run v values size σ = Some (r, σ1)
    ∧ run v values size (set_heap σ (<[values := take (Z.to_nat size) l]> (heap σ)))
      = Some (r, σ2).
Proof.
  intros Hsrc Hn. set (l' := take (Z.to_nat size) l).
  assert (Hlen : Z.of_nat (length l') = size) by (unfold l'; rewrite length_take; lia).
  set (σt := set_heap σ (<[values := l']> (heap σ))).
  assert (Hsrct : heap σt !! values = Some l') by apply lookup_insert_eq.
  assert (Hdom : dom (heap σt) = dom (heap σ)).
  { unfold σt. rewrite heap_set_heap. apply dom_insert_lookup_L. by rewrite Hsrc. }
  pose proof (construct_Some v σ values l size Hsrc Hn) as Hc. fold l' in Hc.
  pose proof (construct_Some v σt values l' size Hsrct ltac:(lia)) as Hct.
  rewrite Hdom in Hct. replace (take (Z.to_nat size) l') with l' in Hct
    by (unfold l'; by rewrite take_take, Nat.min_id).
  set (p := fresh (dom (heap σ))) in *. set (c := own_copy v l') in *.
  assert (Hclen : Z.of_nat (length c) = size).
  { rewrite <- Hlen. f_equal. unfold c. destruct v; cbn [own_copy]; try done;
      apply Permutation_length, merge_sort_Permutation. }
  destruct (analyze_own_array v p c (set_heap σ (<[p := c]> (heap σ)))) as [r Hr].
  { by rewrite heap_set_heap, lookup_insert_eq. }
  { intros Hv. unfold c. rewrite Hv. cbn [own_copy]. apply Sorted_merge_sort, _. }
  rewrite Hclen in Hr.
  destruct (Hr (set_heap σ (<[p := c]> (heap σ)))) as (σ1 & Hrun1 & _); [|done|done|].
  { by rewrite heap_set_heap, lookup_insert_eq. }
  destruct (Hr (set_heap σt (<[p := c]> (heap σt)))) as (σ2 & Hrun2 & _); [|done|done|].
  { by rewrite heap_set_heap, lookup_insert_eq. }
  exists r, σ1, σ2. unfold run.
  rewrite (bind_Some _ _ _ _ _ Hc), (bind_Some _ _ _ _ _ Hct). done.
Qed.

Lemma run_prefix_witness :
  heap (sample_world [4; 4; 6; 6]) !! 1%positive = Some [4; 4; 6; 6]
  ∧ 0 ≤ 3 ≤ Z.of_nat (length [4; 4; 6; 6])
  ∧ ∃ r σ1 σ2,
      @run ascending_iteration Duplicate 1%positive 3 (sample_world [4; 4; 6; 6])
      = Some (r, σ1)
      ∧ @run ascending_iteration Duplicate 1%positive 3
          (set_heap (sample_world [4; 4; 6; 6])
             (<[1%positive := take (Z.to_nat 3) [4; 4; 6; 6]]>
                (heap (sample_world [4; 4; 6; 6]))))
        = Some (r, σ2).
Proof.
  split; [reflexivity|]. split; [simpl; lia|].
  apply (@run_prefix ascending_iteration Duplicate (sample_world [4; 4; 6; 6]) 1%positive
           [4; 4; 6; 6] 3); [reflexivity|simpl; lia].
Defined.

(** ** Relations between the reports *)

Lemma filter_Forall_id {A} (P : A → Prop) `{!∀ x, Decision (P x)} (l : list A) :
  Forall P l → filter P l = l.
Proof.
  induction 1 as [|x l Hx _ IH]; [done|].
  by rewrite filter_cons, decide_True, IH.
Qed.

Lemma missing_minus_duplicates (l : list Z) :
  Forall (λ v, 0 ≤ v < 1000) l →
  Z.of_nat (length (missing_values l)) - excess_occurrences l = 1000 - Z.of_nat (length l).
Proof.
  intros Hrange. rewrite missing_values_length, excess_occurrences_length.
  rewrite (filter_Forall_id _ l Hrange). lia.
Qed.

(** X11.  For data that lie in 0..999 the duplicate report and the missing
    report over the same array are tied: the number of missing values less
    the number of duplicated ones is 1000 less the size.  Over exactly 1000
    such values the two reports give the same number. *)
Theorem duplicate_missing_balance `{!UnorderedIteration} σ values (l : list Z) :
  heap σ !! values = Some l → Forall (λ v, 0 ≤ v < 1000) l →
  let size := Z.of_nat (length l) in
  ∃ duplicateCount missingCount σ1 σ2,
    run Duplicate values size σ = Some (Duplicated duplicateCount, σ1)
    ∧ run Missing values size σ = Some (MissingValues missingCount, σ2)
    ∧ missingCount - duplicateCount = 1000 - size
    ∧ (size = 1000 → missingCount = duplicateCount).
Proof.
  intros Hsrc Hrange size.
  eexists _, _, _, _. split; [by apply run_Duplicate|]. split; [by apply run_Missing|].
  pose proof (missing_minus_duplicates l Hrange) as Hbal. fold size in Hbal. split; lia.
Qed.

Lemma duplicate_missing_balance_witness :
  heap (sample_world [5; 5; 999; 0]) !! 1%positive = Some [5; 5; 999; 0]
  ∧ Forall (λ v, 0 ≤ v < 1000) [5; 5; 999; 0]
  ∧ ∃ duplicateCount missingCount σ1 σ2,
      @run ascending_iteration Duplicate 1%positive (Z.of_nat (length [5; 5; 999; 0]))
        (sample_world [5; 5; 999; 0]) = Some (Duplicated duplicateCount, σ1)
      ∧ @run ascending_iteration Missing 1%positive (Z.of_nat (length [5; 5; 999; 0]))
          (sample_world [5; 5; 999; 0]) = Some (MissingValues missingCount, σ2)
      ∧ missingCount - duplicateCount = 1000 - Z.of_nat (length [5; 5; 999; 0])
      ∧ (Z.of_nat (length [5; 5; 999; 0]) = 1000 → missingCount = duplicateCount).
Proof.
  assert (Hrange : Forall (λ v, 0 ≤ v < 1000) [5; 5; 999; 0]) by (repeat constructor; lia).
  split; [reflexivity|]. split; [exact Hrange|].
  apply (@duplicate_missing_balance ascending_iteration (sample_world [5; 5; 999; 0])
           1%positive [5; 5; 999; 0]); [reflexivity|exact Hrange].
Defined.

Lemma occurrences_le_length v (l : list Z) : occurrences v l ≤ Z.of_nat (length l).
Proof. unfold occurrences. pose proof (length_filter (λ x, x = v) l). lia. Qed.

(** X12.  In the statistics report of a non-empty array the mode lies
    between the minimum and the maximum, and its count is at least 1 and
    at most the size, whatever the iteration order of the frequency map. *)
Theorem statistics_mode_between `{!UnorderedIteration} σ values (l : list Z) :
  heap σ !! values = Some l → l ≠ [] →
  ∃ min max mean median mode maxFrequency σ',
    run Statistics values (Z.of_nat (length l)) σ
    = Some (Measures min max mean median mode maxFrequency, σ')
    ∧ min ≤ mode ≤ max
    ∧ 1 ≤ maxFrequency ≤ Z.of_nat (length l).
Proof.
  intros Hsrc Hne.
  destruct (statistics_measures σ values l Hsrc Hne)
    as (mode & mf & σ' & Hrun & [_ Hmin] & [_ Hmax] & Hin & Hocc & _).
  eexists _, _, _, _, _, _, _. split; [exact Hrun|].
  split; [split; [by apply Hmin|by apply Hmax]|].
  rewrite <- Hocc. split; [|apply occurrences_le_length].
  apply occurrences_pos in Hin. lia.
Qed.

Lemma statistics_mode_between_witness :
  heap (sample_world [7; 3; 7; 5]) !! 1%positive = Some [7; 3; 7; 5]
  ∧ [7; 3; 7; 5] ≠ []
  ∧ ∃ min max mean median mode maxFrequency σ',
      @run descending_iteration Statistics 1%positive (Z.of_nat (length [7; 3; 7; 5]))
        (sample_world [7; 3; 7; 5])
      = Some (Measures min max mean median mode maxFrequency, σ')
      ∧ min ≤ mode ≤ max
      ∧ 1 ≤ maxFrequency ≤ Z.of_nat (length [7; 3; 7; 5]).
Proof.
  split; [reflexivity|]. split; [discriminate|].
  apply (@statistics_mode_between descending_iteration (sample_world [7; 3; 7; 5])
           1%positive [7; 3; 7; 5]); [reflexivity|discriminate].
Defined.

Lemma median_of_exact (s : list Z) :
  Forall (λ v, - 2 ^ 30 ≤ v < 2 ^ 30) s →
  median_of s
  = let size := Z.of_nat (length s) in
    if decide (size `rem` 2 = 0)
    then double_div (double_of_int (s !!! Z.to_nat (size `quot` 2 - 1)
                                    + s !!! Z.to_nat (size `quot` 2)))
                    (double_of_int 2)
    else double_of_int (s !!! Z.to_nat (size `quot` 2)).
Proof.
  intros Hrange. unfold median_of. cbv zeta. case_decide as Heven; [|done].
  destruct (decide (s = [])) as [->|Hne]; [done|].
  assert (0 < length s)%nat by (destruct s; [done|simpl; lia]).
  assert (Hq : 1 ≤ Z.of_nat (length s) `quot` 2 < Z.of_nat (length s)).
  { pose proof (Z.quot_rem' (Z.of_nat (length s)) 2). lia. }
  rewrite list.Forall_forall in Hrange.
  pose proof (Hrange (s !!! Z.to_nat (Z.of_nat (length s) `quot` 2 - 1))
    ltac:(apply list_elem_of_lookup_total_2; lia)) as Ha.
  pose proof (Hrange (s !!! Z.to_nat (Z.of_nat (length s) `quot` 2))
    ltac:(apply list_elem_of_lookup_total_2; lia)) as Hb.
  simpl in Ha, Hb. do 2 f_equal. unfold int_wrap.
  change (2 ^ 30) with 1073741824 in *. change (2 ^ 31) with 2147483648.
  change (2 ^ 32) with 4294967296. rewrite Z.mod_small; lia.
Qed.

(** X13.  When every element lies between [-2^30] and [2^30 - 1] the sum of
    the two middle elements cannot leave the range of [int]: the median of
    an array of even size is then half the true sum of the two middle
    elements of the sorted array, and the mean of up to [2 ^ 21] elements
    is the quotient of their true sum by their number. *)
Theorem statistics_small_values_exact `{!UnorderedIteration} σ values (l : list Z) :
  heap σ !! values = Some l → l ≠ [] →
  Forall (λ v, - 2 ^ 30 ≤ v < 2 ^ 30) l →
  let s := merge_sort Z.le l in
  let size := Z.of_nat (length l) in
  ∃ min max mean median mode maxFrequency σ',
    run Statistics values size σ = Some (Measures min max mean median mode maxFrequency, σ')
    ∧ (size `rem` 2 = 0 →
       median = double_div (double_of_int (s !!! Z.to_nat (size `quot` 2 - 1)
                                           + s !!! Z.to_nat (size `quot` 2)))
                           (double_of_int 2))
    ∧ (size ≤ 2 ^ 21 →
       mean = double_div (double_of_int (sum_Z l)) (double_of_int size)).
Proof.
  intros Hsrc Hne Hrange s size.
  destruct (mode_fold_pair (s !!! 0%nat, 1) (iteration (frequencies l)))
    as (mode & mf & Hmode).
  assert (Hperm : s ≡ₚ l) by apply merge_sort_Permutation.
  assert (Hlen : length s = length l) by by apply Permutation_length.
  eexists _, _, _, _, _, _, _. split; [by apply run_Statistics|]. fold s. split.
  - intros Heven. rewrite median_of_exact by (by rewrite Hperm).
    cbv zeta. rewrite Hlen. fold size. by rewrite decide_True.
  - intros Hsize. rewrite double_sum_exact.
    + by rewrite (sum_Z_perm s l Hperm).
    + rewrite Hperm. eapply list.Forall_impl; [exact Hrange|].
      intros v Hv. simpl in Hv. unfold is_int, INT_MIN, INT_MAX.
      change (2 ^ 30) with 1073741824 in Hv. lia.
    + by rewrite Hlen.
Qed.

Lemma statistics_small_values_exact_witness :
  heap (sample_world [1073741823; 5; 1073741823; -7]) !! 1%positive
  = Some [1073741823; 5; 1073741823; -7]
  ∧ [1073741823; 5; 1073741823; -7] ≠ []
  ∧ Forall (λ v, - 2 ^ 30 ≤ v < 2 ^ 30) [1073741823; 5; 1073741823; -7]
  ∧ ∃ min max mean median mode maxFrequency σ',
      @run ascending_iteration Statistics 1%positive
        (Z.of_nat (length [1073741823; 5; 1073741823; -7]))
        (sample_world [1073741823; 5; 1073741823; -7])
      = Some (Measures min max mean median mode maxFrequency, σ')
      ∧ (Z.of_nat (length [1073741823; 5; 1073741823; -7]) `rem` 2 = 0 →
         median = double_div
                    (double_of_int
                       (merge_sort Z.le [1073741823; 5; 1073741823; -7]
                          !!! Z.to_nat (Z.of_nat (length [1073741823; 5; 1073741823; -7])
                                        `quot` 2 - 1)
                        + merge_sort Z.le [1073741823; 5; 1073741823; -7]
                            !!! Z.to_nat (Z.of_nat (length [1073741823; 5; 1073741823; -7])
                                          `quot` 2)))
                    (double_of_int 2))
      ∧ (Z.of_nat (length [1073741823; 5; 1073741823; -7]) ≤ 2 ^ 21 →
         mean = double_div (double_of_int (sum_Z [1073741823; 5; 1073741823; -7]))
                  (double_of_int (Z.of_nat (length [1073741823; 5; 1073741823; -7])))).
Proof.
  assert (Hrange : Forall (λ v, - 2 ^ 30 ≤ v < 2 ^ 30) [1073741823; 5; 1073741823; -7]).
  { change (2 ^ 30) with 1073741824. repeat constructor; lia. }
  split; [reflexivity|]. split; [discriminate|]. split; [exact Hrange|].
  apply (@statistics_small_values_exact ascending_iteration
           (sample_world [1073741823; 5; 1073741823; -7]) 1%positive
           [1073741823; 5; 1073741823; -7]); [reflexivity|discriminate|exact Hrange].
Defined.

(** ** More on the reader and the writer *)

Lemma readValues_None m name size0 :
  let inFile := if files m !! name is Some file then Ifstream file true
                else Ifstream [] false in
  let r1 := ifstream_read inFile 4 in
  let size := bytes_int (r1.1 ++ drop (length r1.1) (int_bytes size0)) in
  size < 0 → BinaryReader.readValues name size0 m = None.
Proof.
  intros inFile r1 size Hsize. unfold BinaryReader.readValues.
  rewrite (IO_bind_Some (ifstream_open name) _ m inFile m eq_refl).
  fold r1. destruct r1 as [bs1 inFile1] eqn:Hr1. cbn [fst snd] in *. fold size.
  unfold mbind, IO_bind, lift, new_int_array. by rewrite decide_False by lia.
Qed.

(** X14.  Whenever a reader was constructed, destroying it gives back the
    machine of before the construction: the reader's array is the only
    thing the constructor made, and the destructor releases it. *)
Theorem BinaryReader_new_destroy m name br m' :
  BinaryReader.new name m = Some (br, m') →
  BinaryReader.destructor br m' = Some ((), m).
Proof.
  unfold BinaryReader.new. intros Hnew.
  pose proof (readValues_Some m name [] 0) as Hsome.
  pose proof (readValues_None m name 0) as Hnone. cbv zeta in Hsome, Hnone.
  set (size := bytes_int _) in Hsome, Hnone.
  destruct (decide (0 ≤ size)) as [Hpos|Hneg].
  - rewrite (Hsome Hpos) in Hnew. injection Hnew as <- <-.
    unfold BinaryReader.destructor. cbn [BinaryReader.values].
    erewrite lift_Some; cycle 1.
    { cbn [mem]. eapply delete_array_Some. by rewrite heap_set_heap, lookup_insert_eq. }
    cbn [files console]. rewrite set_heap_set_heap, heap_set_heap.
    rewrite delete_insert_id by apply fresh_heap.
    rewrite set_heap_id. by destruct m.
  - rewrite Hnone in Hnew by lia. discriminate.
Qed.

Lemma BinaryReader_new_destroy_witness :
  BinaryReader.new "f" (sample_machine [] {["f" := [1; 0; 0; 0; 42; 0; 0; 0]]})
  = Some (BinaryReader.Build 2%positive 1,
          Machine (World {[1%positive := []; 2%positive := [42]]} (λ n, Z.of_nat n) 0)
                  {["f" := [1; 0; 0; 0; 42; 0; 0; 0]]} "")
  ∧ BinaryReader.destructor (BinaryReader.Build 2%positive 1)
      (Machine (World {[1%positive := []; 2%positive := [42]]} (λ n, Z.of_nat n) 0)
               {["f" := [1; 0; 0; 0; 42; 0; 0; 0]]} "")
    = Some ((), sample_machine [] {["f" := [1; 0; 0; 0; 42; 0; 0; 0]]}).
Proof.
  split; [vm_compute; reflexivity|].
  apply (BinaryReader_new_destroy
           (sample_machine [] {["f" := [1; 0; 0; 0; 42; 0; 0; 0]]}) "f").
  vm_compute. reflexivity.
Defined.

(** X15.  A file of fewer than four bytes still gives a reader.  The first
    [read] stores the bytes that are there over the low bytes of the size,
    which was 0, and fails; the second [read] then does nothing.  The size
    is the little-endian value of the bytes of the file, and the array has
    that many elements, none of them read from anywhere. *)
Theorem BinaryReader_short_header m name (bs : list Z) :
  files m !! name = Some bs → (length bs < 4)%nat → Forall (λ b, 0 ≤ b < 256) bs →
  ∃ l, BinaryReader.new name m
       = Some (BinaryReader.Build (fresh (dom (heap (mem m))))
                 (foldr (λ b acc, b + 256 * acc) 0 bs),
               Machine (set_heap (mem m) (<[fresh (dom (heap (mem m))) := l]> (heap (mem m))))
                       (files m) (console m))
     ∧ Z.of_nat (length l) = foldr (λ b acc, b + 256 * acc) 0 bs.
Proof.
  intros Hfile Hlen Hbytes.
  pose proof (readValues_Some m name [] 0) as H. rewrite Hfile in H. cbv zeta in H.
  unfold ifstream_read in H. cbn [good pending fst snd] in H.
  rewrite take_ge in H by lia.
  rewrite bool_decide_false in H by lia. cbn [good fst snd] in H.
  assert (Hsize : bytes_int (bs ++ drop (length bs) (int_bytes 0))
                  = foldr (λ b acc, b + 256 * acc) 0 bs
                  ∧ 0 ≤ foldr (λ b acc, b + 256 * acc) 0 bs).
  { destruct bs as [|b0 [|b1 [|b2 [|b3 bs]]]]; [| | | |simpl in Hlen; lia];
      repeat match goal with
             | Hb : Forall _ (_ :: _) |- _ => apply list.Forall_cons in Hb as [? Hb]
             end;
      unfold bytes_int, int_wrap; cbn [length drop app foldr int_bytes fmap list_fmap];
      change (2 ^ 31) with 2147483648; change (2 ^ 32) with 4294967296;
      change (Z.land (Z.shiftr 0 _) 255) with 0;
      (split; [rewrite Z.mod_small; lia|lia]). }
  destruct Hsize as [Hsize Hpos]. rewrite Hsize in H.
  eexists. split; [by apply H|].
  cbn [app length]. rewrite drop_0, <- (app_nil_r (bytes_of_ints _)).
  rewrite ints_of_bytes_of_ints.
  - cbn [ints_of_bytes]. rewrite app_nil_r, length_replicate. lia.
  - apply Forall_replicate. unfold is_int, INT_MIN, INT_MAX. lia.
Qed.

Lemma BinaryReader_short_header_witness :
  files (sample_machine [] {["f" := [3; 1]]}) !! "f" = Some [3; 1]
  ∧ (length [3; 1] < 4)%nat ∧ Forall (λ b, 0 ≤ b < 256) [3; 1]
  ∧ ∃ l, BinaryReader.new "f" (sample_machine [] {["f" := [3; 1]]})
       = Some (BinaryReader.Build
                 (fresh (dom (heap (mem (sample_machine [] {["f" := [3; 1]]})))))
                 (foldr (λ b acc, b + 256 * acc) 0 [3; 1]),
               Machine (set_heap (mem (sample_machine [] {["f" := [3; 1]]}))
                          (<[fresh (dom (heap (mem (sample_machine [] {["f" := [3; 1]]}))))
                             := l]>
                             (heap (mem (sample_machine [] {["f" := [3; 1]]})))))
                       (files (sample_machine [] {["f" := [3; 1]]}))
                       (console (sample_machine [] {["f" := [3; 1]]})))
     ∧ Z.of_nat (length l) = foldr (λ b acc, b + 256 * acc) 0 [3; 1].
Proof.
  assert (Hbytes : Forall (λ b, 0 ≤ b < 256) [3; 1]) by (repeat constructor; lia).
  split; [reflexivity|]. split; [simpl; lia|]. split; [exact Hbytes|].
  apply (BinaryReader_short_header (sample_machine [] {["f" := [3; 1]]}) "f" [3; 1]);
    [reflexivity|simpl; lia|exact Hbytes].
Defined.

(** X16.  [writeBinary] over an existing array.  When the file cannot be
    opened for writing the call returns and changes nothing.  When it can,
    the call has a result exactly when the length is at most the number of
    elements of the array.  A file that can also be read afterwards then
    holds, in place of whatever it held, the four bytes of the length
    followed by four bytes for each of the first [length] elements (none
    for a length that is not positive).  The call changes neither the
    memory, nor another file, nor the console. *)
Theorem writeBinary_defined_iff `{!FileSystem} m values (blk : list Z) length name :
  heap (mem m) !! values = Some blk →
  (is_Some (writeBinary values length name m)
   ↔ can_write name = false ∨ length ≤ Z.of_nat (List.length blk))
  ∧ ∀ m', writeBinary values length name m = Some ((), m') →
      mem m' = mem m ∧ console m' = console m
      ∧ (∀ other, other ≠ name → files m' !! other = files m !! other)
      ∧ files m' !! name
        = (if can_write name && can_read name
           then Some (int_bytes length ++ bytes_of_ints (take (Z.to_nat length) blk))
           else files m !! name)
      ∧ (can_write name = true →
         Z.of_nat (List.length (int_bytes length
                                ++ bytes_of_ints (take (Z.to_nat length) blk)))
         = 4 + 4 * Z.max 0 length).
Proof.
  intros Hp.
  assert (Hbytes : length ≤ Z.of_nat (List.length blk) →
    Z.of_nat (List.length (int_bytes length ++ bytes_of_ints (take (Z.to_nat length) blk)))
    = 4 + 4 * Z.max 0 length).
  { intros Hlen. rewrite length_app, int_bytes_length, length_bytes_of_ints, length_take. lia. }
  destruct (can_write name) eqn:Hw.
  - destruct (decide (length ≤ Z.of_nat (List.length blk))) as [Hlen|Hlen].
    + destruct (can_read name) eqn:Hr; cbn [andb].
      * pose proof (writeBinary_writable m values blk length name Hw Hr Hp Hlen) as Hrun.
        split.
        -- rewrite Hrun. split; [by right|done].
        -- intros m' Hm'. rewrite Hrun in Hm'. injection Hm' as <-. cbn [mem files console].
           split; [done|]. split; [done|]. split.
           ++ intros other Hother. by rewrite lookup_insert_ne.
           ++ split; [apply lookup_insert_eq|intros _; by apply Hbytes].
      * pose proof (writeBinary_unreadable m values blk length name Hw Hr Hp Hlen) as Hrun.
        split.
        -- rewrite Hrun. split; [by right|done].
        -- intros m' Hm'. rewrite Hrun in Hm'. injection Hm' as <-.
           split; [done|]. split; [done|]. split; [done|].
           split; [done|intros _; by apply Hbytes].
    + assert (Hnone : writeBinary values length name m = None).
      { unfold writeBinary.
        rewrite (IO_bind_Some _ _ _ _ _ (ofstream_open_writable name m Hw)).
        erewrite IO_bind_Some; cycle 1.
        { by apply (ofstream_write_Some name 4 _ _ (int_bytes length)). }
        unfold ofstream_write. cbn [is_open target andb].
        rewrite bool_decide_true by lia.
        unfold mbind at 1, IO_bind at 1, lift, load_bytes.
        assert (Hmem : ∀ m1 m2 : machine, mem (if can_read name then m1 else m2) =
                         if can_read name then mem m1 else mem m2)
          by (intros; by destruct (can_read name)).
        rewrite !Hmem. cbn [mem]. destruct (can_read name); rewrite Hp; simpl;
          by rewrite decide_False by lia. }
      rewrite Hnone. split; [|discriminate].
      split; [intros []; discriminate|]. intros [|]; [discriminate|lia].
  - rewrite (writeBinary_unwritable m values length name Hw). split.
    + split; [by left|done].
    + intros m' Hm'. injection Hm' as <-.
      split; [done|]. split; [done|]. split; [done|]. split; [done|]. discriminate.
Qed.

Lemma writeBinary_defined_iff_witness :
  heap (mem (sample_machine [7; 8; 9] {["f" := [1; 2; 3]]})) !! 1%positive = Some [7; 8; 9]
  ∧ (is_Some (@writeBinary writable_fs 1%positive (-1) "f"
                (sample_machine [7; 8; 9] {["f" := [1; 2; 3]]}))
     ↔ @can_write writable_fs "f" = false ∨ -1 ≤ Z.of_nat (List.length [7; 8; 9]))
  ∧ ∀ m', @writeBinary writable_fs 1%positive (-1) "f"
            (sample_machine [7; 8; 9] {["f" := [1; 2; 3]]})
          = Some ((), m') →
      mem m' = mem (sample_machine [7; 8; 9] {["f" := [1; 2; 3]]})
      ∧ console m' = console (sample_machine [7; 8; 9] {["f" := [1; 2; 3]]})
      ∧ (∀ other, other ≠ "f" →
           files m' !! other = files (sample_machine [7; 8; 9] {["f" := [1; 2; 3]]}) !! other)
      ∧ files m' !! "f"
        = (if @can_write writable_fs "f" && @can_read writable_fs "f"
           then Some (int_bytes (-1) ++ bytes_of_ints (take (Z.to_nat (-1)) [7; 8; 9]))
           else files (sample_machine [7; 8; 9] {["f" := [1; 2; 3]]}) !! "f")
      ∧ (@can_write writable_fs "f" = true →
         Z.of_nat (List.length (int_bytes (-1)
                                ++ bytes_of_ints (take (Z.to_nat (-1)) [7; 8; 9])))
         = 4 + 4 * Z.max 0 (-1)).
Proof.
  split; [reflexivity|].
  apply (@writeBinary_defined_iff writable_fs
           (sample_machine [7; 8; 9] {["f" := [1; 2; 3]]}) 1%positive [7; 8; 9] (-1) "f").
  reflexivity.
Defined.

(** ** The file that [createBinaryFile] makes *)

(** X17.  For a length of 0 or more, [createBinaryFile] draws exactly
    [length] numbers from the generator and releases its vector: the
    memory is as before, and so is the console.  When the file can be
    opened for writing and then for reading it is replaced by the four
    bytes of the length followed by the bytes of [length] values, each of
    them between 0 and 999; otherwise the files that a reader sees are as
    they were. *)
Theorem createBinaryFile_file `{!FileSystem} m name length :
  0 ≤ length → (∀ k, 0 ≤ rand_seq (mem m) k) →
  ∃ data,
    createBinaryFile name length m
    = Some ((), Machine (World (heap (mem m)) (rand_seq (mem m))
                           (rand_calls (mem m) + Z.to_nat length))
                  (if can_write name && can_read name
                   then <[name := int_bytes length ++ bytes_of_ints data]> (files m)
                   else files m)
                  (console m))
    ∧ Z.of_nat (List.length data) = length
    ∧ Forall (λ v, 0 ≤ v < 1000) data.
Proof.
  intros Hlen Hrand. exists (random_values (mem m) (Z.to_nat length)).
  split; [by apply createBinaryFile_Some|].
  split; [rewrite length_random_values; lia|by apply random_values_range].
Qed.

Lemma createBinaryFile_file_witness :
  0 ≤ 3 ∧ (∀ k, 0 ≤ rand_seq (mem (sample_machine [] ∅)) k)
  ∧ ∃ data,
      @createBinaryFile writable_fs "f" 3 (sample_machine [] ∅)
      = Some ((), Machine (World (heap (mem (sample_machine [] ∅)))
                             (rand_seq (mem (sample_machine [] ∅)))
                             (rand_calls (mem (sample_machine [] ∅)) + Z.to_nat 3))
                    (if @can_write writable_fs "f" && @can_read writable_fs "f"
                     then <["f" := int_bytes 3 ++ bytes_of_ints data]>
                            (files (sample_machine [] ∅))
                     else files (sample_machine [] ∅))
                    (console (sample_machine [] ∅)))
      ∧ Z.of_nat (List.length data) = 3
      ∧ Forall (λ v, 0 ≤ v < 1000) data.
Proof.
  assert (Hrand : ∀ k, 0 ≤ rand_seq (mem (sample_machine [] ∅)) k) by (intros k; simpl; lia).
  split; [lia|]. split; [exact Hrand|].
  apply (@createBinaryFile_file writable_fs (sample_machine [] ∅) "f" 3); [lia|exact Hrand].
Defined.

(** X18.  [createBinaryFile] has no result for a negative length: there is
    no vector of a negative number of elements.  In particular no file is
    written. *)
Theorem createBinaryFile_negative_length `{!FileSystem} m name length :
  length < 0 → createBinaryFile name length m = None.
Proof.
  intros Hlen. unfold createBinaryFile.
  unfold mbind at 1, IO_bind at 1, lift at 1, new_int_array. by rewrite decide_False by lia.
Qed.

Lemma createBinaryFile_negative_length_witness :
  -1 < 0 ∧ @createBinaryFile writable_fs "f" (-1) (sample_machine [] ∅) = None.
Proof.
  split; [lia|].
  apply (@createBinaryFile_negative_length writable_fs (sample_machine [] ∅) "f" (-1)). lia.
Defined.

(** X19.  When the file can be opened for writing and then for reading, a
    reader constructed on the file that [createBinaryFile] has just made
    has the size that was asked for, and its array holds that many values
    between 0 and 999: the values that were written. *)
Theorem createBinaryFile_read_back `{!FileSystem} m name length :
  can_write name = true → can_read name = true →
  0 ≤ length ≤ INT_MAX → (∀ k, 0 ≤ rand_seq (mem m) k) →
  ∃ data m',
    (createBinaryFile name length ≫= λ _, BinaryReader.new name) m
    = Some (BinaryReader.Build (fresh (dom (heap (mem m)))) length, m')
    ∧ heap (mem m') = <[fresh (dom (heap (mem m))) := data]> (heap (mem m))
    ∧ files m' !! name = Some (int_bytes length ++ bytes_of_ints data)
    ∧ Z.of_nat (List.length data) = length
    ∧ Forall (λ v, 0 ≤ v < 1000) data.
Proof.
  intros Hw Hr Hlen Hrand. set (data := random_values (mem m) (Z.to_nat length)).
  assert (Hdata : Z.of_nat (List.length data) = length).
  { unfold data. rewrite length_random_values. lia. }
  exists data. eexists. split.
  - rewrite (IO_bind_Some _ _ _ _ _ (createBinaryFile_Some m name length ltac:(lia))).
    rewrite Hw, Hr. cbn [andb]. fold data.
    rewrite (BinaryReader_new_written _ name length data); [reflexivity|..].
    + cbn [files]. apply lookup_insert_eq.
    + done.
    + unfold is_int, INT_MIN, INT_MAX in *. lia.
    + by apply random_values_is_int.
  - cbn [mem files heap]. split; [done|]. split; [apply lookup_insert_eq|].
    split; [done|by apply random_values_range].
Qed.

Lemma createBinaryFile_read_back_witness :
  @can_write writable_fs "f" = true ∧ @can_read writable_fs "f" = true
  ∧ 0 ≤ 3 ≤ INT_MAX ∧ (∀ k, 0 ≤ rand_seq (mem (sample_machine [] ∅)) k)
  ∧ ∃ data m',
      (@createBinaryFile writable_fs "f" 3 ≫= λ _, BinaryReader.new "f")
        (sample_machine [] ∅)
      = Some (BinaryReader.Build (fresh (dom (heap (mem (sample_machine [] ∅))))) 3, m')
      ∧ heap (mem m')
        = <[fresh (dom (heap (mem (sample_machine [] ∅)))) := data]>
            (heap (mem (sample_machine [] ∅)))
      ∧ files m' !! "f" = Some (int_bytes 3 ++ bytes_of_ints data)
      ∧ Z.of_nat (List.length data) = 3
      ∧ Forall (λ v, 0 ≤ v < 1000) data.
Proof.
  assert (Hrand : ∀ k, 0 ≤ rand_seq (mem (sample_machine [] ∅)) k) by (intros k; simpl; lia).
  assert (Hlen : 0 ≤ 3 ≤ INT_MAX) by (unfold INT_MAX; lia).
  split; [reflexivity|]. split; [reflexivity|]. split; [exact Hlen|]. split; [exact Hrand|].
  apply (@createBinaryFile_read_back writable_fs (sample_machine [] ∅) "f" 3);
    [reflexivity|reflexivity|exact Hlen|exact Hrand].
Defined.

(** ** What a run of [main] does *)

(** X20.  When [binary.dat] can be opened for writing and then for
    reading, [main] runs to its end and returns 0, whatever the files, the
    memory, the console, the clock, the generator and the iteration order
    of the maps.  Every array that it allocated has been released when it
    returns, it has drawn exactly 1100 numbers from the generator, and the
    only file it has written is [binary.dat]. *)
Theorem main_returns_and_releases `{!UnorderedIteration} `{!Platform} `{!FileSystem} m :
  can_write "binary.dat" = true → can_read "binary.dat" = true →
  ∃ m', main m = Some (0, m')
      ∧ heap (mem m') = heap (mem m)
      ∧ rand_calls (mem m') = 1100%nat
      ∧ ∀ name, name ≠ "binary.dat" → files m' !! name = files m !! name.
Proof.
  intros Hw Hr. eexists. split; [by apply main_Some|]. cbn [mem heap rand_calls files].
  split; [done|]. split; [done|]. intros name Hname. by rewrite lookup_insert_ne.
Qed.

Lemma main_returns_and_releases_witness :
  @can_write writable_fs "binary.dat" = true
  ∧ @can_read writable_fs "binary.dat" = true
  ∧ ∃ m', @main ascending_iteration sample_platform writable_fs
            (sample_machine [4; 2] {["binary.dat" := [255; 255; 255; 255]]})
          = Some (0, m')
      ∧ heap (mem m')
        = heap (mem (sample_machine [4; 2] {["binary.dat" := [255; 255; 255; 255]]}))
      ∧ rand_calls (mem m') = 1100%nat
      ∧ ∀ name, name ≠ "binary.dat" →
          files m' !! name
          = files (sample_machine [4; 2] {["binary.dat" := [255; 255; 255; 255]]}) !! name.
Proof.
  split; [reflexivity|]. split; [reflexivity|].
  apply (@main_returns_and_releases ascending_iteration sample_platform writable_fs
           (sample_machine [4; 2] {["binary.dat" := [255; 255; 255; 255]]}));
    reflexivity.
Defined.

(** X21.  When [binary.dat] can be opened for writing and then for
    reading, after [main] it holds 4004 bytes: the four bytes of 1000 and
    then the bytes of 1000 values between 0 and 999, whatever it held
    before. *)
Theorem main_data_file `{!UnorderedIteration} `{!Platform} `{!FileSystem} m :
  can_write "binary.dat" = true → can_read "binary.dat" = true →
  ∃ data m', main m = Some (0, m')
      ∧ files m' !! "binary.dat" = Some (int_bytes 1000 ++ bytes_of_ints data)
      ∧ length data = 1000%nat
      ∧ Forall (λ v, 0 ≤ v < 1000) data
      ∧ length (int_bytes 1000 ++ bytes_of_ints data) = 4004%nat.
Proof.
  intros Hw Hr. exists main_data. eexists. split; [by apply main_Some|]. cbn [files].
  split; [apply lookup_insert_eq|]. split; [apply main_data_length|].
  split; [apply main_data_range|].
  by rewrite length_app, int_bytes_length, length_bytes_of_ints, main_data_length.
Qed.

Lemma main_data_file_witness :
  @can_write writable_fs "binary.dat" = true
  ∧ @can_read writable_fs "binary.dat" = true
  ∧ ∃ data m', @main ascending_iteration sample_platform writable_fs
                 (sample_machine [] {["binary.dat" := [1; 2; 3]]})
               = Some (0, m')
      ∧ files m' !! "binary.dat" = Some (int_bytes 1000 ++ bytes_of_ints data)
      ∧ length data = 1000%nat
      ∧ Forall (λ v, 0 ≤ v < 1000) data
      ∧ length (int_bytes 1000 ++ bytes_of_ints data) = 4004%nat.
Proof.
  split; [reflexivity|]. split; [reflexivity|].
  apply (@main_data_file ascending_iteration sample_platform writable_fs
           (sample_machine [] {["binary.dat" := [1; 2; 3]]}));
    reflexivity.
Defined.

(** X22.  When [binary.dat] can be opened for writing and then for
    reading, what [main] prints is the banner, an empty line and the four
    reports, each followed by a newline.  The number of duplicated values
    and the number of missing values that it prints are then the same
    number, at most 999, and the number of values found is at most 100. *)
Theorem main_duplicates_equal_missing `{!UnorderedIteration} `{!Platform} `{!FileSystem} m :
  can_write "binary.dat" = true → can_read "binary.dat" = true →
  ∃ statistics count foundCount m',
    main m = Some (0, m')
    ∧ console m'
      = foldl (λ out r, out +:+ (report_text show_double r +:+ newline))
          (console m +:+ ("Binary Data Analyzer" +:+ newline +:+ newline))
          [statistics; Duplicated count; MissingValues count; Found foundCount]
    ∧ 0 ≤ count ≤ 999 ∧ 0 ≤ foundCount ≤ 100.
Proof.
  intros Hw Hr.
  exists (statistics_of main_data), (excess_occurrences main_data),
    (Z.of_nat (length (filter (λ k, k ∈ main_data) main_keys))).
  eexists. split; [by apply main_Some|]. cbn [console].
  pose proof (missing_minus_duplicates main_data main_data_range) as Hbal.
  rewrite main_data_length in Hbal.
  assert (Heq : Z.of_nat (length (missing_values main_data)) = excess_occurrences main_data)
    by lia.
  split; [|split].
  - unfold main_console, console_after, main_reports, reports_of. by rewrite Heq.
  - pose proof (excess_occurrences_length main_data) as Hd.
    rewrite main_data_length in Hd.
    assert (0 < length (remove_dups main_data))%nat; [|lia].
    assert (Hin : main_data !!! 0%nat ∈ remove_dups main_data).
    { apply elem_of_remove_dups, list_elem_of_lookup_total_2. rewrite main_data_length. lia. }
    destruct (remove_dups main_data); [by apply elem_of_nil in Hin|simpl; lia].
  - pose proof (length_filter (λ k, k ∈ main_data) main_keys) as Hle.
    unfold main_keys in Hle at 2. rewrite length_fmap, length_seq in Hle. lia.
Qed.

Lemma main_duplicates_equal_missing_witness :
  @can_write writable_fs "binary.dat" = true
  ∧ @can_read writable_fs "binary.dat" = true
  ∧ ∃ statistics count foundCount m',
      @main ascending_iteration sample_platform writable_fs (sample_machine [] ∅)
      = Some (0, m')
      ∧ console m'
        = foldl (λ out r, out +:+ (report_text (@show_double sample_platform) r +:+ newline))
            (console (sample_machine [] ∅)
             +:+ ("Binary Data Analyzer" +:+ newline +:+ newline))
            [statistics; Duplicated count; MissingValues count; Found foundCount]
      ∧ 0 ≤ count ≤ 999 ∧ 0 ≤ foundCount ≤ 100.
Proof.
  split; [reflexivity|]. split; [reflexivity|].
  apply (@main_duplicates_equal_missing ascending_iteration sample_platform writable_fs
           (sample_machine [] ∅));
    reflexivity.
Defined.



Lemma string_app_assoc (a b c : string) : (a +:+ b) +:+ c = a +:+ (b +:+ c).
Proof.
  induction a as [|x a IH]; [done|].
  change (String x ((a +:+ b) +:+ c) = String x (a +:+ (b +:+ c))). by rewrite IH.
Qed.

Lemma foldl_append_prefix {A} (f : A → string) (c b : string) (rs : list A) :
  foldl (λ out r, out +:+ f r) (c +:+ b) rs = c +:+ foldl (λ out r, out +:+ f r) b rs.
Proof.
  revert b. induction rs as [|r rs IH]; intros b; [done|].
  cbn [foldl]. by rewrite string_app_assoc, IH.
Qed.

(** X24.  When [binary.dat] can be opened for writing and then for
    reading, what a run of [main] appends to the console, and what it
    leaves in [binary.dat], is fixed by the clock, the generator, the
    formatting of [double]s and the iteration order of the maps: it does
    not depend on the files (an earlier [binary.dat] among them), the
    memory or the console that the run starts with. *)
Theorem main_ignores_prior_state `{!UnorderedIteration} `{!Platform} `{!FileSystem} :
  can_write "binary.dat" = true → can_read "binary.dat" = true →
  ∃ output bytes, ∀ m,
    ∃ m', main m = Some (0, m')
        ∧ console m' = console m +:+ output
        ∧ files m' !! "binary.dat" = Some bytes.
Proof.
  intros Hw Hr.
  exists (main_console ""), (int_bytes SIZE ++ bytes_of_ints main_data). intros m.
  eexists. split; [by apply main_Some|]. cbn [console files].
  split; [|apply lookup_insert_eq].
  unfold main_console, console_after.
  rewrite (foldl_append_prefix (λ r, report_text show_double r +:+ newline) (console m)).
  reflexivity.
Qed.

Lemma main_ignores_prior_state_witness :
  @can_write writable_fs "binary.dat" = true
  ∧ @can_read writable_fs "binary.dat" = true
  ∧ ∃ output bytes, ∀ m,
      ∃ m', @main ascending_iteration sample_platform writable_fs m = Some (0, m')
          ∧ console m' = console m +:+ output
          ∧ files m' !! "binary.dat" = Some bytes.
Proof.
  split; [reflexivity|]. split; [reflexivity|].
  apply (@main_ignores_prior_state ascending_iteration sample_platform writable_fs);
    reflexivity.
Defined.

(** ** [main] when the file cannot be written *)

(** X25.  When [binary.dat] cannot be opened for writing, or cannot be
    read once written, and no earlier [binary.dat] can be read either,
    [main] still returns 0: it draws its 1100 numbers, leaves the files
    that a reader sees as they were, finds a reader of size 0 and prints
    the four reports of empty data, that is no statistics, 0 duplicated,
    1000 missing and 0 found. *)
Theorem main_unwritable_no_file `{!UnorderedIteration} `{!Platform} `{!FileSystem} m :
  can_write "binary.dat" && can_read "binary.dat" = false →
  files m !! "binary.dat" = None →
  ∃ m', main m = Some (0, m')
      ∧ files m' = files m
      ∧ heap (mem m') = heap (mem m)
      ∧ rand_calls (mem m') = 1100%nat
      ∧ console m'
        = foldl (λ out r, out +:+ (report_text show_double r +:+ newline))
            (console m +:+ ("Binary Data Analyzer" +:+ newline +:+ newline))
            [NoData; Duplicated 0; MissingValues 1000; Found 0].
Proof.
  intros Hw Hfile. eexists. split; [by apply main_unwritable_missing|].
  cbn [mem heap rand_calls files console].
  split; [done|]. split; [done|]. split; [done|].
  unfold console_after, reports_of.
  assert (Hmissing : Z.of_nat (length (missing_values [])) = 1000).
  { by rewrite missing_values_length. }
  assert (Hfound : ∀ keys : list Z, filter (λ k, k ∈ @nil Z) keys = []).
  { induction keys as [|k keys IH]; [done|].
    rewrite filter_cons, decide_False by apply not_elem_of_nil. exact IH. }
  rewrite Hmissing, Hfound. reflexivity.
Qed.

Lemma main_unwritable_no_file_witness :
  @can_write read_only_fs "binary.dat" && @can_read read_only_fs "binary.dat" = false
  ∧ files (sample_machine [] ∅) !! "binary.dat" = None
  ∧ ∃ m', @main ascending_iteration sample_platform read_only_fs (sample_machine [] ∅)
          = Some (0, m')
      ∧ files m' = files (sample_machine [] ∅)
      ∧ heap (mem m') = heap (mem (sample_machine [] ∅))
      ∧ rand_calls (mem m') = 1100%nat
      ∧ console m'
        = foldl (λ out r, out +:+ (report_text (@show_double sample_platform) r +:+ newline))
            (console (sample_machine [] ∅)
             +:+ ("Binary Data Analyzer" +:+ newline +:+ newline))
            [NoData; Duplicated 0; MissingValues 1000; Found 0].
Proof.
  split; [reflexivity|]. split; [reflexivity|].
  apply (@main_unwritable_no_file ascending_iteration sample_platform read_only_fs
           (sample_machine [] ∅)); reflexivity.
Defined.

(** X26.  When [binary.dat] cannot be opened for writing and holds a
    well-formed earlier file (a length and that many values, here between
    [-2^30] and [2^30 - 1]), [main] leaves the file as it is and its four
    reports are those of the earlier values, not of the values it has just
    generated. *)
Theorem main_unwritable_old_file `{!UnorderedIteration} `{!Platform} `{!FileSystem} m
    (data : list Z) :
  can_write "binary.dat" = false →
  files m !! "binary.dat" = Some (int_bytes (Z.of_nat (length data)) ++ bytes_of_ints data) →
  Z.of_nat (length data) ≤ INT_MAX → Forall (λ v, - 2 ^ 30 ≤ v < 2 ^ 30) data →
  ∃ m', main m = Some (0, m')
      ∧ files m' = files m
      ∧ heap (mem m') = heap (mem m)
      ∧ console m'
        = foldl (λ out r, out +:+ (report_text show_double r +:+ newline))
            (console m +:+ ("Binary Data Analyzer" +:+ newline +:+ newline))
            [statistics_of data;
             Duplicated (excess_occurrences data);
             MissingValues (Z.of_nat (length (missing_values data)));
             Found (Z.of_nat (length (filter (λ k, k ∈ data) main_keys)))].
Proof.
  intros Hw Hfile Hlen Hrange. eexists. split.
  - apply (main_unwritable_old m data); [by rewrite Hw|exact Hfile|..].
    + unfold is_int, INT_MIN, INT_MAX in *. lia.
    + eapply list.Forall_impl; [exact Hrange|].
      intros v Hv. cbv beta in Hv. unfold is_int, INT_MIN, INT_MAX.
      change (2 ^ 30) with 1073741824 in Hv. lia.
  - cbn [mem heap files console]. done.
Qed.

Lemma main_unwritable_old_file_witness :
  @can_write read_only_fs "binary.dat" = false
  ∧ files (sample_machine [] {["binary.dat" := int_bytes (Z.of_nat (length [5; 5; 7]))
                                               ++ bytes_of_ints [5; 5; 7]]}) !! "binary.dat"
    = Some (int_bytes (Z.of_nat (length [5; 5; 7])) ++ bytes_of_ints [5; 5; 7])
  ∧ Z.of_nat (length [5; 5; 7]) ≤ INT_MAX
  ∧ Forall (λ v, - 2 ^ 30 ≤ v < 2 ^ 30) [5; 5; 7]
  ∧ ∃ m', @main ascending_iteration sample_platform read_only_fs
            (sample_machine [] {["binary.dat" := int_bytes (Z.of_nat (length [5; 5; 7]))
                                                 ++ bytes_of_ints [5; 5; 7]]})
          = Some (0, m')
      ∧ files m'
        = files (sample_machine [] {["binary.dat" := int_bytes (Z.of_nat (length [5; 5; 7]))
                                                     ++ bytes_of_ints [5; 5; 7]]})
      ∧ heap (mem m')
        = heap (mem (sample_machine [] {["binary.dat" :=
                       int_bytes (Z.of_nat (length [5; 5; 7])) ++ bytes_of_ints [5; 5; 7]]}))
      ∧ console m'
        = foldl (λ out r, out +:+ (report_text (@show_double sample_platform) r +:+ newline))
            (console (sample_machine [] {["binary.dat" :=
                        int_bytes (Z.of_nat (length [5; 5; 7])) ++ bytes_of_ints [5; 5; 7]]})
             +:+ ("Binary Data Analyzer" +:+ newline +:+ newline))
            [@statistics_of ascending_iteration [5; 5; 7];
             Duplicated (excess_occurrences [5; 5; 7]);
             MissingValues (Z.of_nat (length (missing_values [5; 5; 7])));
             Found (Z.of_nat (length (filter (λ k, k ∈ [5; 5; 7])
                                        (@main_keys sample_platform))))].
Proof.
  assert (Hlen : Z.of_nat (length [5; 5; 7]) ≤ INT_MAX) by (unfold INT_MAX; simpl; lia).
  assert (Hrange : Forall (λ v, - 2 ^ 30 ≤ v < 2 ^ 30) [5; 5; 7]).
  { change (2 ^ 30) with 1073741824. repeat constructor; lia. }
  split; [reflexivity|]. split; [reflexivity|]. split; [exact Hlen|]. split; [exact Hrange|].
  apply (@main_unwritable_old_file ascending_iteration sample_platform read_only_fs
           (sample_machine [] {["binary.dat" := int_bytes (Z.of_nat (length [5; 5; 7]))
                                                ++ bytes_of_ints [5; 5; 7]]}) [5; 5; 7]);
    [reflexivity|reflexivity|exact Hlen|exact Hrange].
Defined.
